(** * OneBot V11 adapter: connection and dispatch engine

    A shallow embedding of [nonebot/adapters/onebot/v11/adapter.py].

    - Python values that travel through the adapter (JSON payloads, header
      values, exceptions) are inductive types; truthiness tests are written
      out.
    - Synchronous code is a state-and-exception monad over the adapter
      object; [async def] code is an interaction tree whose visible events
      are the [await] points.  A suspended coroutine hands the shared adapter
      state to the event loop and gets it back, possibly changed by other
      coroutines, together with the awaited value.
    - Collaborators that live outside this file of the repository (the
      [json] and [hmac] modules, the event models of [event.py], the helpers
      of [utils.py], the driver) are the fields of the class [Runtime]. *)

From Stdlib Require Import QArith ZArith Ascii String List.
From Stdlib Require Import Floats.SpecFloat.
From stdpp Require Import gmap strings list fin_maps pretty.
From ITree Require Import ITree ITreeFacts.

#[local] Open Scope string_scope.
#[local] Open Scope Z_scope.

(** ** Python values *)

#[local] Set Warnings "-register-all".

(** What [json.loads] can return; a [float] is an IEEE 754 binary64 value. *)
Inductive json :=
| JNull
| JBool (b : bool)
| JInt (z : Z)
| JFloat (f : spec_float)
| JString (s : string)
| JList (l : list json)
| JDict (d : list (string * json)).

(** [bool(v)] *)
Definition truthy (v : json) : bool :=
  match v with
  | JNull => false
  | JBool b => b
  | JInt z => negb (Z.eqb z 0)
  | JFloat f => match f with S754_zero _ => false | _ => true end
  | JString s => negb (String.eqb s "")
  | JList l => match l with [] => false | _ => true end
  | JDict d => match d with [] => false | _ => true end
  end.

(** [bool(s)] for an optional string such as a header value. *)
Definition str_truthy (o : option string) : bool :=
  match o with
  | Some s => negb (String.eqb s "")
  | None => false
  end.

(** A [dict] as an association list; the first binding of a key is the live
    one. *)
Fixpoint dict_get (k : string) (d : list (string * json)) : option json :=
  match d with
  | [] => None
  | (k', v) :: d' => if String.eqb k k' then Some v else dict_get k d'
  end.

(** [s.split(sep)] for a one-character separator. *)
Fixpoint str_split (sep : ascii) (s : string) : list string :=
  match s with
  | EmptyString => [EmptyString]
  | String c s' =>
      if Ascii.eqb c sep then EmptyString :: str_split sep s'
      else match str_split sep s' with
           | [] => [String c EmptyString]
           | w :: ws => String c w :: ws
           end
  end.

(** [s.endswith(suffix)] *)
Definition endswith (s suffix : string) : bool :=
  let n := String.length s in
  let m := String.length suffix in
  (m <=? n)%nat && String.eqb (substring (n - m) m s) suffix.

(** Exceptions.  Every constructor is a subclass of [Exception]:
    [ApiNotAvailable] and [NetworkError] of [exception.py], two builtins, and
    [Raised] for the other builtins and for the classes of collaborators
    ([RuntimeError], [JSONDecodeError], pydantic's [ValidationError],
    [ActionFailed], asyncio's [InvalidStateError], transport errors). *)
Inductive exn :=
| ApiNotAvailable
| NetworkError (msg : string)
| ValueError (msg : string)
| TypeError (msg : string)
| Raised (cls msg : string).

(** [isinstance(e, NetworkError)] *)
Definition is_NetworkError (e : exn) : bool :=
  match e with NetworkError _ => true | _ => false end.

(** ** Driver objects *)

Record Request := {
  method : string;
  url : string;
  headers : gmap string string;   (* header names in lower case *)
  content : option string;
  timeout : option Q
}.

Record Response := {
  status_code : Z;
  response_content : option string
}.

(** A [WebSocket] object; [ws_id] is its identity. *)
Record WebSocket := {
  ws_id : nat;
  request : Request
}.

(** A [Bot(adapter, self_id)] of [bot.py]; only its [self_id] is read. *)
Record Bot := { self_id : string }.

(** What the adapter reads of [self.config] and [self.onebot_config]
    ([config.py]). *)
Record Config := {
  api_root : gmap string string;
  api_timeout : option Q;
  onebot_access_token : option string;
  onebot_secret : option string;
  onebot_ws_urls : list string
}.

(** [isinstance(self.driver, ForwardDriver)], [... ReverseDriver)] *)
Record Driver := {
  is_ForwardDriver : bool;
  is_ReverseDriver : bool
}.

Definition RECONNECT_INTERVAL : Q := 3.

(** ** Collaborators *)

(** Everything the adapter calls that is defined outside [adapter.py]: the
    [json] and [hmac] modules, string formatting of payload values, the
    event models of [event.py] (pydantic classes), and the helpers imported
    from [utils.py] and [nonebot.utils]. *)
Class Runtime := {
  (** [Type[Event]]: an event class of [event.py], with its [__event__]
      attribute and its [parse_obj] validator. *)
  Model : Type;
  Event : Type;
  __event__ : Model -> string;
  parse_obj : Model -> json -> exn + Event;
  (** the base class [Event] *)
  EventBase : Model;
  (** the event classes that [dir(event)] lists, in that order *)
  dir_event : list Model;
  (** [isinstance(event, LifecycleMetaEvent)], [event.sub_type],
      [event.self_id] *)
  isinstance_LifecycleMetaEvent : Event -> bool;
  event_sub_type : Event -> string;
  event_self_id : Event -> Z;
  (** [json.loads], [json.dumps(..., cls=DataclassEncoder)] *)
  json_loads : string -> exn + json;
  json_dumps : json -> string;
  (** [str(v)] for a payload value that is not a string *)
  py_str : json -> string;
  (** [hmac.new(key, body, "sha1").hexdigest()] *)
  hmac_sha1_hexdigest : string -> string -> string;
  get_auth_bearer : option string -> option string;
  escape_tag : string -> string;
  _handle_api_result : json -> exn + json;
  (** [utils.ResultStore]: the pending calls and the sequence counter.
      [add_result] hands the payload to the future of the call it answers,
      and [Future.set_result] raises on a future that is done already: the
      store as [add_result] leaves it, and whether it has raised. *)
  ResultStore : Type;
  ResultStore_get_seq : ResultStore -> Z * ResultStore;
  ResultStore_add_result :
    string -> json -> ResultStore -> ResultStore * (exn + unit);
  (** What the constructor [Request] makes of a [str] given as URL: it
      calls [URL] of [yarl], which gives the URL, here as its text, or
      raises [ValueError], here as its message. *)
  Request_url : string -> string + string
}.

(** [f"{v}"]: a [str] formats as itself. *)
Definition format_value `{Runtime} (v : json) : string :=
  match v with
  | JString s => s
  | _ => py_str v
  end.

(** [Request(method, url, headers=..., content=..., timeout=...)] of nonebot
    for a [url] that is a [str]. *)
Definition new_Request `{Runtime} (method url : string)
  (headers : gmap string string) (content : option string)
  (timeout : option Q) : exn + Request :=
  match Request_url url with
  | inr url =>
      inr {| method := method; url := url; headers := headers;
             content := content; timeout := timeout |}
  | inl msg => inl (ValueError msg)
  end.

(** [left + right] where [right] is a [str]: defined on a [str] only. *)
Definition py_add_str (left : json) (right : string) : exn + string :=
  match left with
  | JString s => inr (s ++ right)
  | _ => inl (TypeError "unsupported operand type(s) for +")
  end.

(** ** pygtrie.StringTrie *)

(** A [StringTrie(separator=".")] holds its values at paths, the key split
    at the separator.  [prefixes] walks down from the root along the path of
    the key and yields the value of every node on the way that has one,
    the shortest path first. *)
Abbreviation StringTrie V := (gmap (list string) V).

Definition _path_from_key (key : string) : list string :=
  str_split "." key.

Definition trie_setitem {V} (key : string) (value : V) (t : StringTrie V)
  : StringTrie V :=
  <[_path_from_key key := value]> t.

Fixpoint prefixes_walk {V} (t : StringTrie V) (pos rest : list string)
  : list (list string * V) :=
  match t !! pos with Some value => [(pos, value)] | None => [] end ++
  match rest with
  | [] => []
  | step :: rest' => prefixes_walk t (pos ++ [step]) rest'
  end.

Definition prefixes {V} (key : string) (t : StringTrie V)
  : list (list string * V) :=
  prefixes_walk t [] (_path_from_key key).

(** ** The adapter object *)

Section AdapterState.
Context `{RT : Runtime}.

Record LogRecord := {
  level : string;
  message : string;
  exception : option exn
}.

(** The instance attributes of [Adapter] together with the class attribute
    [event_models] and the process-wide objects its methods write to. *)
Record Adapter := {
  driver : Driver;
  config : Config;
  event_models : StringTrie Model;
  connections : gmap string WebSocket;
  bots : gmap string Bot;
  result_store : ResultStore;
  (** [asyncio.create_task(bot.handle_event(event))], oldest first *)
  spawned : list (Bot * Event);
  (** what [log] has written, oldest first *)
  journal : list LogRecord
}.

Definition set_event_models (f : StringTrie Model -> StringTrie Model)
  (a : Adapter) : Adapter :=
  {| driver := driver a; config := config a;
     event_models := f (event_models a);
     connections := connections a; bots := bots a;
     result_store := result_store a; spawned := spawned a;
     journal := journal a |}.

Definition set_connections
  (f : gmap string WebSocket -> gmap string WebSocket) (a : Adapter)
  : Adapter :=
  {| driver := driver a; config := config a;
     event_models := event_models a;
     connections := f (connections a); bots := bots a;
     result_store := result_store a; spawned := spawned a;
     journal := journal a |}.

Definition set_bots (f : gmap string Bot -> gmap string Bot) (a : Adapter)
  : Adapter :=
  {| driver := driver a; config := config a;
     event_models := event_models a;
     connections := connections a; bots := f (bots a);
     result_store := result_store a; spawned := spawned a;
     journal := journal a |}.

Definition set_result_store (f : ResultStore -> ResultStore) (a : Adapter)
  : Adapter :=
  {| driver := driver a; config := config a;
     event_models := event_models a;
     connections := connections a; bots := bots a;
     result_store := f (result_store a); spawned := spawned a;
     journal := journal a |}.

Definition set_spawned (f : list (Bot * Event) -> list (Bot * Event))
  (a : Adapter) : Adapter :=
  {| driver := driver a; config := config a;
     event_models := event_models a;
     connections := connections a; bots := bots a;
     result_store := result_store a; spawned := f (spawned a);
     journal := journal a |}.

Definition set_journal (f : list LogRecord -> list LogRecord) (a : Adapter)
  : Adapter :=
  {| driver := driver a; config := config a;
     event_models := event_models a;
     connections := connections a; bots := bots a;
     result_store := result_store a; spawned := spawned a;
     journal := f (journal a) |}.

(** ** Synchronous code: state and exceptions *)

Definition Sync (A : Type) : Type := Adapter -> Adapter * (exn + A).

Definition ret {A} (a : A) : Sync A := fun self => (self, inr a).

Definition raise {A} (e : exn) : Sync A := fun self => (self, inl e).

Definition bind {A B} (m : Sync A) (k : A -> Sync B) : Sync B :=
  fun self =>
    match m self with
    | (self', inr a) => k a self'
    | (self', inl e) => (self', inl e)
    end.

(** [try: body except Exception as e: handler(e)] *)
Definition try_except {A} (body : Sync A) (handler : exn -> Sync A) : Sync A :=
  fun self =>
    match body self with
    | (self', inr a) => (self', inr a)
    | (self', inl e) => handler e self'
    end.

(** The outcome of a call to a collaborator. *)
Definition lift {A} (r : exn + A) : Sync A := fun self => (self, r).

Definition gets {A} (f : Adapter -> A) : Sync A := fun self => (self, inr (f self)).

Definition modify (f : Adapter -> Adapter) : Sync unit :=
  fun self => (f self, inr tt).

(** ** Synchronous code that assigns local variables

    A suite inside a [try] that assigns local variables of the enclosing
    function: the variables go in and come out, whichever way the suite is
    left, so that the handlers and the [finally] suite read what the suite
    has assigned before it raised. *)

Definition Suite (L A : Type) : Type :=
  L -> Adapter -> (L * Adapter) * (exn + A).

Definition bindL {L A B} (m : Suite L A) (k : A -> Suite L B) : Suite L B :=
  fun locals self =>
    match m locals self with
    | (locals', self', inr a) => k a locals' self'
    | (locals', self', inl e) => (locals', self', inl e)
    end.

(** A statement that assigns no local variable. *)
Definition keep {L A} (m : Sync A) : Suite L A :=
  fun locals self =>
    match m self with
    | (self', r) => (locals, self', r)
    end.

(** Reading the local variables, and assigning them. *)
Definition local {L} : Suite L L :=
  fun locals self => (locals, self, inr locals).

Definition assign {L} (locals' : L) : Suite L unit :=
  fun _ self => (locals', self, inr tt).

(** The suite as a statement of the enclosing function, which goes on
    with the local variables and the outcome. *)
Definition leave {L A} (m : Suite L A) (locals : L) : Sync (L * (exn + A)) :=
  fun self =>
    match m locals self with
    | (locals', self', r) => (self', inr (locals', r))
    end.

End AdapterState.

Declare Scope sync_scope.
Delimit Scope sync_scope with sync.
Notation "x <- m ;; k" := (bind m (fun x => k))
  (at level 100, m at next level, k at level 200, right associativity)
  : sync_scope.
Notation "m ;; k" := (bind m (fun _ => k))
  (at level 100, k at level 200, right associativity) : sync_scope.

Declare Scope suite_scope.
Delimit Scope suite_scope with suite.
Notation "x <- m ;; k" := (bindL m (fun x => k))
  (at level 100, m at next level, k at level 200, right associativity)
  : suite_scope.
Notation "m ;; k" := (bindL m (fun _ => k))
  (at level 100, k at level 200, right associativity) : suite_scope.

Section AdapterMethods.
Context `{RT : Runtime}.
#[local] Open Scope sync_scope.

(** Modelled from the spec: [utils.log(level, message, exception)], which
    is not in [adapter.py]; a diagnostic is written and nothing else
    happens. *)
Definition log (lvl msg : string) (e : option exn) : Sync unit :=
  modify (set_journal (fun j =>
    (j ++ [{| level := lvl; message := msg; exception := e |}])%list)).

(** [BaseAdapter.bot_connect], [BaseAdapter.bot_disconnect] of nonebot: the
    bot enters, respectively leaves, the table of the driver and the table
    [self.bots] under its [self_id].  The driver refuses an identity that
    its table holds already: [Driver._bot_connect] raises [RuntimeError]
    before anything is written.  With this adapter alone on the driver the
    two tables hold the same bots, and [self.bots] stands for both. *)
Definition bot_connect (bot : Bot) : Sync unit :=
  known <- gets (fun self => bool_decide (is_Some (bots self !! self_id bot))) ;;
  if known : bool then
    raise (Raised "RuntimeError"
             ("Duplicate bot connection with id " ++ self_id bot))
  else modify (set_bots (fun b => <[self_id bot := bot]> b)).

Definition bot_disconnect (bot : Bot) : Sync unit :=
  modify (set_bots (fun b => delete (self_id bot) b)).

(** [ResultStore.get_seq()] *)
Definition get_seq : Sync Z :=
  fun self =>
    let (seq, store) := ResultStore_get_seq (result_store self) in
    (set_result_store (fun _ => store) self, inr seq).

(** [ResultStore.add_result(self_id, result)] *)
Definition add_result (self_id : string) (result : json) : Sync unit :=
  fun self =>
    let (store, outcome) :=
      ResultStore_add_result self_id result (result_store self) in
    (set_result_store (fun _ => store) self, outcome).

(** [asyncio.create_task(bot.handle_event(event))] *)
Definition create_task_handle_event (bot : Bot) (event : Event) : Sync unit :=
  modify (set_spawned (fun l => (l ++ [(bot, event)])%list)).

(** *** The event model registry *)

(** The class body, lines 37-42: every event class of the module [event] is
    stored under ["." + model.__event__]. *)
Definition init_event_models : StringTrie Model :=
  fold_left (fun t model => trie_setitem ("." ++ __event__ model) model t)
            dir_event ∅.

Definition add_custom_model (model : Model) : Sync unit :=
  if String.eqb (__event__ model) "" then
    raise (ValueError "Event model's `__event__` attribute must be set")
  else
    modify (set_event_models (trie_setitem ("." ++ __event__ model) model)).

(** [get_event_model]; [cls_event_models] is [cls.event_models]. *)
Definition get_event_model (cls_event_models : StringTrie Model)
  (event_name : string) : list Model :=
  List.rev (List.map snd (prefixes ("." ++ event_name) cls_event_models)).

(** [__init__], lines 45-50: both tables empty.  [event_models] is the
    class attribute as the class body has left it, [store] the state of
    [ResultStore] at that moment. *)
Definition init (d : Driver) (c : Config) (store : ResultStore) : Adapter :=
  {| driver := d; config := c;
     event_models := init_event_models;
     connections := ∅; bots := ∅;
     result_store := store;
     spawned := []; journal := [] |}.

(** *** Parsing a payload *)

(** [value = d.get(key); f".{value}" if value else ""] *)
Definition qualifier (value : option json) : string :=
  match value with
  | Some v => if truthy v then "." ++ format_value v else ""
  | None => ""
  end.

(** Lines 360-365: the name handed to [get_event_model]. *)
Definition event_name_of (d : list (string * json)) (post_type : json)
  : exn + string :=
  let detail_type := qualifier (dict_get (format_value post_type ++ "_type") d) in
  let sub_type := qualifier (dict_get "sub_type" d) in
  match py_add_str post_type detail_type with
  | inr s => inr (s ++ sub_type)
  | inl e => inl e
  end.

(** Lines 366-373: the [for ... else] over the candidate models. *)
Fixpoint parse_models (models : list Model) (json_data : json) : Sync Event :=
  match models with
  | model :: rest =>
      match parse_obj model json_data with
      | inr event => ret event
      | inl e =>
          log "DEBUG" "Event Parser Error" (Some e) ;;
          parse_models rest json_data
      end
  | [] => lift (parse_obj EventBase json_data)
  end.

(** [json_to_event]; the test of line 354 and the subscript of line 360 are
    one lookup of [post_type].  The call of line 356 is outside the [try]:
    what [add_result] raises leaves [json_to_event]. *)
Definition json_to_event (json_data : json) (self_id : option string)
  : Sync (option Event) :=
  match json_data with
  | JDict d =>
      match dict_get "post_type" d with
      | None =>
          match self_id with
          | Some id =>
              add_result id json_data ;;
              ret None
          | None => ret None
          end
      | Some post_type =>
          try_except
            (event_name <- lift (event_name_of d post_type) ;;
             models <- gets (fun cls => get_event_model (event_models cls) event_name) ;;
             event <- parse_models models json_data ;;
             ret (Some event))
            (fun e =>
               log "ERROR"
                 ("<r><bg #f8bbd0>Failed to parse event. Raw: "
                    ++ escape_tag (py_str json_data) ++ "</bg #f8bbd0></r>")
                 (Some e) ;;
               ret None)
      end
  | _ => ret None
  end.

(** *** Authentication of an inbound request *)

(** [a != b] for two optional strings, as [negb (opt_str_eqb a b)] *)
Definition opt_str_eqb (a b : option string) : bool :=
  match a, b with
  | Some x, Some y => String.eqb x y
  | None, None => true
  | _, _ => false
  end.

Definition _check_signature (request : Request) : Sync (option Response) :=
  let x_signature := headers request !! "x-signature" in
  secret <- gets (fun self => onebot_secret (config self)) ;;
  if str_truthy secret then
    if negb (str_truthy x_signature) then
      log "WARNING" "Missing Signature Header" None ;;
      ret (Some {| status_code := 401;
                   response_content := Some "Missing Signature" |})
    else
      match content request with
      | None =>
          ret (Some {| status_code := 400;
                       response_content := Some "Missing Content" |})
      | Some body =>
          let sig := hmac_sha1_hexdigest (default "" secret) body in
          if negb (opt_str_eqb x_signature (Some ("sha1=" ++ sig))) then
            log "WARNING" "Signature Header is invalid" None ;;
            ret (Some {| status_code := 403;
                         response_content := Some "Signature is invalid" |})
          else ret None
      end
  else ret None.

Definition _check_access_token (request : Request) : Sync (option Response) :=
  let token := get_auth_bearer (headers request !! "authorization") in
  access_token <- gets (fun self => onebot_access_token (config self)) ;;
  if str_truthy access_token && negb (opt_str_eqb access_token token) then
    let msg := if str_truthy token then "Authorization Header is invalid"
               else "Missing Authorization Header" in
    log "WARNING" msg None ;;
    ret (Some {| status_code := 403; response_content := Some msg |})
  else ret None.

(** *** The webhook handler *)

Definition _handle_http (request : Request) : Sync Response :=
  let self_id := headers request !! "x-self-id" in
  if negb (str_truthy self_id) then
    log "WARNING" "Missing X-Self-ID Header" None ;;
    ret {| status_code := 400;
           response_content := Some "Missing X-Self-ID Header" |}
  else
    let self_id := default "" self_id in
    response <- _check_signature request ;;
    match response with
    | Some response => ret response
    | None =>
        response <- _check_access_token request ;;
        match response with
        | Some response => ret response
        | None =>
            match content request with
            | Some data =>
                json_data <- lift (json_loads data) ;;
                event <- json_to_event json_data None ;;
                match event with
                | Some event =>
                    bot <- gets (fun self => bots self !! self_id) ;;
                    bot <- match bot with
                           | Some bot => ret bot
                           | None =>
                               let bot := {| self_id := self_id |} in
                               bot_connect bot ;;
                               log "INFO"
                                 ("<y>Bot " ++ escape_tag self_id
                                    ++ "</y> connected") None ;;
                               ret bot
                           end ;;
                    create_task_handle_event bot event
                | None => ret tt
                end
            | None => ret tt
            end ;;
            ret {| status_code := 204; response_content := None |}
        end
    end.

End AdapterMethods.

(** ** Coroutines *)

(** What the adapter awaits.  Each awaitable answers with its value or with
    the exception it raised; [asyncio.sleep] only ever returns.
    Cancellation is the event loop never resuming the coroutine. *)
Variant awaitable : Type -> Type :=
| websocket_connect (request : Request) : awaitable (exn + WebSocket)
| websocket_accept (ws : WebSocket) : awaitable (exn + unit)
| websocket_receive (ws : WebSocket) : awaitable (exn + string)
| websocket_send (ws : WebSocket) (data : string) : awaitable (exn + unit)
| websocket_close (ws : WebSocket) (code : Z) (reason : string)
  : awaitable (exn + unit)
| driver_request (request : Request) : awaitable (exn + Response)
| ResultStore_fetch (self_id : string) (seq : Z) (timeout : option Q)
  : awaitable (exn + json)
| asyncio_sleep (delay : Q) : awaitable unit.

Section Coroutines.
Context `{RT : Runtime}.

(** The one visible event: the coroutine suspends on [a] and leaves the
    adapter as [self]; it is resumed with the adapter as the other
    coroutines have left it and with the answer. *)
Variant asyncE : Type -> Type :=
| Await {R} (self : Adapter) (a : awaitable R) : asyncE (Adapter * R).

Definition Task (A : Type) : Type :=
  Adapter -> itree asyncE (Adapter * (exn + A)).

Definition sync {A} (m : Sync A) : Task A :=
  fun self => Ret (m self).

Definition await {A} (a : awaitable (exn + A)) : Task A :=
  fun self => Vis (Await self a) (fun r => Ret r).

(** [await asyncio.sleep(delay)] *)
Definition sleep (delay : Q) : Task unit :=
  fun self =>
    Vis (Await self (asyncio_sleep delay)) (fun r => Ret (fst r, inr (snd r))).

Definition bindT {A B} (m : Task A) (k : A -> Task B) : Task B :=
  fun self =>
    ITree.bind (m self) (fun r =>
      match r with
      | (self', inr a) => k a self'
      | (self', inl e) => Ret (self', inl e)
      end).

(** [try: body except Exception as e: handler(e)] *)
Definition try_exceptT {A} (body : Task A) (handler : exn -> Task A) : Task A :=
  fun self =>
    ITree.bind (body self) (fun r =>
      match r with
      | (self', inr a) => Ret (self', inr a)
      | (self', inl e) => handler e self'
      end).

(** [try: body finally: cleanup] *)
Definition try_finallyT {A} (body : Task A) (cleanup : Task unit) : Task A :=
  fun self =>
    ITree.bind (body self) (fun r =>
      ITree.bind (cleanup (fst r)) (fun c =>
        match c with
        | (self'', inr _) => Ret (self'', snd r)
        | (self'', inl e) => Ret (self'', inl e)
        end)).

(** [try: body except Exception: pass] with the outcome kept *)
Definition attempt {A} (body : Task A) : Task (exn + A) :=
  fun self =>
    ITree.bind (body self) (fun r => Ret (fst r, inr (snd r))).

(** [while True: body], with the local variables of the enclosing function
    that the body assigns as [locals].  The body answers [inl locals] to go
    round again ([continue], or the end of the suite) and [inr a] to leave
    ([break]); an exception leaves the loop as well. *)
Definition while_True {L A} (body : L -> Task (L + A)) (locals : L) : Task A :=
  fun self =>
    ITree.iter (fun st : L * Adapter =>
      ITree.bind (body (fst st) (snd st)) (fun r =>
        match r with
        | (self', inr (inl locals')) => Ret (inl (locals', self'))
        | (self', inr (inr a)) => Ret (inr (self', inr a))
        | (self', inl e) => Ret (inr (self', inl e))
        end)) (locals, self).

End Coroutines.

Declare Scope task_scope.
Delimit Scope task_scope with task.
Notation "x <- m ;; k" := (bindT m (fun x => k))
  (at level 100, m at next level, k at level 200, right associativity)
  : task_scope.
Notation "m ;; k" := (bindT m (fun _ => k))
  (at level 100, k at level 200, right associativity) : task_scope.

Section AsyncMethods.
Context `{RT : Runtime}.
#[local] Open Scope task_scope.

(** *** API dispatch *)

(** Lines 131-134: [except NetworkError: raise] and
    [except Exception as e: raise NetworkError("HTTP request failed")]. *)
Definition reraise_as_NetworkError {A} (e : exn) : Task A :=
  if is_NetworkError e then sync (raise e)
  else sync (raise (NetworkError "HTTP request failed")).

Definition _call_api (bot : Bot) (api : string) (data : json) : Task json :=
  websocket <- sync (gets (fun self => connections self !! self_id bot)) ;;
  sync (log "DEBUG" ("Calling API <y>" ++ api ++ "</y>") None) ;;
  match websocket with
  | Some websocket =>
      seq <- sync get_seq ;;
      let json_data :=
        json_dumps (JDict [("action", JString api); ("params", data);
                           ("echo", JDict [("seq", JInt seq)])]) in
      await (websocket_send websocket json_data) ;;
      api_timeout <- sync (gets (fun self => api_timeout (config self))) ;;
      result <- await (ResultStore_fetch (self_id bot) seq api_timeout) ;;
      sync (lift (_handle_api_result result))
  | None =>
      forward <- sync (gets (fun self => is_ForwardDriver (driver self))) ;;
      if forward then
        api_root <- sync (gets (fun self => api_root (config self) !! self_id bot)) ;;
        if negb (str_truthy api_root) then sync (raise ApiNotAvailable)
        else
          let api_root := default "" api_root in
          let api_root := if negb (endswith api_root "/") then api_root ++ "/"
                          else api_root in
          access_token <- sync (gets (fun self => onebot_access_token (config self))) ;;
          let headers : gmap string string :=
            match access_token with
            | Some token =>
                <["Authorization" := "Bearer " ++ token]>
                  {["Content-Type" := "application/json"]}
            | None => {["Content-Type" := "application/json"]}
            end in
          api_timeout <- sync (gets (fun self => api_timeout (config self))) ;;
          request <- sync (lift (new_Request "POST" (api_root ++ api) headers
                                   (Some (json_dumps data)) api_timeout)) ;;
          try_exceptT
            (response <- await (driver_request request) ;;
             if (200 <=? status_code response) && (status_code response <? 300)
             then
               if negb (str_truthy (response_content response)) then
                 sync (raise (ValueError "Empty response"))
               else
                 result <- sync (lift (json_loads
                                         (default "" (response_content response)))) ;;
                 sync (lift (_handle_api_result result))
             else
               sync (raise (NetworkError
                              ("HTTP request received unexpected status code: "
                                 ++ pretty (status_code response)))))
            reraise_as_NetworkError
      else sync (raise ApiNotAvailable)
  end.

(** *** The reverse WebSocket handler *)

(** Lines 200-203: what [_handle_ws] does with a received frame. *)
Definition _handle_ws_dispatch (bot : Bot) (data : string) : Sync unit :=
  (json_data <- lift (json_loads data) ;;
   event <- json_to_event json_data None ;;
   match event with
   | Some event => create_task_handle_event bot event
   | None => ret tt
   end)%sync.

(** Lines 198-203: one round of the receive loop of [_handle_ws]. *)
Definition _handle_ws_receive (websocket : WebSocket) (bot : Bot)
  : Task (unit + Empty_set) :=
  data <- await (websocket_receive websocket) ;;
  sync (_handle_ws_dispatch bot data) ;;
  sync (ret (inl tt)).

Definition _handle_ws (websocket : WebSocket) : Task unit :=
  let self_id := headers (request websocket) !! "x-self-id" in
  if negb (str_truthy self_id) then
    sync (log "WARNING" "Missing X-Self-ID Header" None) ;;
    await (websocket_close websocket 1008 "Missing X-Self-ID Header")
  else
    let self_id := default "" self_id in
    known <- sync (gets (fun self => bool_decide (is_Some (bots self !! self_id)))) ;;
    if known : bool then
      sync (log "WARNING" ("There's already a bot " ++ self_id ++ ", ignored") None) ;;
      await (websocket_close websocket 1008 "Duplicate X-Self-ID")
    else
      response <- sync (_check_access_token (request websocket)) ;;
      match response with
      | Some response =>
          await (websocket_close websocket 1008
                   (default "" (response_content response)))
      | None =>
          await (websocket_accept websocket) ;;
          (* lines 191-195 are outside the [try] of line 197 *)
          let bot := {| self_id := self_id |} in
          sync (modify (set_connections (fun c => <[self_id := websocket]> c))) ;;
          sync (bot_connect bot) ;;
          sync (log "INFO" ("<y>Bot " ++ escape_tag self_id ++ "</y> connected") None) ;;
          try_finallyT
            (try_exceptT
               (never <- while_True (fun _ : unit => _handle_ws_receive websocket bot) tt ;;
                match never : Empty_set with end)
               (fun e =>
                  sync (log "ERROR"
                          ("<r><bg #f8bbd0>Error while process data from websocket"
                             ++ "for bot " ++ escape_tag self_id ++ ".</bg #f8bbd0></r>")
                          (Some e))))
            (attempt (await (websocket_close websocket 1000 "")) ;;
             sync (modify (set_connections (fun c => delete self_id c))) ;;
             sync (bot_disconnect bot))
      end.

(** *** The forward WebSocket link *)

(** Lines 308-326: what [_forward_ws] does with a received frame, a suite
    over the local variable [bot].  Both [continue] and the end of the
    suite lead to the next round.  Line 319 assigns [bot] before lines 320
    and 321 run. *)
Definition _forward_ws_dispatch (ws : WebSocket) (data : string)
  : Suite (option Bot) unit :=
  (json_data <- keep (lift (json_loads data)) ;;
   bot <- local ;;
   event <- keep (json_to_event json_data (self_id <$> bot)) ;;
   match event with
   | None => keep (ret tt)
   | Some event =>
       match bot with
       | None =>
           if negb (isinstance_LifecycleMetaEvent event)
              || negb (String.eqb (event_sub_type event) "connect")
           then keep (ret tt)
           else
             let self_id := pretty (event_self_id event) in
             let bot := {| self_id := self_id |} in
             assign (Some bot) ;;
             keep (modify (set_connections (fun c => <[self_id := ws]> c))) ;;
             keep (bot_connect bot) ;;
             keep (log "INFO" ("<y>Bot " ++ escape_tag self_id ++ "</y> connected")
                     None) ;;
             keep (create_task_handle_event bot event)
       | Some bot => keep (create_task_handle_event bot event)
       end
   end)%suite.

(** Lines 306-334: one round of the inner loop of [_forward_ws]; [inr] is
    the [break] of the exception handler, which leaves the loop with the
    local variable [bot] as the suite of the [try] has left it. *)
Definition _forward_ws_receive (url : string) (ws : WebSocket)
  (bot : option Bot) : Task (option Bot + option Bot) :=
  r <- attempt (await (websocket_receive ws)) ;;
  r <- match r with
       | inr data => sync (leave (_forward_ws_dispatch ws data) bot)
       | inl e => sync (ret (bot, inl e))
       end ;;
  match r with
  | (bot, inr _) => sync (ret (inl bot))
  | (bot, inl e) =>
      sync (log "ERROR"
              ("<r><bg #f8bbd0>Error while process data from websocket"
                 ++ escape_tag url ++ ". Trying to reconnect...</bg #f8bbd0></r>")
              (Some e)) ;;
      sync (ret (inr bot))
  end.

(** Lines 335-343: the [finally] suite of [_forward_ws]; it leaves the
    local variable [bot] at [None]. *)
Definition _forward_ws_finally (ws : WebSocket) (bot : option Bot)
  : Task (option Bot) :=
  attempt (await (websocket_close ws 1000 "")) ;;
  match bot with
  | Some b =>
      sync (modify (set_connections (fun c => delete (self_id b) c))) ;;
      sync (bot_disconnect b) ;;
      sync (ret None)
  | None => sync (ret bot)
  end.

(** Lines 303-345: what follows a successful connect, up to and including
    the sleep before the next attempt.  Every exception of the inner loop is
    caught inside it, so the [finally] suite is reached through [break]. *)
Definition _forward_ws_connected (url : string) (ws : WebSocket)
  (bot : option Bot) : Task (option Bot) :=
  sync (log "DEBUG" ("WebSocket Connection to " ++ escape_tag url ++ " established")
          None) ;;
  bot <- while_True (_forward_ws_receive url ws) bot ;;
  bot <- _forward_ws_finally ws bot ;;
  sleep RECONNECT_INTERVAL ;;
  sync (ret bot).

(** Lines 290-345: one round of the outer loop. *)
Definition _forward_ws_attempt (url : string) (request : Request)
  (bot : option Bot) : Task (option Bot + Empty_set) :=
  r <- attempt (await (websocket_connect request)) ;;
  match r with
  | inl e =>
      sync (log "ERROR"
              ("<r><bg #f8bbd0>Error while setup websocket to "
                 ++ escape_tag url ++ ". Trying to reconnect...</bg #f8bbd0></r>")
              (Some e)) ;;
      sleep RECONNECT_INTERVAL ;;
      sync (ret (inl bot))
  | inr ws =>
      bot <- _forward_ws_connected url ws bot ;;
      sync (ret (inl bot))
  end.

(** Lines 281-286.  [url] is a [URL] already, which the constructor
    [Request] takes as it is. *)
Definition _forward_ws_request (url : string) : Task Request :=
  access_token <- sync (gets (fun self => onebot_access_token (config self))) ;;
  let headers : gmap string string :=
    if str_truthy access_token
    then {["Authorization" := "Bearer " ++ default "" access_token]}
    else ∅ in
  sync (ret {| method := "GET"; url := url; headers := headers;
               content := None; timeout := None |}).

Definition _forward_ws (url : string) : Task Empty_set :=
  request <- _forward_ws_request url ;;
  while_True (_forward_ws_attempt url request) None.

End AsyncMethods.

(** *** Starting the forward links *)

Section Startup.
Context `{RT : Runtime}.
#[local] Open Scope sync_scope.

(** Lines 261-271: the loop of [start_forward] over the configured URLs.
    [URL] is the constructor of [yarl], which raises on what is no URL,
    followed by [str].  [tasks] is [self.tasks]; a task is known by the URL
    that its coroutine [_forward_ws] was given. *)
Fixpoint start_forward_loop (URL : string -> exn + string)
  (urls : list string) (tasks : list string) : Sync (list string) :=
  match urls with
  | [] => ret tasks
  | url :: urls' =>
      tasks <- try_except
                 (ws_url <- lift (URL url) ;;
                  ret (tasks ++ [ws_url])%list)
                 (fun e =>
                    log "ERROR"
                      ("<r><bg #f8bbd0>Bad url " ++ escape_tag url
                         ++ " in onebot forward websocket config</bg #f8bbd0></r>")
                      (Some e) ;;
                    ret tasks) ;;
      start_forward_loop URL urls' tasks
  end.

(** [start_forward]: an [async def] that awaits nothing, so it runs to its
    end without being suspended. *)
Definition start_forward (URL : string -> exn + string) (tasks : list string)
  : Sync (list string) :=
  urls <- gets (fun self => onebot_ws_urls (config self)) ;;
  start_forward_loop URL urls tasks.

End Startup.

(** * The vocabulary of the properties *)

Section Vocabulary.
Context `{RT : Runtime}.

(** The model registered for the dotted path [p]. *)
Definition registered (t : StringTrie Model) (p : string) (model : Model)
  : Prop :=
  t !! _path_from_key ("." ++ p) = Some model.

(** The text of a payload value: a string stands for itself, any other
    value is written as [str] writes it. *)
Definition text_of (v : json) : string :=
  match v with
  | JString s => s
  | JNull | JBool _ | JInt _ | JFloat _ | JList _ | JDict _ => py_str v
  end.

(** The values that count as empty: [null], [false], a zero, and a string,
    a list or an object with nothing in it. *)
Definition is_empty (v : json) : bool :=
  match v with
  | JNull | JBool false | JInt 0 | JFloat (S754_zero _)
  | JString "" | JList [] | JDict [] => true
  | _ => false
  end.

(** The classification path in the words of the specification:
    [primaryType[.detailType][.subType]], a qualifier and its dot left out
    when the field is absent or empty. *)
Definition classification_path (primary_type : string)
  (detail_type sub_type : option json) : string :=
  let segment (field : option json) :=
    match field with
    | None => ""
    | Some v => if is_empty v then "" else "." ++ text_of v
    end in
  primary_type ++ segment detail_type ++ segment sub_type.

(** The record that [json_to_event] writes when parsing fails. *)
Definition parse_failure (json_data : json) (e : exn) : LogRecord :=
  {| level := "ERROR";
     message := "<r><bg #f8bbd0>Failed to parse event. Raw: "
                  ++ escape_tag (py_str json_data) ++ "</bg #f8bbd0></r>";
     exception := Some e |}.

(** [x_signature == "sha1=" + sig] for the body of the request, if any. *)
Definition signature_matches (self : Adapter) (request : Request) : bool :=
  match content request with
  | Some body =>
      opt_str_eqb (headers request !! "x-signature")
        (Some ("sha1=" ++ hmac_sha1_hexdigest
                            (default "" (onebot_secret (config self))) body))
  | None => false
  end.

(** The status table of the webhook interface, read as a cascade: identity
    header, then (with a secret configured) signature header, body and
    signature, then (with a token configured) the bearer token. *)
Definition webhook_status (self : Adapter) (request : Request) : Z :=
  let secret := onebot_secret (config self) in
  let access_token := onebot_access_token (config self) in
  let token := get_auth_bearer (headers request !! "authorization") in
  if negb (str_truthy (headers request !! "x-self-id")) then 400
  else if str_truthy secret && negb (str_truthy (headers request !! "x-signature"))
  then 401
  else if str_truthy secret && negb (bool_decide (is_Some (content request)))
  then 400
  else if str_truthy secret && negb (signature_matches self request) then 403
  else if str_truthy access_token && negb (opt_str_eqb access_token token)
  then 403
  else 204.

(** The record of line 86. *)
Definition calling_api (api : string) (self : Adapter) : Adapter :=
  set_journal (fun j =>
    (j ++ [{| level := "DEBUG"; message := "Calling API <y>" ++ api ++ "</y>";
              exception := None |}])%list) self.

(** The address of the HTTP fallback, lines 99-103 and 113: the root of the
    identity, a slash unless the root ends with one, and the name of the
    API. *)
Definition http_api_url (self : Adapter) (bot : Bot) (api : string) : string :=
  let root := default "" (api_root (config self) !! self_id bot) in
  (if negb (endswith root "/") then root ++ "/" else root) ++ api.

(** The request of the HTTP fallback, lines 105-117, with [url] for what
    the constructor has made of the address. *)
Definition http_api_request (self : Adapter) (data : json) (url : string)
  : Request :=
  {| method := "POST";
     url := url;
     headers :=
       match onebot_access_token (config self) with
       | Some token =>
           <["Authorization" := "Bearer " ++ token]>
             {["Content-Type" := "application/json"]}
       | None => {["Content-Type" := "application/json"]}
       end;
     content := Some (json_dumps data);
     timeout := api_timeout (config self) |}.

(** What the call makes of the answer of [driver.request], lines 119-134. *)
Definition http_api_outcome (answer : exn + Response) : exn + json :=
  let guarded (r : exn + json) : exn + json :=
    match r with
    | inr result => inr result
    | inl e => if is_NetworkError e then inl e
               else inl (NetworkError "HTTP request failed")
    end in
  match answer with
  | inl e => guarded (inl e)
  | inr response =>
      if (200 <=? status_code response) && (status_code response <? 300) then
        if negb (str_truthy (response_content response)) then
          guarded (inl (ValueError "Empty response"))
        else
          match json_loads (default "" (response_content response)) with
          | inr result => guarded (_handle_api_result result)
          | inl e => guarded (inl e)
          end
      else
        guarded (inl (NetworkError
                        ("HTTP request received unexpected status code: "
                           ++ pretty (status_code response))))
  end.

(** The record of line 179. *)
Definition duplicate_bot_warning (identity : string) : LogRecord :=
  {| level := "WARNING";
     message := "There's already a bot " ++ identity ++ ", ignored";
     exception := None |}.

(** The exception of [Driver._bot_connect] for an identity that is a bot
    already. *)
Definition duplicate_bot_connection (identity : string) : exn :=
  Raised "RuntimeError" ("Duplicate bot connection with id " ++ identity).

(** Lines 191-195: the adapter once [_handle_ws] has registered the
    socket of [identity]. *)
Definition reverse_connected (identity : string) (websocket : WebSocket)
  (self : Adapter) : Adapter :=
  set_journal (fun j =>
    (j ++ [{| level := "INFO";
              message := "<y>Bot " ++ escape_tag identity ++ "</y> connected";
              exception := None |}])%list)
    (set_bots (fun b => <[identity := {| self_id := identity |}]> b)
       (set_connections (fun c => <[identity := websocket]> c) self)).

(** One resumption of a coroutine: it had left the adapter as [left] when
    it suspended on [a], and finds it as [found] when it is resumed with
    [answer]. *)
Inductive interaction : Type :=
| Resumed {R} (left : Adapter) (a : awaitable R) (found : Adapter) (answer : R).

(** [steps t trace t']: the coroutine [t], resumed as [trace] tells, is the
    coroutine [t'].  The coroutine decides what is awaited, the event loop
    what is answered. *)
Inductive steps {A} : itree asyncE A -> list interaction -> itree asyncE A -> Prop :=
| steps_here t t' :
    t ≈ t' -> steps t [] t'
| steps_await {R} t (left : Adapter) (a : awaitable R) k found answer rest t' :
    t ≈ Vis (Await left a) k ->
    steps (k (found, answer)) rest t' ->
    steps t (Resumed left a found answer :: rest) t'.

(** The records of lines 294-299, 303 and 328-333. *)
Definition connect_failed (url : string) (e : exn) (self : Adapter) : Adapter :=
  set_journal (fun j =>
    (j ++ [{| level := "ERROR";
              message := "<r><bg #f8bbd0>Error while setup websocket to "
                           ++ escape_tag url
                           ++ ". Trying to reconnect...</bg #f8bbd0></r>";
              exception := Some e |}])%list) self.

Definition established (url : string) (self : Adapter) : Adapter :=
  set_journal (fun j =>
    (j ++ [{| level := "DEBUG";
              message := "WebSocket Connection to " ++ escape_tag url
                           ++ " established";
              exception := None |}])%list) self.

Definition receive_failed (url : string) (e : exn) (self : Adapter) : Adapter :=
  set_journal (fun j =>
    (j ++ [{| level := "ERROR";
              message := "<r><bg #f8bbd0>Error while process data from websocket"
                           ++ escape_tag url
                           ++ ". Trying to reconnect...</bg #f8bbd0></r>";
              exception := Some e |}])%list) self.

(** Lines 340-343: the bot of the link, if it had one, leaves both tables. *)
Definition dropped (bot : option Bot) (self : Adapter) : Adapter :=
  match bot with
  | Some b =>
      set_bots (fun t => delete (self_id b) t)
        (set_connections (fun c => delete (self_id b) c) self)
  | None => self
  end.

(** The request of lines 281-286. *)
Definition forward_request (url : string) (self : Adapter) : Request :=
  {| method := "GET"; url := url;
     headers := if str_truthy (onebot_access_token (config self))
                then {["Authorization" :=
                         "Bearer " ++ default "" (onebot_access_token (config self))]}
                else ∅;
     content := None; timeout := None |}.

(** The link at the top of its outer loop, about to connect. *)
Definition forward_link (url : string) (request : Request) (bot : option Bot)
  : Task Empty_set :=
  while_True (_forward_ws_attempt url request) bot.

(** The link about to close its socket, with the rest of its life. *)
Definition forward_link_closing (url : string) (request : Request)
  (ws : WebSocket) (bot : option Bot) : Task Empty_set :=
  (bot <- _forward_ws_finally ws bot ;;
   sleep RECONNECT_INTERVAL ;;
   forward_link url request bot)%task.

(** The link at the top of its inner loop, about to receive. *)
Definition forward_link_receiving (url : string) (request : Request)
  (ws : WebSocket) (bot : option Bot) : Task Empty_set :=
  (bot <- while_True (_forward_ws_receive url ws) bot ;;
   forward_link_closing url request ws bot)%task.

(** A run of failed connects: for each the exception, the adapter as found
    with it, and the adapter as found after the sleep. *)
Fixpoint failed_connects (url : string) (request : Request) (self : Adapter)
  (failures : list (exn * Adapter * Adapter)) : list interaction :=
  match failures with
  | [] => []
  | (e, found, woke) :: failures' =>
      Resumed self (websocket_connect request) found (inl e)
        :: Resumed (connect_failed url e found)
             (asyncio_sleep RECONNECT_INTERVAL) woke tt
        :: failed_connects url request woke failures'
  end.

Fixpoint after_failures (self : Adapter)
  (failures : list (exn * Adapter * Adapter)) : Adapter :=
  match failures with
  | [] => self
  | (_, _, woke) :: failures' => after_failures woke failures'
  end.

(** The four points at which the link of a URL can be found suspended:
    about to connect, asleep before the next connect, about to receive,
    about to close its socket. *)
Inductive link_point (url : string) (request : Request)
  (t : itree asyncE (Adapter * (exn + Empty_set))) : Prop :=
| at_connect bot self :
    t ≈ forward_link url request bot self ->
    link_point url request t
| at_sleep bot self :
    t ≈ Vis (Await self (asyncio_sleep RECONNECT_INTERVAL))
          (fun r => forward_link url request bot (fst r)) ->
    link_point url request t
| at_receive ws bot self :
    t ≈ forward_link_receiving url request ws bot self ->
    link_point url request t
| at_close ws bot self :
    t ≈ forward_link_closing url request ws bot self ->
    link_point url request t.

End Vocabulary.

(** * More vocabulary: effects, sessions, invariants *)

Section MoreVocabulary.
Context `{RT : Runtime}.

(** The registry keeps every model under the path of its own name. *)
Definition well_keyed (t : StringTrie Model) : Prop :=
  forall k model, t !! k = Some model -> k = _path_from_key ("." ++ __event__ model).

(** [sep.join(l)], which undoes [str_split]: the key of a path. *)
Fixpoint str_join (sep : ascii) (l : list string) : string :=
  match l with
  | [] => ""
  | [x] => x
  | x :: l' => x ++ String sep (str_join sep l')
  end.

(** [self'] is [self] with some records more on the log, and nothing else
    changed. *)
Definition logged (self self' : Adapter) : Prop :=
  exists records, self' = set_journal (fun j => (j ++ records)%list) self.

(** Every identity that has a connection is a bot. *)
Definition connections_are_bots (self : Adapter) : Prop :=
  forall identity websocket,
    connections self !! identity = Some websocket ->
    is_Some (bots self !! identity).

(** What a coroutine that was suspended on [e] and is resumed with [x] has
    gone through. *)
Definition resumption {X} (e : asyncE X) : X -> interaction :=
  match e in asyncE X return X -> interaction with
  | Await self a => fun x => Resumed self a (fst x) (snd x)
  end.

(** The adapter a coroutine left when it suspended, and the one it found
    when it was resumed. *)
Definition left_by (i : interaction) : Adapter :=
  match i with Resumed self _ _ _ => self end.

Definition found_by (i : interaction) : Adapter :=
  match i with Resumed _ _ found _ => found end.

(** The answer of an interaction, by the kind of thing awaited. *)
Variant outcome : Type :=
| connect_outcome (r : exn + WebSocket)
| accept_outcome (r : exn + unit)
| receive_outcome (r : exn + string)
| send_outcome (r : exn + unit)
| close_outcome (r : exn + unit)
| request_outcome (r : exn + Response)
| fetch_outcome (r : exn + json)
| sleep_outcome.

Definition outcome_of (i : interaction) : outcome :=
  match i with
  | Resumed _ a _ answer =>
      match a in awaitable R return R -> outcome with
      | websocket_connect _ => connect_outcome
      | websocket_accept _ => accept_outcome
      | websocket_receive _ => receive_outcome
      | websocket_send _ _ => send_outcome
      | websocket_close _ _ _ => close_outcome
      | driver_request _ => request_outcome
      | ResultStore_fetch _ _ _ => fetch_outcome
      | asyncio_sleep _ => fun _ => sleep_outcome
      end answer
  end.

(** The four points of a link, with what is known there: [idle] of the
    local variable [bot] while the link has no socket, [state] of the
    adapter as the link has left it. *)
Inductive link_point_where (idle : option Bot -> Prop) (state : Adapter -> Prop)
  (url : string) (request : Request)
  (t : itree asyncE (Adapter * (exn + Empty_set))) : Prop :=
| where_connect bot self :
    idle bot -> state self ->
    t ≈ forward_link url request bot self ->
    link_point_where idle state url request t
| where_sleep bot self :
    idle bot -> state self ->
    t ≈ Vis (Await self (asyncio_sleep RECONNECT_INTERVAL))
          (fun r => forward_link url request bot (fst r)) ->
    link_point_where idle state url request t
| where_receive ws bot self :
    state self ->
    t ≈ forward_link_receiving url request ws bot self ->
    link_point_where idle state url request t
| where_close ws bot self :
    state self ->
    t ≈ forward_link_closing url request ws bot self ->
    link_point_where idle state url request t.

(** The record of lines 205-210. *)
Definition session_failed (identity : string) (e : exn) (self : Adapter)
  : Adapter :=
  set_journal (fun j =>
    (j ++ [{| level := "ERROR";
              message := "<r><bg #f8bbd0>Error while process data from websocket"
                           ++ "for bot " ++ escape_tag identity
                           ++ ".</bg #f8bbd0></r>";
              exception := Some e |}])%list) self.

(** Lines 197-217: the session of an accepted reverse WebSocket, from the
    top of its receive loop. *)
Definition reverse_session (websocket : WebSocket) (identity : string)
  : Task unit :=
  let bot := {| self_id := identity |} in
  try_finallyT
    (try_exceptT
       (never <- while_True (fun _ : unit => _handle_ws_receive websocket bot) tt ;;
        match never : Empty_set with end)%task
       (fun e =>
          sync (log "ERROR"
                  ("<r><bg #f8bbd0>Error while process data from websocket"
                     ++ "for bot " ++ escape_tag identity ++ ".</bg #f8bbd0></r>")
                  (Some e))))
    (attempt (await (websocket_close websocket 1000 "")) ;;
     sync (modify (set_connections (fun c => delete identity c))) ;;
     sync (bot_disconnect bot))%task.

(** Lines 211-217: the [finally] suite of the session. *)
Definition reverse_session_closing (websocket : WebSocket) (identity : string)
  : Task unit :=
  (attempt (await (websocket_close websocket 1000 "")) ;;
   sync (modify (set_connections (fun c => delete identity c))) ;;
   sync (bot_disconnect {| self_id := identity |}))%task.


(** The handler of a reverse WebSocket once [accept] has answered, lines
    190-217: the exception of [accept] leaves the handler; so does the
    exception of [bot_connect], after the connection table is written,
    when the identity is a bot by then; otherwise the session begins. *)
Definition reverse_accepted (websocket : WebSocket) (identity : string)
  (r : Adapter * (exn + unit))
  : itree asyncE (Adapter * (exn + unit)) :=
  match snd r with
  | inl e => Ret (fst r, inl e)
  | inr _ =>
      match bots (fst r) !! identity with
      | Some _ =>
          Ret (set_connections (fun c => <[identity := websocket]> c) (fst r),
               inl (duplicate_bot_connection identity))
      | None =>
          reverse_session websocket identity
            (reverse_connected identity websocket (fst r))
      end
  end.

(** The points of the handler of a reverse WebSocket, with what is known
    of the adapter as the handler has left it: about to refuse the
    handshake, about to accept it, in its session, returned. *)
Inductive handler_point_where (state : Adapter -> Prop) (websocket : WebSocket)
  (t : itree asyncE (Adapter * (exn + unit))) : Prop :=
| where_refusing reason self :
    state self ->
    t ≈ await (websocket_close websocket 1008 reason) self ->
    handler_point_where state websocket t
| where_accepting identity self :
    state self ->
    t ≈ Vis (Await self (websocket_accept websocket))
          (reverse_accepted websocket identity) ->
    handler_point_where state websocket t
| where_session identity self :
    state self ->
    t ≈ reverse_session websocket identity self ->
    handler_point_where state websocket t
| where_closing identity self :
    state self ->
    t ≈ reverse_session_closing websocket identity self ->
    handler_point_where state websocket t
| where_returned self r :
    state self ->
    t ≈ Ret (self, r) ->
    handler_point_where state websocket t.

(** The interaction is the closing of the socket [ws]. *)
Definition closes (ws : WebSocket) (i : interaction) : Prop :=
  exists self code reason found answer,
    i = Resumed self (websocket_close ws code reason) found answer.

(** [self'] agrees with [self] on everything but the log and the result
    store. *)
Definition same_but_log_and_results (self self' : Adapter) : Prop :=
  driver self' = driver self /\ config self' = config self /\
  event_models self' = event_models self /\
  connections self' = connections self /\ bots self' = bots self /\
  spawned self' = spawned self.

(** The points of an API call, with what is known of the adapter as the
    call has left it: about to send its frame, at its last await (the
    fetch of the result, or the HTTP request), returned. *)
Inductive call_point_where (state : Adapter -> Prop)
  (t : itree asyncE (Adapter * (exn + json))) : Prop :=
| where_sending self websocket data identity seq :
    state self ->
    t ≈ Vis (Await self (websocket_send websocket data)) (fun sent =>
          match snd sent with
          | inl e => Ret (fst sent, inl e)
          | inr _ =>
              Vis (Await (fst sent)
                     (ResultStore_fetch identity seq
                        (api_timeout (config (fst sent)))))
                (fun fetched =>
                   Ret (fst fetched,
                        match snd fetched with
                        | inl e => inl e
                        | inr result => _handle_api_result result
                        end))
          end) ->
    call_point_where state t
| where_last_await {R} self (a : awaitable R) (outcome : R -> exn + json) :
    state self ->
    t ≈ Vis (Await self a) (fun r => Ret (fst r, outcome (snd r))) ->
    call_point_where state t
| where_call_returned self r :
    state self ->
    t ≈ Ret (self, r) ->
    call_point_where state t.

(** The record of lines 266-271. *)
Definition bad_url (url : string) (e : exn) : LogRecord :=
  {| level := "ERROR";
     message := "<r><bg #f8bbd0>Bad url " ++ escape_tag url
                  ++ " in onebot forward websocket config</bg #f8bbd0></r>";
     exception := Some e |}.

End MoreVocabulary.

(** ** A small runtime to run the adapter on *)

Module Scenario.

(** An event class is known by its [__event__]; an event keeps its class
    and the payload it was made from.  The base class takes any dict with
    an integer [self_id]; another class wants in addition a [post_type]
    that is the first segment of its [__event__]. *)
Definition validate (model : string) (json_data : json)
  : exn + (string * json) :=
  match json_data with
  | JDict d =>
      match dict_get "self_id" d with
      | Some (JInt _) =>
          if String.eqb model "" then inr (model, json_data)
          else
            match dict_get "post_type" d with
            | Some (JString p) =>
                if String.eqb p (hd "" (str_split "." model))
                then inr (model, json_data)
                else inl (Raised "ValidationError" "post_type")
            | _ => inl (Raised "ValidationError" "post_type")
            end
      | _ => inl (Raised "ValidationError" "self_id")
      end
  | _ => inl (Raised "ValidationError" "value is not a valid dict")
  end.

Definition field (name : string) (event : string * json) : option json :=
  match snd event with
  | JDict d => dict_get name d
  | _ => None
  end.

(** The frames the peer of the scenarios sends. *)
Definition lifecycle_connect : json :=
  JDict [("time", JInt 1700000000);
         ("self_id", JInt 123);
         ("post_type", JString "meta_event");
         ("meta_event_type", JString "lifecycle");
         ("sub_type", JString "connect")].

Definition private_message : json :=
  JDict [("post_type", JString "message");
         ("message_type", JString "private");
         ("sub_type", JString "friend");
         ("self_id", JInt 123)].

(** The answers of the peer to the call number 1: one that reports
    success, one that reports failure. *)
Definition result_ok : json :=
  JDict [("status", JString "ok"); ("retcode", JInt 0);
         ("data", JDict [("message_id", JInt 7)]);
         ("echo", JDict [("seq", JInt 1)])].

Definition result_failed : json :=
  JDict [("status", JString "failed"); ("retcode", JInt 100);
         ("data", JNull);
         ("echo", JDict [("seq", JInt 1)])].

(** A decoder that knows these frames by name and nothing else. *)
Definition loads (data : string) : exn + json :=
  if String.eqb data "lifecycle connect" then inr lifecycle_connect
  else if String.eqb data "private message" then inr private_message
  else if String.eqb data "result ok" then inr result_ok
  else if String.eqb data "result failed" then inr result_failed
  else inl (Raised "JSONDecodeError" "Expecting value").

(** [_handle_api_result] of [utils.py]: a failed status raises
    [ActionFailed], any other answer gives its [data]. *)
Definition handle_api_result (result : json) : exn + json :=
  match result with
  | JDict d =>
      match dict_get "status" d with
      | Some (JString "failed") => inl (Raised "ActionFailed" "retcode")
      | _ => inr (default JNull (dict_get "data" d))
      end
  | _ => inr JNull
  end.

(** The result store: the next sequence number, and the numbers of the
    calls whose future is done.  A call is pending from [get_seq] on. *)
Definition echo_seq (result : json) : option Z :=
  match result with
  | JDict d =>
      match dict_get "echo" d with
      | Some (JDict echo) =>
          match dict_get "seq" echo with
          | Some (JInt seq) => Some seq
          | _ => None
          end
      | _ => None
      end
  | _ => None
  end.

Definition store_result (result : json) (store : Z * list Z)
  : (Z * list Z) * (exn + unit) :=
  match echo_seq result with
  | Some seq =>
      if bool_decide (seq ∈ snd store)
      then (store, inl (Raised "InvalidStateError" "invalid state"))
      else if (1 <=? seq) && (seq <? fst store)
           then ((fst store, seq :: snd store), inr tt)
           else (store, inr tt)
  | None => (store, inr tt)
  end.

(** The constructor of URLs refuses a host that opens a bracket and does
    not close it. *)
Fixpoint has_char (c : ascii) (s : string) : bool :=
  match s with
  | EmptyString => false
  | String c' s' => Ascii.eqb c c' || has_char c s'
  end.

Definition parse_url (url : string) : string + string :=
  if has_char "[" url && negb (has_char "]" url)
  then inl "Invalid IPv6 URL"
  else inr url.

Definition bearer (header : option string) : option string :=
  match header with
  | Some h =>
      if String.prefix "Bearer " h
      then Some (substring 7 (String.length h - 7) h)
      else None
  | None => None
  end.

Definition runtime : Runtime :=
  {| Model := string;
     Event := string * json;
     __event__ := fun model => model;
     parse_obj := validate;
     EventBase := "";
     dir_event := [""; "message"; "message.group"; "message.private";
                   "meta_event"; "meta_event.lifecycle"];
     isinstance_LifecycleMetaEvent :=
       fun event => String.eqb (fst event) "meta_event.lifecycle";
     event_sub_type :=
       fun event => match field "sub_type" event with
                    | Some (JString s) => s
                    | _ => ""
                    end;
     event_self_id :=
       fun event => match field "self_id" event with
                    | Some (JInt z) => z
                    | _ => 0
                    end;
     json_loads := loads;
     json_dumps := fun _ => "{}";
     py_str := fun _ => "<value>";
     hmac_sha1_hexdigest := fun key body => key ++ "/" ++ body;
     get_auth_bearer := bearer;
     escape_tag := fun s => s;
     _handle_api_result := handle_api_result;
     ResultStore := Z * list Z;
     ResultStore_get_seq := fun store => (fst store, (fst store + 1, snd store));
     ResultStore_add_result := fun _ => store_result;
     Request_url := parse_url |}.

Definition no_config : Config :=
  {| api_root := ∅; api_timeout := Some 30%Q;
     onebot_access_token := None; onebot_secret := None;
     onebot_ws_urls := [] |}.

(** A reverse-only driver, and one that can also connect and send. *)
Definition reverse_driver : Driver :=
  {| is_ForwardDriver := false; is_ReverseDriver := true |}.

Definition full_driver : Driver :=
  {| is_ForwardDriver := true; is_ReverseDriver := true |}.

(** The adapter right after [__init__]. *)
Definition adapter (d : Driver) (c : Config) : @Adapter runtime :=
  @init runtime d c (1, []).

Definition post (identity : string) (body : option string) : Request :=
  {| method := "POST"; url := "/onebot/v11/http";
     headers := {["x-self-id" := identity]};
     content := body; timeout := None |}.

Definition socket (n : nat) (identity : string) : WebSocket :=
  {| ws_id := n;
     request := {| method := "GET"; url := "/onebot/v11/ws";
                   headers := {["x-self-id" := identity]};
                   content := None; timeout := None |} |}.

Definition link : WebSocket :=
  {| ws_id := 2;
     request := {| method := "GET"; url := "ws://127.0.0.1:6700";
                   headers := ∅; content := None; timeout := None |} |}.

Definition secret_config : Config :=
  {| api_root := ∅; api_timeout := Some 30%Q;
     onebot_access_token := None; onebot_secret := Some "s3cret";
     onebot_ws_urls := [] |}.

Definition http_config : Config :=
  {| api_root := {["123" := "http://127.0.0.1:5700"]};
     api_timeout := Some 30%Q;
     onebot_access_token := None; onebot_secret := None;
     onebot_ws_urls := [] |}.

(** A root that is no URL. *)
Definition bad_root_config : Config :=
  {| api_root := {["123" := "http://[::1"]};
     api_timeout := Some 30%Q;
     onebot_access_token := None; onebot_secret := None;
     onebot_ws_urls := [] |}.

(** The adapter at start, after the webhook has taken a private message of
    the peer 123, and with the peer 123 connected over a reverse
    WebSocket (lines 190-193). *)
Definition started : @Adapter runtime := adapter reverse_driver no_config.

Definition after_webhook : @Adapter runtime :=
  fst (@_handle_http runtime (post "123" (Some "private message")) started).

Definition connected : @Adapter runtime :=
  @set_bots runtime (fun b => <["123" := {| self_id := "123" |}]> b)
    (@set_connections runtime (fun c => <["123" := socket 1 "123"]> c)
       (adapter full_driver no_config)).

(** The peer 123 connected over the forward link, and the call number 1
    made for it; then with that call answered. *)
Definition linked : @Adapter runtime :=
  @set_result_store runtime (fun _ => (2, []))
    (@set_bots runtime (fun b => <["123" := {| self_id := "123" |}]> b)
       (@set_connections runtime (fun c => <["123" := link]> c)
          (adapter full_driver no_config))).

Definition linked_answered : @Adapter runtime :=
  @set_result_store runtime (fun _ => (2, [1])) linked.

End Scenario.

(** * Properties *)

(** ** The event classifier *)

Section Classifier.
Context `{RT : Runtime}.

Lemma string_app_assoc (a b c : string) : (a ++ b) ++ c = a ++ (b ++ c).
Proof.
  induction a as [|x a IH]; [reflexivity|].
  change (String x ((a ++ b) ++ c) = String x (a ++ (b ++ c))).
  by rewrite IH.
Qed.

Lemma str_split_not_nil (sep : ascii) (s : string) : str_split sep s <> [].
Proof.
  destruct s as [|c s]; simpl; [done|].
  destruct (Ascii.eqb c sep); [done|]. destruct (str_split sep s); done.
Qed.

Lemma str_split_app (sep : ascii) (a b : string) :
  str_split sep (a ++ String sep b) = (str_split sep a ++ str_split sep b)%list.
Proof.
  induction a as [|c a IH]; simpl.
  - rewrite Ascii.eqb_refl. reflexivity.
  - rewrite IH. destruct (Ascii.eqb c sep); [reflexivity|].
    pose proof (str_split_not_nil sep a).
    destruct (str_split sep a); [done|reflexivity].
Qed.

(** Registration at run time: a model without [__event__] is refused and
    the registry is left alone; any other model is registered under its
    [__event__], in the place of whatever was there. *)
Lemma add_custom_model_refuses (model : Model) (self : Adapter) :
  __event__ model = "" ->
  exists msg, add_custom_model model self = (self, inl (ValueError msg)).
Proof.
  intros Hempty. unfold add_custom_model. rewrite Hempty. simpl.
  eexists. reflexivity.
Qed.

Lemma add_custom_model_registers (model : Model) (self : Adapter) :
  __event__ model <> "" ->
  exists self',
    add_custom_model model self = (self', inr tt) /\
    registered (event_models self') (__event__ model) model.
Proof.
  intros Hne. unfold add_custom_model.
  replace (String.eqb (__event__ model) "") with false
    by (symmetry; by apply String.eqb_neq).
  eexists. split; [reflexivity|].
  unfold registered, trie_setitem. simpl. apply lookup_insert_eq.
Qed.

(** A dotted name that is continued after a dot: the path is continued. *)
Lemma path_of_dotted_extension (p rest : string) :
  _path_from_key ("." ++ (p ++ String "." rest))
  = (_path_from_key ("." ++ p) ++ _path_from_key rest)%list.
Proof.
  unfold _path_from_key. rewrite <- string_app_assoc. apply str_split_app.
Qed.

(** So the path of [p] is a strict prefix of the path of [p.rest]. *)
Lemma dotted_extension_strict_prefix (p rest : string) :
  _path_from_key ("." ++ p) `prefix_of` _path_from_key ("." ++ (p ++ String "." rest)) /\
  _path_from_key ("." ++ p) <> _path_from_key ("." ++ (p ++ String "." rest)).
Proof.
  rewrite path_of_dotted_extension. split.
  - by exists (_path_from_key rest).
  - intros Heq. apply (f_equal length) in Heq. rewrite length_app in Heq.
    pose proof (str_split_not_nil "." rest) as Hne. unfold _path_from_key in Heq.
    destruct (str_split "." rest); [done|]. simpl in Heq. lia.
Qed.

Lemma prefixes_walk_app {V} (t : StringTrie V) (a : list string) :
  forall pos step b,
    prefixes_walk t pos (a ++ step :: b) =
    (prefixes_walk t pos a ++ prefixes_walk t (pos ++ a ++ [step]) b)%list.
Proof.
  induction a as [|x a IH]; intros pos step b; simpl.
  - destruct b; simpl; rewrite ?app_nil_r; destruct (t !! pos); reflexivity.
  - rewrite IH, <- !app_assoc. reflexivity.
Qed.

Lemma prefixes_walk_last {V} (t : StringTrie V) (a : list string) :
  forall pos value,
    t !! (pos ++ a)%list = Some value ->
    exists shorter, prefixes_walk t pos a = (shorter ++ [(pos ++ a, value)])%list.
Proof.
  induction a as [|x a IH]; intros pos value Hv; simpl.
  - rewrite app_nil_r in Hv. rewrite Hv. exists []. rewrite !app_nil_r.
    reflexivity.
  - replace (pos ++ x :: a)%list with ((pos ++ [x]) ++ a)%list in *
      by (rewrite <- app_assoc; reflexivity).
    destruct (IH _ _ Hv) as [shorter ->].
    eexists. rewrite app_assoc. reflexivity.
Qed.

(** Every step that [prefixes] yields is a registered prefix of the key's
    path, and the steps come out by strictly growing length. *)
Lemma prefixes_walk_sound {V} (t : StringTrie V) (rest : list string) :
  forall pos k value,
    In (k, value) (prefixes_walk t pos rest) ->
    t !! k = Some value /\ exists ext, k = (pos ++ ext)%list /\ ext `prefix_of` rest.
Proof.
  induction rest as [|x rest IH]; intros pos k value; simpl.
  - rewrite app_nil_r. destruct (t !! pos) eqn:E; simpl; [|tauto].
    intros [[= <- <-]|[]]. split; [done|]. exists []. rewrite app_nil_r. done.
  - rewrite in_app_iff. intros [H|H].
    + destruct (t !! pos) eqn:E; simpl in H; [|tauto].
      destruct H as [[= <- <-]|[]]. split; [done|].
      exists []. rewrite app_nil_r. split; [done|]. apply prefix_nil.
    + destruct (IH _ _ _ H) as [Hk (ext & -> & Hp)]. split; [done|].
      exists (x :: ext). rewrite <- app_assoc. split; [done|].
      by apply prefix_cons.
Qed.

Lemma prefixes_walk_complete {V} (t : StringTrie V) (rest : list string) :
  forall pos ext value,
    ext `prefix_of` rest -> t !! (pos ++ ext)%list = Some value ->
    In (pos ++ ext, value)%list (prefixes_walk t pos rest).
Proof.
  induction rest as [|x rest IH]; intros pos ext value Hp Hv; simpl.
  - apply prefix_nil_inv in Hp as ->. rewrite app_nil_r in *. rewrite Hv.
    left. done.
  - apply in_or_app. destruct ext as [|y ext].
    + left. rewrite app_nil_r in *. rewrite Hv. left. done.
    + right. pose proof (prefix_cons_inv_1 _ _ _ _ Hp) as ->.
      apply prefix_cons_inv_2 in Hp.
      replace (pos ++ x :: ext)%list with ((pos ++ [x]) ++ ext)%list in *
        by (rewrite <- app_assoc; reflexivity).
      by apply IH.
Qed.

(** The candidates of a lookup are exactly the models registered at a
    prefix of the path. *)
Lemma get_event_model_candidates (t : StringTrie Model) (name : string)
  (model : Model) :
  In model (get_event_model t name) <->
  exists k, k `prefix_of` _path_from_key ("." ++ name) /\ t !! k = Some model.
Proof.
  unfold get_event_model, prefixes. rewrite <- in_rev, in_map_iff. split.
  - intros [[k v] [Hsnd Hin]]. simpl in Hsnd. subst v.
    apply prefixes_walk_sound in Hin as [Hk (ext & -> & Hp)]. eauto.
  - intros (k & Hp & Hk). exists (k, model). split; [done|].
    by apply (prefixes_walk_complete t _ [] k model).
Qed.

(** What the [for ... else] of [json_to_event] returns when a candidate
    validates: the event of the first one that does. *)
Lemma parse_models_first_valid (failed : list Model) (model : Model)
  (rest : list Model) (json_data : json) (event : Event) (self : Adapter) :
  Forall (fun m => exists e, parse_obj m json_data = inl e) failed ->
  parse_obj model json_data = inr event ->
  snd (parse_models (failed ++ model :: rest) json_data self) = inr event.
Proof.
  intros Hfail Hok. revert self.
  induction Hfail as [|m failed [e He] _ IH]; intros self; simpl.
  - rewrite Hok. reflexivity.
  - rewrite He. unfold bind, log, modify. simpl. apply IH.
Qed.

(** When no candidate validates, the base class decides. *)
Lemma parse_models_all_fail (models : list Model) (json_data : json)
  (self : Adapter) :
  Forall (fun m => exists e, parse_obj m json_data = inl e) models ->
  snd (parse_models models json_data self) = parse_obj EventBase json_data.
Proof.
  intros Hfail. revert self.
  induction Hfail as [|m models [e He] _ IH]; intros self; simpl.
  - reflexivity.
  - rewrite He. unfold bind, log, modify. simpl. apply IH.
Qed.

(** Either some candidate validates, and then there is a first one, or all
    of them fail. *)
Lemma first_valid_or_all_fail (models : list Model) (json_data : json) :
  (exists failed model rest event,
      models = (failed ++ model :: rest)%list /\
      Forall (fun m => exists e, parse_obj m json_data = inl e) failed /\
      parse_obj model json_data = inr event) \/
  Forall (fun m => exists e, parse_obj m json_data = inl e) models.
Proof.
  induction models as [|m models IH].
  - right. constructor.
  - destruct (parse_obj m json_data) as [e|event] eqn:E.
    + destruct IH as [(failed & model & rest & event & -> & Hf & Hok)|Hall].
      * left. exists (m :: failed), model, rest, event.
        split; [done|]. split; [|done]. constructor; eauto.
      * right. constructor; eauto.
    + left. exists [], m, models, event. split; [done|]. split; [constructor|done].
Qed.

(** C3.  Two models registered at the paths [p1] and [p2], [p1] a strict
    prefix of [p2], and a payload whose classification path [name] is [p2]
    or continues it: among the candidates the model of [p2] stands before
    the model of [p1]; it is the very first candidate when [name] is [p2];
    and when the model of [p1] validates the payload, the event comes from
    it or from a candidate ahead of it, so the base class, which
    [json_to_event] keeps for the case that every candidate fails, is not
    reached. *)
Theorem get_event_model_most_specific_first
  (t : StringTrie Model) (p1 p2 name : string) (m1 m2 : Model) :
  registered t p1 m1 ->
  registered t p2 m2 ->
  _path_from_key ("." ++ p1) `prefix_of` _path_from_key ("." ++ p2) ->
  _path_from_key ("." ++ p1) <> _path_from_key ("." ++ p2) ->
  _path_from_key ("." ++ p2) `prefix_of` _path_from_key ("." ++ name) ->
  exists before between after,
    get_event_model t name = (before ++ m2 :: between ++ m1 :: after)%list /\
    (_path_from_key ("." ++ name) = _path_from_key ("." ++ p2) -> before = []) /\
    forall json_data event1 self,
      parse_obj m1 json_data = inr event1 ->
      exists model event,
        In model (before ++ m2 :: between ++ [m1])%list /\
        parse_obj model json_data = inr event /\
        snd (parse_models (get_event_model t name) json_data self) = inr event.
Proof.
  unfold registered. intros H1 H2 [ext Hext] Hne [ext' Hext'].
  destruct ext as [|step ext]; [rewrite app_nil_r in Hext; congruence|].
  assert (Hlist : exists before between after,
             get_event_model t name = (before ++ m2 :: between ++ m1 :: after)%list /\
             (ext' = [] -> before = [])).
  { unfold get_event_model, prefixes.
    destruct (prefixes_walk_last t (_path_from_key ("." ++ p1)) [] m1 H1)
      as [short1 E1].
    destruct (prefixes_walk_last t ext
                ([] ++ _path_from_key ("." ++ p1) ++ [step]) m2)
      as [short2 E2].
    { rewrite app_nil_l, <- app_assoc.
      change ([step] ++ ext)%list with (step :: ext).
      rewrite <- Hext. exact H2. }
    assert (E : prefixes_walk t [] (_path_from_key ("." ++ p2)) =
                (short1 ++ (_path_from_key ("." ++ p1), m1) :: short2
                   ++ [(_path_from_key ("." ++ p2), m2)])%list).
    { rewrite Hext, prefixes_walk_app, E1, E2, <- !app_assoc.
      change ([step] ++ ext)%list with (step :: ext). reflexivity. }
    destruct ext' as [|step' ext'].
    - rewrite Hext', app_nil_r, E.
      exists [], (List.rev (List.map snd short2)), (List.rev (List.map snd short1)).
      split; [|done].
      repeat first [ rewrite map_app | rewrite rev_app_distr
                   | rewrite <- app_assoc | progress simpl ].
      reflexivity.
    - rewrite Hext', prefixes_walk_app, E.
      exists (List.rev (List.map snd
                (prefixes_walk t ([] ++ _path_from_key ("." ++ p2) ++ [step']) ext'))),
        (List.rev (List.map snd short2)), (List.rev (List.map snd short1)).
      split; [|done].
      repeat first [ rewrite map_app | rewrite rev_app_distr
                   | rewrite <- app_assoc | progress simpl ].
      reflexivity. }
  destruct Hlist as (before & between & after & Hlist & Hhead).
  exists before, between, after. split; [exact Hlist|]. split.
  { intros Heq. apply Hhead. rewrite Heq in Hext'.
    rewrite <- (app_nil_r (_path_from_key ("." ++ p2))) in Hext' at 1.
    by apply app_inv_head in Hext'. }
  intros json_data event1 self Hok1. rewrite Hlist.
  destruct (first_valid_or_all_fail (before ++ m2 :: between ++ [m1]) json_data)
    as [(failed & model & rest & event & Heq & Hf & Hok)|Hall].
  - exists model, event. split; [|split; [exact Hok|]].
    + rewrite Heq. apply in_or_app. right. left. reflexivity.
    + replace (before ++ m2 :: between ++ m1 :: after)%list
        with ((before ++ m2 :: between ++ [m1]) ++ after)%list
        by (rewrite <- !app_assoc; simpl; rewrite <- app_assoc; reflexivity).
      rewrite Heq, <- app_assoc. simpl.
      by apply parse_models_first_valid.
  - exfalso. rewrite Forall_forall in Hall.
    destruct (Hall m1) as [e He]; [|congruence].
    apply list_elem_of_In, in_or_app. right. right. apply in_or_app. right.
    left. reflexivity.
Qed.

(** [json_to_event] on a dict that has a [post_type]. *)
Lemma json_to_event_post_type (d : list (string * json)) (post_type : json)
  (self_id : option string) (self : Adapter) :
  dict_get "post_type" d = Some post_type ->
  json_to_event (JDict d) self_id self =
  match event_name_of d post_type with
  | inr name =>
      match parse_models (get_event_model (event_models self) name) (JDict d) self with
      | (self', inr event) => (self', inr (Some event))
      | (self', inl e) =>
          (set_journal (fun j => (j ++ [parse_failure (JDict d) e])%list) self',
           inr None)
      end
  | inl e =>
      (set_journal (fun j => (j ++ [parse_failure (JDict d) e])%list) self,
       inr None)
  end.
Proof.
  intros Hpt. unfold json_to_event. rewrite Hpt.
  unfold try_except, bind, lift, gets, ret, log, modify. simpl.
  destruct (event_name_of d post_type) as [e|name]; [reflexivity|].
  destruct (parse_models _ _ _) as [self' [e|event]]; reflexivity.
Qed.

(** A primary type that is not a [str] cannot be joined with its
    qualifiers: line 365 raises and no path is computed. *)
Lemma event_name_of_not_str (d : list (string * json)) (post_type : json) :
  (forall s, post_type <> JString s) ->
  exists msg, event_name_of d post_type = inl (TypeError msg).
Proof.
  intros Hns. unfold event_name_of.
  destruct post_type; simpl; eauto. by destruct (Hns s).
Qed.

(** The test [if value] of lines 362 and 364 lets through what is not
    empty, and [f"{value}"] writes its text. *)
Lemma truthy_not_empty (v : json) : truthy v = negb (is_empty v).
Proof.
  destruct v as [|b|z|f|s|l|d];
    [reflexivity|by destruct b|by destruct z|by destruct f
    |by destruct s|by destruct l|by destruct d].
Qed.

Lemma format_value_text (v : json) : format_value v = text_of v.
Proof. by destruct v. Qed.

Lemma qualifier_segment (field : option json) :
  qualifier field
  = match field with
    | None => ""
    | Some v => if is_empty v then "" else "." ++ text_of v
    end.
Proof.
  destruct field as [v|]; [|reflexivity]. unfold qualifier.
  rewrite truthy_not_empty, format_value_text. by destruct (is_empty v).
Qed.

Lemma event_name_of_str (d : list (string * json)) (primary_type : string) :
  event_name_of d (JString primary_type)
  = inr (classification_path primary_type
           (dict_get (primary_type ++ "_type") d) (dict_get "sub_type" d)).
Proof.
  unfold event_name_of, classification_path. rewrite !qualifier_segment.
  cbn [format_value py_add_str]. by rewrite string_app_assoc.
Qed.

(** C4, amended.  For a payload with a primary-type field, the name that
    [json_to_event] computes, when it computes one, is the primary type,
    then a dot and the text of the field [{primary type}_type] if that
    field is present and not empty, then a dot and the text of [sub_type]
    if that field is present and not empty, where [null], [false], a zero
    and a string, list or object with nothing in it are empty.  It computes
    one exactly when the primary type is a string, and this name is the one
    [get_event_model] is asked for.  For a primary type that is not a
    string no name is computed: line 365 raises [TypeError], which is
    logged, and the payload gives no event. *)
Theorem event_name_is_classification_path (d : list (string * json))
  (post_type : json) (self_id : option string) (self : Adapter) :
  dict_get "post_type" d = Some post_type ->
  (forall name,
      event_name_of d post_type = inr name ->
      exists primary_type,
        post_type = JString primary_type /\
        name = classification_path primary_type
                 (dict_get (primary_type ++ "_type") d) (dict_get "sub_type" d)) /\
  (forall primary_type,
      post_type = JString primary_type ->
      let path := classification_path primary_type
                    (dict_get (primary_type ++ "_type") d) (dict_get "sub_type" d) in
      event_name_of d post_type = inr path /\
      json_to_event (JDict d) self_id self =
      match parse_models (get_event_model (event_models self) path) (JDict d) self with
      | (self', inr event) => (self', inr (Some event))
      | (self', inl e) =>
          (set_journal (fun j => (j ++ [parse_failure (JDict d) e])%list) self',
           inr None)
      end) /\
  ((forall s, post_type <> JString s) ->
   exists msg,
     event_name_of d post_type = inl (TypeError msg) /\
     json_to_event (JDict d) self_id self
     = (set_journal
          (fun j => (j ++ [parse_failure (JDict d) (TypeError msg)])%list) self,
        inr None)).
Proof.
  intros Hpt. split; [|split].
  - intros name Hname. destruct post_type; try discriminate Hname.
    exists s. split; [reflexivity|].
    rewrite event_name_of_str in Hname. by injection Hname as <-.
  - intros primary_type -> path. split; [apply event_name_of_str|].
    rewrite (json_to_event_post_type d _ self_id self Hpt), event_name_of_str.
    reflexivity.
  - intros Hns. destruct (event_name_of_not_str d post_type Hns) as [msg Hmsg].
    exists msg. split; [exact Hmsg|].
    rewrite (json_to_event_post_type d _ self_id self Hpt), Hmsg. reflexivity.
Qed.

(** C5, amended.  On a dict with a primary-type field [json_to_event] never raises.
    When the primary type is a string, the candidates are tried in the
    order of [get_event_model]: the first one that validates gives the
    event; if none does, the base class [Event] gives it; if that fails too,
    the result is [None] and the failure is on the log.  When the primary
    type is not a string, the result is [None], with the [TypeError] on the
    log. *)
Theorem json_to_event_first_valid_else_base (d : list (string * json))
  (post_type : json) (self_id : option string) (self : Adapter) :
  dict_get "post_type" d = Some post_type ->
  exists self' result,
    json_to_event (JDict d) self_id self = (self', inr result) /\
    (forall primary_type,
        post_type = JString primary_type ->
        let models :=
          get_event_model (event_models self)
            (classification_path primary_type
               (dict_get (primary_type ++ "_type") d) (dict_get "sub_type" d)) in
        let fails := fun m => exists e, parse_obj m (JDict d) = inl e in
        (forall failed model rest event,
            models = (failed ++ model :: rest)%list ->
            Forall fails failed ->
            parse_obj model (JDict d) = inr event ->
            result = Some event) /\
        (forall event,
            Forall fails models ->
            parse_obj EventBase (JDict d) = inr event ->
            result = Some event) /\
        (forall e,
            Forall fails models ->
            parse_obj EventBase (JDict d) = inl e ->
            result = None /\
            exists earlier,
              journal self' = (earlier ++ [parse_failure (JDict d) e])%list)) /\
    ((forall s, post_type <> JString s) ->
     result = None /\
     exists msg,
       journal self'
       = (journal self ++ [parse_failure (JDict d) (TypeError msg)])%list).
Proof.
  intros Hpt. rewrite (json_to_event_post_type d _ self_id self Hpt).
  destruct (event_name_of d post_type) as [e0|name] eqn:Hname.
  { eexists _, _. split; [reflexivity|]. split.
    - intros primary_type ->. rewrite event_name_of_str in Hname. done.
    - intros Hns. split; [reflexivity|].
      destruct (event_name_of_not_str d post_type Hns) as [msg Hmsg].
      rewrite Hmsg in Hname. injection Hname as <-. exists msg. reflexivity. }
  destruct (parse_models (get_event_model (event_models self) name) (JDict d) self)
    as [self1 r] eqn:Hparse.
  assert (Hsnd : snd (parse_models (get_event_model (event_models self) name)
                        (JDict d) self) = r) by (rewrite Hparse; reflexivity).
  assert (Hstr : (forall s, post_type <> JString s) -> False).
  { intros Hns. destruct (event_name_of_not_str d post_type) as [msg Hmsg].
    - exact Hns.
    - rewrite Hmsg in Hname. done. }
  destruct r as [e|event].
  - eexists _, _. split; [reflexivity|]. split; [|intros Hns; by destruct Hstr].
    intros primary_type ->. rewrite event_name_of_str in Hname.
    injection Hname as <-. intros models fails. split; [|split].
    + intros failed model rest event Hm Hf Hok. exfalso.
      subst models. rewrite Hm in Hsnd.
      rewrite (parse_models_first_valid _ _ _ _ _ _ Hf Hok) in Hsnd. done.
    + intros event Hf Hok. exfalso.
      rewrite (parse_models_all_fail _ _ _ Hf), Hok in Hsnd. done.
    + intros e' Hf Hbase. split; [reflexivity|].
      rewrite (parse_models_all_fail _ _ _ Hf), Hbase in Hsnd.
      injection Hsnd as ->. simpl. eexists. reflexivity.
  - eexists _, _. split; [reflexivity|]. split; [|intros Hns; by destruct Hstr].
    intros primary_type ->. rewrite event_name_of_str in Hname.
    injection Hname as <-. intros models fails. split; [|split].
    + intros failed model rest event' Hm Hf Hok.
      subst models. rewrite Hm in Hsnd.
      rewrite (parse_models_first_valid _ _ _ _ _ _ Hf Hok) in Hsnd. congruence.
    + intros event' Hf Hok.
      rewrite (parse_models_all_fail _ _ _ Hf), Hok in Hsnd. congruence.
    + intros e' Hf Hbase. exfalso.
      rewrite (parse_models_all_fail _ _ _ Hf), Hbase in Hsnd. done.
Qed.

End Classifier.


(** ** The webhook handler *)

Section Webhook.
Context `{RT : Runtime}.

(** [json_to_event] returns, whatever the payload, when it is given no
    identity. *)
Lemma json_to_event_returns (json_data : json) (self : Adapter) :
  exists self' result, json_to_event json_data None self = (self', inr result).
Proof.
  destruct json_data; try (eexists _, _; reflexivity).
  destruct (dict_get "post_type" d) as [post_type|] eqn:Hpt.
  - rewrite (json_to_event_post_type d post_type None self Hpt).
    destruct (event_name_of d post_type) as [e|name]; [eexists _, _; reflexivity|].
    destruct (parse_models _ _ _) as [self' [e|event]]; eexists _, _; reflexivity.
  - unfold json_to_event. rewrite Hpt. eexists _, _; reflexivity.
Qed.

(** [bot_connect] of an identity that is no bot. *)
Lemma bot_connect_new (bot : Bot) (self : Adapter) :
  bots self !! self_id bot = None ->
  bot_connect bot self = (set_bots (fun b => <[self_id bot := bot]> b) self, inr tt).
Proof.
  intros Hnew. unfold bot_connect, bind, gets. rewrite Hnew.
  rewrite bool_decide_eq_false_2 by (by intros [? ?]). reflexivity.
Qed.

(** [bot_connect] of an identity that is a bot already. *)
Lemma bot_connect_known (bot : Bot) (self : Adapter) :
  is_Some (bots self !! self_id bot) ->
  bot_connect bot self
  = (self, inl (Raised "RuntimeError"
                  ("Duplicate bot connection with id " ++ self_id bot))).
Proof.
  intros Hknown. unfold bot_connect, bind, gets.
  rewrite bool_decide_eq_true_2 by done. reflexivity.
Qed.

(** Both checks pass without a word on the log. *)
Lemma checks_pass (self : Adapter) (request : Request) :
  webhook_status self request = 204 ->
  str_truthy (headers request !! "x-self-id") = true /\
  _check_signature request self = (self, inr None) /\
  _check_access_token request self = (self, inr None).
Proof.
  unfold webhook_status, _check_signature, _check_access_token, signature_matches.
  unfold bind, gets, ret. simpl.
  destruct (str_truthy (headers request !! "x-self-id")); simpl; [|done].
  destruct (str_truthy (onebot_secret (config self))); simpl.
  - destruct (str_truthy (headers request !! "x-signature")); simpl; [|done].
    destruct (content request) as [body|]; simpl; [|done].
    destruct (opt_str_eqb (headers request !! "x-signature") _); simpl; [|done].
    destruct (str_truthy (onebot_access_token (config self)) && _); done.
  - destruct (str_truthy (onebot_access_token (config self)) && _); done.
Qed.

(** C2.  The claim does not hold of the code: when every check passes and
    the body does not decode, the exception of [json.loads] leaves
    [_handle_http] and no response is returned, for line 158 is outside any
    [try]. *)
Theorem _handle_http_undecodable_body_raises (self : Adapter)
  (request : Request) (data : string) (e : exn) :
  webhook_status self request = 204 ->
  content request = Some data ->
  json_loads data = inl e ->
  _handle_http request self = (self, inl e).
Proof.
  intros Hok Hdata Hloads.
  destruct (checks_pass self request Hok) as (Hid & Hsig & Htok).
  unfold _handle_http. rewrite Hid. cbn [negb].
  unfold bind at 1. cbv beta zeta. rewrite Hsig.
  unfold bind at 1. cbv beta zeta. rewrite Htok.
  rewrite Hdata. unfold bind, lift. rewrite Hloads. reflexivity.
Qed.

(** C8, amended.  The webhook answers with the status of the cascade:
    the checks run in the order of [webhook_status] and the first that
    fails decides; 204 is the answer when all pass and the body is absent
    or decodes. *)
Theorem _handle_http_status (self : Adapter) (request : Request) :
  (webhook_status self request = 204 ->
   forall data, content request = Some data ->
                exists json_data, json_loads data = inr json_data) ->
  exists self' response,
    _handle_http request self = (self', inr response) /\
    status_code response = webhook_status self request.
Proof.
  intros Hbody.
  destruct (Z.eq_dec (webhook_status self request) 204) as [Hok|Hrej].
  - destruct (checks_pass self request Hok) as (Hid & Hsig & Htok).
    specialize (Hbody Hok). rewrite Hok.
    unfold _handle_http. rewrite Hid. cbn [negb].
    unfold bind at 1. cbv beta zeta. rewrite Hsig.
    unfold bind at 1. cbv beta zeta. rewrite Htok.
    destruct (content request) as [data|].
    + destruct (Hbody data eq_refl) as [json_data Hloads].
      unfold bind at 1. unfold bind at 1. unfold lift. rewrite Hloads.
      unfold bind at 1.
      destruct (json_to_event_returns json_data self) as (self1 & [event|] & ->).
      * unfold bind at 1. unfold bind at 1. unfold bind at 1. unfold gets at 1.
        destruct (bots self1 !! _) as [bot|] eqn:Hbot.
        -- unfold bind, ret, create_task_handle_event, modify.
           eexists _, _; split; reflexivity.
        -- unfold bind at 1. rewrite bot_connect_new by exact Hbot.
           unfold bind, ret, log, create_task_handle_event, modify.
           eexists _, _; split; reflexivity.
      * eexists _, _. split; reflexivity.
    + eexists _, _. split; reflexivity.
  - clear Hbody. revert Hrej.
    unfold webhook_status, _handle_http, _check_signature, _check_access_token,
      signature_matches.
    unfold bind, gets, ret, log, modify. simpl.
    destruct (str_truthy (headers request !! "x-self-id")); simpl;
      [|intros _; eexists _, _; split; reflexivity].
    destruct (str_truthy (onebot_secret (config self))); simpl.
    + destruct (str_truthy (headers request !! "x-signature")); simpl;
        [|intros _; eexists _, _; split; reflexivity].
      destruct (content request) as [body|]; simpl;
        [|intros _; eexists _, _; split; reflexivity].
      destruct (opt_str_eqb (headers request !! "x-signature") _); simpl;
        [|intros _; eexists _, _; split; reflexivity].
      destruct (str_truthy (onebot_access_token (config self)) && _); simpl;
        [intros _; eexists _, _; split; reflexivity|done].
    + destruct (str_truthy (onebot_access_token (config self)) && _); simpl;
        [intros _; eexists _, _; split; reflexivity|done].
Qed.

End Webhook.


(** ** Coroutines: laws *)

Section TaskLaws.
Context `{RT : Runtime}.

Lemma bindT_sync {A B} (m : Sync A) (k : A -> Task B) (self : Adapter) :
  bindT (sync m) k self ≅
  match m self with
  | (self', inr a) => k a self'
  | (self', inl e) => Ret (self', inl e)
  end.
Proof. unfold bindT, sync. rewrite bind_ret_l. reflexivity. Qed.

Lemma bindT_await {A B} (a : awaitable (exn + A)) (k : A -> Task B)
  (self : Adapter) :
  bindT (await a) k self ≅
  Vis (Await self a) (fun r =>
    match r with
    | (self', inr x) => k x self'
    | (self', inl e) => Ret (self', inl e)
    end).
Proof.
  unfold bindT, await. rewrite bind_vis. apply eqit_Vis. intros r.
  rewrite bind_ret_l. reflexivity.
Qed.

Lemma bindT_attempt_await {A B} (a : awaitable (exn + A))
  (k : exn + A -> Task B) (self : Adapter) :
  bindT (attempt (await a)) k self ≅
  Vis (Await self a) (fun r => k (snd r) (fst r)).
Proof.
  unfold bindT, attempt, await. rewrite bind_bind, bind_vis.
  apply eqit_Vis. intros r. rewrite !bind_ret_l. reflexivity.
Qed.

Lemma bindT_sleep {B} (delay : Q) (k : unit -> Task B) (self : Adapter) :
  bindT (sleep delay) k self ≅
  Vis (Await self (asyncio_sleep delay)) (fun r => k (snd r) (fst r)).
Proof.
  unfold bindT, sleep. rewrite bind_vis. apply eqit_Vis. intros r.
  rewrite bind_ret_l. reflexivity.
Qed.

Lemma bindT_bindT {A B C} (m : Task A) (k : A -> Task B) (h : B -> Task C)
  (self : Adapter) :
  bindT (bindT m k) h self ≅ bindT m (fun a => bindT (k a) h) self.
Proof.
  unfold bindT. rewrite bind_bind. apply eqit_bind; [reflexivity|].
  intros [self' [e|a]]; [rewrite bind_ret_l|]; reflexivity.
Qed.

Lemma while_True_unfold {L A} (body : L -> Task (L + A)) (locals : L)
  (self : Adapter) :
  while_True body locals self ≅
  ITree.bind (body locals self) (fun r =>
    match r with
    | (self', inr (inl locals')) => Tau (while_True body locals' self')
    | (self', inr (inr a)) => Ret (self', inr a)
    | (self', inl e) => Ret (self', inl e)
    end).
Proof.
  unfold while_True at 1. rewrite unfold_iter. simpl. rewrite bind_bind.
  apply eqit_bind; [reflexivity|].
  intros [self' [e|[locals'|a]]]; rewrite bind_ret_l; reflexivity.
Qed.

End TaskLaws.


(** ** API dispatch *)

Section ApiDispatch.
Context `{RT : Runtime}.

Lemma _call_api_websocket (bot : Bot) (api : string) (data : json)
  (self : Adapter) (websocket : WebSocket) :
  connections self !! self_id bot = Some websocket ->
  exists self1 json_data k,
    _call_api bot api data self ≅
    Vis (Await self1 (websocket_send websocket json_data)) k.
Proof.
  intros Hc.
  destruct (ResultStore_get_seq (result_store self)) as [seq store] eqn:Hseq.
  eexists _, _, _. unfold _call_api.
  rewrite bindT_sync. cbn [gets]. rewrite Hc.
  rewrite bindT_sync. cbn [log modify].
  rewrite bindT_sync. unfold get_seq. cbn [result_store set_journal].
  rewrite Hseq. rewrite bindT_await. reflexivity.
Qed.

(** The constructor of the request, line 111, is outside the [try] of line
    119: the [ValueError] of an address that is no URL leaves the call as
    it is, and nothing is awaited. *)
Lemma _call_api_bad_url (bot : Bot) (api : string) (data : json)
  (self : Adapter) (msg : string) :
  connections self !! self_id bot = None ->
  is_ForwardDriver (driver self) = true ->
  str_truthy (api_root (config self) !! self_id bot) = true ->
  Request_url (http_api_url self bot api) = inl msg ->
  _call_api bot api data self ≅ Ret (calling_api api self, inl (ValueError msg)).
Proof.
  intros Hc Hf Hroot Hurl. unfold _call_api.
  rewrite bindT_sync. cbn [gets]. rewrite Hc.
  rewrite bindT_sync. cbn [log modify].
  rewrite bindT_sync. cbn [gets]. cbn [driver set_journal]. rewrite Hf.
  rewrite bindT_sync. cbn [gets]. cbn [config set_journal]. rewrite Hroot.
  cbn [negb].
  rewrite bindT_sync. cbn [gets]. cbn [config set_journal].
  rewrite bindT_sync. cbn [gets]. cbn [config set_journal].
  rewrite bindT_sync. unfold lift, new_Request.
  unfold http_api_url in Hurl. rewrite Hurl. reflexivity.
Qed.

Lemma _call_api_http (bot : Bot) (api : string) (data : json)
  (self : Adapter) (url : string) :
  connections self !! self_id bot = None ->
  is_ForwardDriver (driver self) = true ->
  str_truthy (api_root (config self) !! self_id bot) = true ->
  Request_url (http_api_url self bot api) = inr url ->
  _call_api bot api data self ≅
  Vis (Await (calling_api api self)
         (driver_request (http_api_request self data url)))
      (fun r => Ret (fst r, http_api_outcome (snd r))).
Proof.
  intros Hc Hf Hroot Hurl. unfold _call_api.
  rewrite bindT_sync. cbn [gets]. rewrite Hc.
  rewrite bindT_sync. cbn [log modify].
  rewrite bindT_sync. cbn [gets]. cbn [driver set_journal]. rewrite Hf.
  rewrite bindT_sync. cbn [gets]. cbn [config set_journal]. rewrite Hroot.
  cbn [negb].
  rewrite bindT_sync. cbn [gets]. cbn [config set_journal].
  rewrite bindT_sync. cbn [gets]. cbn [config set_journal].
  rewrite bindT_sync. unfold lift, new_Request.
  unfold http_api_url in Hurl. rewrite Hurl.
  unfold try_exceptT. rewrite bindT_await, bind_vis.
  apply eqit_Vis. intros [self' [e|response]]; cbn [fst snd http_api_outcome].
  - rewrite bind_ret_l. unfold reraise_as_NetworkError.
    destruct (is_NetworkError e); reflexivity.
  - destruct ((200 <=? status_code response) && (status_code response <? 300)).
    + destruct (negb (str_truthy (response_content response))).
      * unfold sync, raise. rewrite bind_ret_l. reflexivity.
      * rewrite bindT_sync. unfold lift.
        destruct (json_loads _) as [e|result].
        -- rewrite bind_ret_l. unfold reraise_as_NetworkError.
           destruct (is_NetworkError e); reflexivity.
        -- unfold sync. rewrite bind_ret_l.
           destruct (_handle_api_result result) as [e|r]; [|reflexivity].
           unfold reraise_as_NetworkError. destruct (is_NetworkError e); reflexivity.
    + unfold sync, raise. rewrite bind_ret_l. reflexivity.
Qed.

Lemma _call_api_unavailable (bot : Bot) (api : string) (data : json)
  (self : Adapter) :
  connections self !! self_id bot = None ->
  is_ForwardDriver (driver self) = false \/
  str_truthy (api_root (config self) !! self_id bot) = false ->
  _call_api bot api data self ≅ Ret (calling_api api self, inl ApiNotAvailable).
Proof.
  intros Hc Hno. unfold _call_api.
  rewrite bindT_sync. cbn [gets]. rewrite Hc.
  rewrite bindT_sync. cbn [log modify].
  rewrite bindT_sync. cbn [gets]. cbn [driver set_journal].
  destruct (is_ForwardDriver (driver self)) eqn:Hf.
  - destruct Hno as [|Hroot]; [done|].
    rewrite bindT_sync. cbn [gets]. cbn [config set_journal]. rewrite Hroot.
    reflexivity.
  - reflexivity.
Qed.

(** C6, amended.  [_call_api] raises [ApiNotAvailable] at once, without awaiting
    anything, exactly when the identity has no connection and either the
    driver cannot send HTTP requests or no HTTP root is configured for the
    identity. *)
Theorem _call_api_ApiNotAvailable_iff (bot : Bot) (api : string) (data : json)
  (self : Adapter) :
  (exists self', _call_api bot api data self ≅ Ret (self', inl ApiNotAvailable))
  <->
  connections self !! self_id bot = None /\
  (is_ForwardDriver (driver self) = false \/
   str_truthy (api_root (config self) !! self_id bot) = false).
Proof.
  split.
  - intros [self' H].
    destruct (connections self !! self_id bot) as [websocket|] eqn:Hc.
    + destruct (_call_api_websocket bot api data self websocket Hc)
        as (self1 & json_data & k & Hws).
      rewrite Hws in H. apply eqitree_inv_Ret_r in H. discriminate H.
    + split; [reflexivity|].
      destruct (is_ForwardDriver (driver self)) eqn:Hf; [|by left].
      destruct (str_truthy (api_root (config self) !! self_id bot)) eqn:Hroot;
        [|by right].
      destruct (Request_url (http_api_url self bot api)) as [msg|url] eqn:Hurl.
      * rewrite (_call_api_bad_url bot api data self msg Hc Hf Hroot Hurl) in H.
        apply eqit_inv_Ret in H. discriminate H.
      * rewrite (_call_api_http bot api data self url Hc Hf Hroot Hurl) in H.
        apply eqitree_inv_Ret_r in H. discriminate H.
  - intros [Hc Hno]. eexists. by apply _call_api_unavailable.
Qed.

(** C7.  The claim does not hold of the code.  On the HTTP fallback the
    call awaits one request, made for the root of the identity followed by
    the name of the API.  A status outside 200..299 is a [NetworkError],
    and so is an empty body; a non-empty body of a 2xx answer is decoded,
    and what [_handle_api_result] returns for it is the result.  But what
    [_handle_api_result] raises for it, the failure that the peer reports,
    does not leave the call: line 126 is inside the [try] of line 119, and
    the handler of line 133 puts [NetworkError("HTTP request failed")] in
    its place.  No other exception than [NetworkError] follows the
    request.  Before it, the constructor of the request, outside the
    [try], raises [ValueError] for an address that is no URL. *)
Theorem _call_api_http_fallback (bot : Bot) (api : string) (data : json)
  (self : Adapter) :
  connections self !! self_id bot = None ->
  is_ForwardDriver (driver self) = true ->
  str_truthy (api_root (config self) !! self_id bot) = true ->
  (forall msg,
      Request_url (http_api_url self bot api) = inl msg ->
      _call_api bot api data self ≅
      Ret (calling_api api self, inl (ValueError msg))) /\
  (forall url,
      Request_url (http_api_url self bot api) = inr url ->
      exists k,
        _call_api bot api data self ≅
        Vis (Await (calling_api api self)
               (driver_request (http_api_request self data url))) k /\
        forall (self' : Adapter) (response : Response),
          let success := 200 <= status_code response < 300 in
          (~ success ->
           exists msg,
             k (self', inr response) ≅ Ret (self', inl (NetworkError msg))) /\
          (success -> str_truthy (response_content response) = false ->
           exists msg,
             k (self', inr response) ≅ Ret (self', inl (NetworkError msg))) /\
          (success ->
           forall body parsed,
             response_content response = Some body -> body <> "" ->
             json_loads body = inr parsed ->
             (forall result,
                 _handle_api_result parsed = inr result ->
                 k (self', inr response) ≅ Ret (self', inr result)) /\
             (forall e,
                 _handle_api_result parsed = inl e ->
                 is_NetworkError e = false ->
                 k (self', inr response) ≅
                 Ret (self', inl (NetworkError "HTTP request failed")))) /\
          (forall answer, exists outcome,
              k (self', answer) ≅ Ret (self', outcome) /\
              forall e, outcome = inl e -> is_NetworkError e = true)).
Proof.
  intros Hc Hf Hroot. split; [intros msg; by apply _call_api_bad_url|].
  intros url Hurl.
  exists (fun r => Ret (fst r, http_api_outcome (snd r))).
  split; [by apply _call_api_http|].
  intros self' response success. cbn [fst snd]. unfold success.
  split; [|split; [|split]].
  - intros Hns. unfold http_api_outcome.
    destruct ((200 <=? status_code response) && (status_code response <? 300))
      eqn:Hs; [lia|].
    cbn [is_NetworkError]. eexists. reflexivity.
  - intros Hs Hempty. unfold http_api_outcome.
    replace ((200 <=? status_code response) && (status_code response <? 300))
      with true by lia.
    rewrite Hempty. cbn [negb is_NetworkError]. eexists. reflexivity.
  - intros Hs body parsed Hbody Hne Hloads. unfold http_api_outcome.
    replace ((200 <=? status_code response) && (status_code response <? 300))
      with true by lia.
    rewrite Hbody. cbn [str_truthy from_option id].
    replace (String.eqb body "") with false
      by (symmetry; by apply String.eqb_neq).
    cbn [negb]. rewrite Hloads. split.
    + intros result ->. reflexivity.
    + intros e -> ->. reflexivity.
  - intros answer. eexists. split; [reflexivity|].
    unfold http_api_outcome. intros e.
    destruct answer as [e0|resp].
    + destruct (is_NetworkError e0) eqn:He0; intros [= <-]; done.
    + destruct ((200 <=? status_code resp) && (status_code resp <? 300)).
      * destruct (negb (str_truthy (response_content resp))); [intros [= <-]; done|].
        destruct (json_loads _) as [e1|parsed].
        -- destruct (is_NetworkError e1) eqn:He1; intros [= <-]; done.
        -- destruct (_handle_api_result parsed) as [e1|r]; [|done].
           destruct (is_NetworkError e1) eqn:He1; intros [= <-]; done.
      * intros [= <-]; done.
Qed.

End ApiDispatch.


(** ** Connections *)

Section Connections.
Context `{RT : Runtime}.

(** Parsing writes to the log (and, for an API result, to the result store)
    and to nothing else, whether it returns or raises. *)
Lemma parse_models_frame (models : list Model) (json_data : json) :
  forall self,
    connections (fst (parse_models models json_data self)) = connections self /\
    bots (fst (parse_models models json_data self)) = bots self.
Proof.
  induction models as [|model models IH]; intros self; simpl.
  - done.
  - destruct (parse_obj model json_data) as [e|event]; [|done].
    unfold bind, log, modify. simpl.
    destruct (IH (set_journal (fun j =>
                (j ++ [{| level := "DEBUG"; message := "Event Parser Error";
                          exception := Some e |}])%list) self)) as [Hc Hb].
    split; [exact Hc|exact Hb].
Qed.

Lemma json_to_event_frame (json_data : json) (self_id : option string)
  (self : Adapter) :
  connections (fst (json_to_event json_data self_id self)) = connections self /\
  bots (fst (json_to_event json_data self_id self)) = bots self.
Proof.
  destruct json_data; try done.
  destruct (dict_get "post_type" d) as [post_type|] eqn:Hpt.
  - rewrite (json_to_event_post_type d post_type self_id self Hpt).
    destruct (event_name_of d post_type) as [e|name]; [done|].
    pose proof (parse_models_frame (get_event_model (event_models self) name)
                  (JDict d) self) as Hframe.
    destruct (parse_models _ _ _) as [self' [e|event]]; exact Hframe.
  - unfold json_to_event. rewrite Hpt. destruct self_id as [identity|]; [|done].
    unfold bind, add_result.
    by destruct (ResultStore_add_result identity (JDict d) (result_store self))
      as [store [e|[]]].
Qed.

(** An accepted webhook request that carries an event makes its identity a
    bot and stores no connection. *)
Lemma _handle_http_registers_bot (self : Adapter) (request : Request)
  (identity data : string) (json_data : json) (self1 : Adapter) (event : Event) :
  webhook_status self request = 204 ->
  headers request !! "x-self-id" = Some identity ->
  content request = Some data ->
  json_loads data = inr json_data ->
  json_to_event json_data None self = (self1, inr (Some event)) ->
  exists self' response,
    _handle_http request self = (self', inr response) /\
    status_code response = 204 /\
    is_Some (bots self' !! identity) /\
    connections self' = connections self.
Proof.
  intros Hok Hid Hdata Hloads Hevent.
  destruct (checks_pass self request Hok) as (Htruthy & Hsig & Htok).
  pose proof (json_to_event_frame json_data None self) as [Hconn Hbots].
  rewrite Hevent in Hconn, Hbots. simpl in Hconn, Hbots.
  unfold _handle_http. rewrite Htruthy. cbn [negb].
  unfold bind at 1. cbv beta zeta. rewrite Hsig.
  unfold bind at 1. cbv beta zeta. rewrite Htok.
  rewrite Hdata, Hid. cbn [from_option id].
  unfold bind at 1. unfold bind at 1. unfold lift. rewrite Hloads.
  unfold bind at 1. rewrite Hevent.
  unfold bind at 1. unfold bind at 1. unfold bind at 1. unfold gets at 1.
  destruct (bots self1 !! identity) as [bot|] eqn:Hbot.
  - unfold bind, ret, create_task_handle_event, modify.
    eexists _, _. split; [reflexivity|]. simpl. rewrite Hbot. eauto.
  - unfold bind at 1. rewrite bot_connect_new by exact Hbot.
    unfold bind, ret, log, create_task_handle_event, modify.
    eexists _, _. split; [reflexivity|]. simpl. rewrite lookup_insert_eq. eauto.
Qed.

(** A reverse WebSocket handshake of an identity that is no bot, with a
    token that passes, is accepted.  The connection table is written when
    the coroutine is resumed after [accept], on the adapter as it is found
    then, and the test of line 178 is not made again: a connection stored
    for the identity in the meantime is replaced.  If the identity has
    become a bot in the meantime, [bot_connect] raises after the table is
    written, and the exception leaves the handler, lines 192 and 193 being
    outside the [try]. *)
Lemma _handle_ws_registers_after_accept (websocket : WebSocket)
  (self : Adapter) (identity : string) :
  headers (request websocket) !! "x-self-id" = Some identity ->
  identity <> "" ->
  bots self !! identity = None ->
  _check_access_token (request websocket) self = (self, inr None) ->
  exists k,
    _handle_ws websocket self ≅ Vis (Await self (websocket_accept websocket)) k /\
    forall found,
      (bots found !! identity = None ->
       exists k',
         k (found, inr tt) ≅
         Vis (Await (reverse_connected identity websocket found)
                (websocket_receive websocket)) k') /\
      (is_Some (bots found !! identity) ->
       k (found, inr tt) ≅
       Ret (set_connections (fun c => <[identity := websocket]> c) found,
            inl (duplicate_bot_connection identity))).
Proof.
  intros Hid Hne Hbot Htok. eexists. split.
  - unfold _handle_ws. rewrite Hid.
    cbn [str_truthy from_option id].
    replace (String.eqb identity "") with false
      by (symmetry; by apply String.eqb_neq).
    cbn [negb].
    rewrite bindT_sync. cbn [gets]. rewrite Hbot.
    rewrite bool_decide_eq_false_2 by (by intros [? ?]).
    rewrite bindT_sync, Htok.
    rewrite bindT_await. reflexivity.
  - intros found. split.
    + intros Hnew. eexists. cbn beta iota.
      rewrite bindT_sync. cbn [modify].
      rewrite bindT_sync, bot_connect_new by exact Hnew.
      rewrite bindT_sync. cbn [log modify].
      unfold try_finallyT, try_exceptT. unfold bindT at 1.
      rewrite while_True_unfold. unfold _handle_ws_receive.
      rewrite bindT_await. rewrite !bind_vis. reflexivity.
    + intros Hknown. cbn beta iota.
      rewrite bindT_sync. cbn [modify].
      rewrite bindT_sync, bot_connect_known by exact Hknown.
      reflexivity.
Qed.

(** C10.  The duplicate test of the reverse WebSocket handler reads the bot
    table and not the connection table.  A handshake whose identity is in
    the bot table is closed with code 1008 and goes no further, whatever the
    connection table holds for that identity, and so when it holds nothing:
    the adapter is left as it was, one warning on the log apart.  A
    handshake whose identity is not in the bot table passes the test,
    whatever the connection table holds, and is accepted once its token has
    passed. *)
Theorem _handle_ws_rejects_known_bot (websocket : WebSocket) (self : Adapter)
  (identity : string) :
  headers (request websocket) !! "x-self-id" = Some identity ->
  identity <> "" ->
  (forall bot,
      bots self !! identity = Some bot ->
      _handle_ws websocket self ≅
      await (websocket_close websocket 1008 "Duplicate X-Self-ID")
        (set_journal (fun j => (j ++ [duplicate_bot_warning identity])%list) self)) /\
  (bots self !! identity = None ->
   _check_access_token (request websocket) self = (self, inr None) ->
   exists k,
     _handle_ws websocket self ≅ Vis (Await self (websocket_accept websocket)) k).
Proof.
  intros Hid Hne. split.
  - intros bot Hbot. unfold _handle_ws. rewrite Hid.
    cbn [str_truthy from_option id].
    replace (String.eqb identity "") with false
      by (symmetry; by apply String.eqb_neq).
    cbn [negb].
    rewrite bindT_sync. cbn [gets]. rewrite Hbot.
    rewrite bool_decide_eq_true_2 by eauto.
    rewrite bindT_sync. reflexivity.
  - intros Hbot Htok.
    destruct (_handle_ws_registers_after_accept websocket self identity
                Hid Hne Hbot Htok) as (k & Hk & _).
    exists k. exact Hk.
Qed.

End Connections.


(** ** The forward link *)

Section ForwardLink.
Context `{RT : Runtime}.

Lemma steps_eutt {A} (t u t' : itree asyncE A) (trace : list interaction) :
  t ≈ u -> steps u trace t' -> steps t trace t'.
Proof.
  intros Htu Hsteps. destruct Hsteps as [u t' H|R u left a k found answer rest t' H Hrest].
  - apply steps_here. by rewrite Htu.
  - eapply steps_await; [|exact Hrest]. by rewrite Htu.
Qed.

Lemma steps_app {A} (t u v : itree asyncE A) (trace1 trace2 : list interaction) :
  steps t trace1 u -> steps u trace2 v -> steps t (trace1 ++ trace2)%list v.
Proof.
  induction 1 as [t u Heq|R t left a k found answer rest u Heq Hrest IH];
    intros Hv; simpl.
  - by eapply steps_eutt.
  - eapply steps_await; [exact Heq|]. by apply IH.
Qed.

Lemma bindT_cong {A B} (m : Task A) (k1 k2 : A -> Task B) (self : Adapter) :
  (forall a self', k1 a self' ≈ k2 a self') ->
  bindT m k1 self ≈ bindT m k2 self.
Proof.
  intros Hk. unfold bindT. apply eqit_bind; [reflexivity|].
  intros [self' [e|a]]; [reflexivity|apply Hk].
Qed.

(** The end of a round of [while_True]: the body is followed by the loop. *)
Lemma while_True_round {L A} (body : L -> Task (L + A)) (round : Task L)
  (self : Adapter) :
  ITree.bind (bindT round (fun l => sync (ret (inl l))) self) (fun r =>
    match r with
    | (self', inr (inl locals')) => Tau (while_True body locals' self')
    | (self', inr (inr a)) => Ret (self', inr a)
    | (self', inl e) => Ret (self', inl e)
    end)
  ≈ bindT round (fun l => while_True body l) self.
Proof.
  unfold bindT. rewrite bind_bind. apply eqit_bind; [reflexivity|].
  intros [self' [e|l]].
  - rewrite bind_ret_l. reflexivity.
  - unfold sync, ret. rewrite bind_ret_l. rewrite tau_eutt. reflexivity.
Qed.

Lemma forward_link_closing_unfold (url : string) (request : Request)
  (ws : WebSocket) (bot : option Bot) (self : Adapter) :
  forward_link_closing url request ws bot self ≈
  Vis (Await self (websocket_close ws 1000 "")) (fun r =>
    Vis (Await (dropped bot (fst r)) (asyncio_sleep RECONNECT_INTERVAL)) (fun r' =>
      forward_link url request None (fst r'))).
Proof.
  unfold forward_link_closing, _forward_ws_finally.
  rewrite bindT_bindT, bindT_attempt_await.
  apply eqit_Vis. intros [self1 c]. cbn [fst snd].
  destruct bot as [b|].
  - rewrite bindT_bindT, bindT_sync. cbn [modify].
    rewrite bindT_bindT, bindT_sync. cbn [bot_disconnect modify].
    rewrite bindT_sync. cbn [ret].
    rewrite bindT_sleep. reflexivity.
  - rewrite bindT_sync. cbn [ret]. rewrite bindT_sleep. reflexivity.
Qed.

Lemma forward_link_unfold (url : string) (request : Request)
  (bot : option Bot) (self : Adapter) :
  forward_link url request bot self ≈
  Vis (Await self (websocket_connect request)) (fun r =>
    match snd r with
    | inl e =>
        Vis (Await (connect_failed url e (fst r))
               (asyncio_sleep RECONNECT_INTERVAL)) (fun r' =>
          forward_link url request bot (fst r'))
    | inr ws =>
        forward_link_receiving url request ws bot (established url (fst r))
    end).
Proof.
  unfold forward_link at 1. rewrite while_True_unfold.
  unfold _forward_ws_attempt. rewrite bindT_attempt_await, bind_vis.
  apply eqit_Vis. intros [self1 [e|ws]]; cbn [fst snd].
  - rewrite bindT_sync. cbn [log modify]. rewrite bindT_sleep, bind_vis.
    apply eqit_Vis. intros [self2 []]. cbn [fst snd].
    unfold sync, ret. rewrite bind_ret_l, tau_eutt. reflexivity.
  - rewrite while_True_round. fold (forward_link url request).
    unfold _forward_ws_connected, forward_link_receiving.
    rewrite bindT_bindT, bindT_sync. cbn [log modify].
    rewrite bindT_bindT. apply bindT_cong. intros bot1 self2.
    unfold forward_link_closing.
    rewrite bindT_bindT. apply bindT_cong. intros bot2 self3.
    rewrite bindT_bindT. apply bindT_cong. intros [] self4.
    rewrite bindT_sync. reflexivity.
Qed.

Lemma bind_sync {A B} (m : Sync A) (self : Adapter)
  (k : Adapter * (exn + A) -> itree asyncE B) :
  ITree.bind (sync m self) k ≅ k (m self).
Proof. unfold sync. apply bind_ret_l. Qed.

(** One round of the inner loop: a single await, then synchronous code. *)
Lemma _forward_ws_receive_unfold (url : string) (ws : WebSocket)
  (bot : option Bot) (self : Adapter) :
  _forward_ws_receive url ws bot self ≅
  Vis (Await self (websocket_receive ws)) (fun r =>
    Ret match snd r with
        | inl e => (receive_failed url e (fst r), inr (inr bot))
        | inr data =>
            match _forward_ws_dispatch ws data bot (fst r) with
            | (bot', self', inr _) => (self', inr (inl bot'))
            | (bot', self', inl e) => (receive_failed url e self', inr (inr bot'))
            end
        end).
Proof.
  unfold _forward_ws_receive. rewrite bindT_attempt_await.
  apply eqit_Vis. intros [self1 [e|data]]; cbn [fst snd].
  - rewrite bindT_sync. cbn [ret]. rewrite bindT_sync. reflexivity.
  - rewrite bindT_sync. unfold leave.
    destruct (_forward_ws_dispatch ws data bot self1) as [[bot' self2] [e|[]]].
    + rewrite bindT_sync. reflexivity.
    + reflexivity.
Qed.

Lemma forward_link_receiving_unfold (url : string) (request : Request)
  (ws : WebSocket) (bot : option Bot) (self : Adapter) :
  forward_link_receiving url request ws bot self ≈
  Vis (Await self (websocket_receive ws)) (fun r =>
    match snd r with
    | inl e =>
        forward_link_closing url request ws bot (receive_failed url e (fst r))
    | inr data =>
        match _forward_ws_dispatch ws data bot (fst r) with
        | (bot', self', inr _) => forward_link_receiving url request ws bot' self'
        | (bot', self', inl e) =>
            forward_link_closing url request ws bot' (receive_failed url e self')
        end
    end).
Proof.
  unfold forward_link_receiving at 1. unfold bindT at 1.
  rewrite while_True_unfold, bind_bind, _forward_ws_receive_unfold, bind_vis.
  apply eqit_Vis. intros [self1 [e|data]]; cbn [fst snd].
  - rewrite !bind_ret_l. reflexivity.
  - destruct (_forward_ws_dispatch ws data bot self1) as [[bot' self2] [e|[]]];
      rewrite !bind_ret_l.
    + reflexivity.
    + rewrite bind_tau, tau_eutt. reflexivity.
Qed.

Lemma _forward_ws_is_forward_link (url : string) (self : Adapter) :
  _forward_ws url self ≅ forward_link url (forward_request url self) None self.
Proof.
  unfold _forward_ws, _forward_ws_request.
  rewrite bindT_bindT, bindT_sync. cbn [gets].
  rewrite bindT_sync. reflexivity.
Qed.

(** However many connects fail in a row, each is followed by one sleep of
    [RECONNECT_INTERVAL] and the link is at the top of its loop again. *)
Lemma forward_link_failed_connects (url : string) (request : Request)
  (bot : option Bot) (failures : list (exn * Adapter * Adapter)) :
  forall self,
    steps (forward_link url request bot self)
      (failed_connects url request self failures)
      (forward_link url request bot (after_failures self failures)).
Proof.
  induction failures as [|[[e found] woke] failures IH]; intros self; simpl.
  - apply steps_here. reflexivity.
  - eapply steps_await; [apply forward_link_unfold|]. cbn [fst snd].
    eapply steps_await; [reflexivity|]. cbn [fst snd]. apply IH.
Qed.

(** An exception after the connect, whatever the inner loop had reached:
    the socket is closed, the bot dropped, and after one sleep of
    [RECONNECT_INTERVAL] the link is at the top of its loop again. *)
Lemma forward_link_closing_steps (url : string) (request : Request)
  (ws : WebSocket) (bot : option Bot) (self closed woke : Adapter)
  (c : exn + unit) :
  steps (forward_link_closing url request ws bot self)
    [Resumed self (websocket_close ws 1000 "") closed c;
     Resumed (dropped bot closed) (asyncio_sleep RECONNECT_INTERVAL) woke tt]
    (forward_link url request None woke).
Proof.
  eapply steps_await; [apply forward_link_closing_unfold|]. cbn [fst snd].
  eapply steps_await; [reflexivity|]. cbn [fst snd].
  apply steps_here. reflexivity.
Qed.

(** Two coroutines that are the same up to silent steps and both suspended
    go on in the same way, whatever they are resumed with. *)
Lemma vis_eutt_continuations {A X1 X2} (e1 : asyncE X1) (e2 : asyncE X2)
  (k1 : X1 -> itree asyncE A) (k2 : X2 -> itree asyncE A) :
  Vis e1 k1 ≈ Vis e2 k2 -> forall x1, exists x2, k1 x1 ≈ k2 x2.
Proof.
  intros H x1. apply eqit_inv_Vis_weak in H. destruct H as (p & _ & Hk).
  revert e2 k2 Hk. destruct p. intros e2 k2 Hk. exists x1. apply Hk.
Qed.

Lemma vis_not_ret {A X} (e : asyncE X) (k : X -> itree asyncE A) (r : A) :
  ~ (Vis e k ≈ Ret r).
Proof. intros H. apply eqit_inv in H. exact H. Qed.

Lemma link_point_eutt (url : string) (request : Request)
  (t u : itree asyncE (Adapter * (exn + Empty_set))) :
  t ≈ u -> link_point url request u -> link_point url request t.
Proof.
  intros Htu [bot self H|bot self H|ws bot self H|ws bot self H].
  - eapply at_connect. rewrite Htu. exact H.
  - eapply at_sleep. rewrite Htu. exact H.
  - eapply at_receive. rewrite Htu. exact H.
  - eapply at_close. rewrite Htu. exact H.
Qed.

(** At each of its points the link is suspended, and whatever it is resumed
    with takes it to one of its points. *)
Lemma link_point_suspended (url : string) (request : Request)
  (t : itree asyncE (Adapter * (exn + Empty_set))) :
  link_point url request t ->
  exists X (e : asyncE X) k,
    t ≈ Vis e k /\ forall x, link_point url request (k x).
Proof.
  intros [bot self H|bot self H|ws bot self H|ws bot self H].
  - eexists _, _, _. split.
    + rewrite H. apply forward_link_unfold.
    + intros [found [e|ws]]; cbn [fst snd].
      * eapply at_sleep. reflexivity.
      * eapply at_receive. reflexivity.
  - eexists _, _, _. split; [exact H|].
    intros [woke []]. cbn [fst]. eapply at_connect. reflexivity.
  - eexists _, _, _. split.
    + rewrite H. apply forward_link_receiving_unfold.
    + intros [found [e|data]]; cbn [fst snd].
      * eapply at_close. reflexivity.
      * destruct (_forward_ws_dispatch ws data bot found)
          as [[bot' handled] [e|[]]].
        -- eapply at_close. reflexivity.
        -- eapply at_receive. reflexivity.
  - eexists _, _, _. split.
    + rewrite H. apply forward_link_closing_unfold.
    + intros [closed c]. cbn [fst]. eapply at_sleep. reflexivity.
Qed.

(** However the link is resumed, it stays at its points. *)
Lemma link_point_steps (url : string) (request : Request)
  (t t' : itree asyncE (Adapter * (exn + Empty_set)))
  (trace : list interaction) :
  steps t trace t' -> link_point url request t -> link_point url request t'.
Proof.
  induction 1 as [t t' Heq|R t left a k found answer rest t' Heq Hrest IH];
    intros Hpoint.
  - eapply link_point_eutt; [symmetry; exact Heq|exact Hpoint].
  - apply IH.
    destruct (link_point_suspended url request t Hpoint) as (X & e & k0 & Ht & Hk0).
    rewrite Heq in Ht.
    destruct (vis_eutt_continuations _ _ _ _ Ht (found, answer)) as [x0 Hx0].
    eapply link_point_eutt; [exact Hx0|apply Hk0].
Qed.

(** C9.  The interval is 3.  The link of a configured URL, after any number
    of failed connects, has slept [RECONNECT_INTERVAL] once per failure and
    is about to connect again with the same request: the wait does not
    grow and no count of attempts is kept.  A connect that succeeds leads
    into the receive loop; an exception there, raised by the receive or
    while the frame is handled, closes the socket and, after one sleep of
    [RECONNECT_INTERVAL], leads back to the connect.  And whatever the link
    is resumed with, it is suspended again: it neither returns nor
    raises. *)
Theorem _forward_ws_reconnects (url : string) (self : Adapter) :
  let request := forward_request url self in
  RECONNECT_INTERVAL = 3%Q /\
  (forall failures,
      steps (_forward_ws url self)
        (failed_connects url request self failures)
        (forward_link url request None (after_failures self failures))) /\
  (forall bot left found ws,
      steps (forward_link url request bot left)
        [Resumed left (websocket_connect request) found (inr ws)]
        (forward_link_receiving url request ws bot (established url found))) /\
  (forall ws bot left found e closed c woke,
      steps (forward_link_receiving url request ws bot left)
        [Resumed left (websocket_receive ws) found (inl e);
         Resumed (receive_failed url e found) (websocket_close ws 1000 "") closed c;
         Resumed (dropped bot closed) (asyncio_sleep RECONNECT_INTERVAL) woke tt]
        (forward_link url request None woke)) /\
  (forall ws bot left found data bot' handled e closed c woke,
      _forward_ws_dispatch ws data bot found = (bot', handled, inl e) ->
      steps (forward_link_receiving url request ws bot left)
        [Resumed left (websocket_receive ws) found (inr data);
         Resumed (receive_failed url e handled) (websocket_close ws 1000 "") closed c;
         Resumed (dropped bot' closed) (asyncio_sleep RECONNECT_INTERVAL) woke tt]
        (forward_link url request None woke)) /\
  (forall trace t',
      steps (_forward_ws url self) trace t' ->
      link_point url request t' /\ forall r, ~ (t' ≈ Ret r)).
Proof.
  intros request. split; [reflexivity|]. split; [|split; [|split; [|split]]].
  - intros failures. eapply steps_eutt.
    + rewrite _forward_ws_is_forward_link. reflexivity.
    + apply forward_link_failed_connects.
  - intros bot left found ws.
    eapply steps_await; [apply forward_link_unfold|]. cbn [fst snd].
    apply steps_here. reflexivity.
  - intros ws bot left found e closed c woke.
    eapply steps_await; [apply forward_link_receiving_unfold|]. cbn [fst snd].
    apply forward_link_closing_steps.
  - intros ws bot left found data bot' handled e closed c woke Hraise.
    eapply steps_await; [apply forward_link_receiving_unfold|]. cbn [fst snd].
    rewrite Hraise. apply forward_link_closing_steps.
  - intros trace t' Hsteps.
    assert (Hpoint : link_point url request t').
    { eapply link_point_steps; [exact Hsteps|].
      eapply at_connect. rewrite _forward_ws_is_forward_link. reflexivity. }
    split; [exact Hpoint|]. intros r Hret.
    destruct (link_point_suspended url request t' Hpoint) as (X & e & k & Ht & _).
    rewrite Hret in Ht. symmetry in Ht. exact (vis_not_ret _ _ _ Ht).
Qed.

(** Lines 318-326: a link without bot receives the lifecycle event of a
    peer.  The local variable and the connection table are written first;
    then [bot_connect] refuses an identity that is a bot already. *)
Lemma _forward_ws_dispatch_connect (ws : WebSocket) (data : string)
  (json_data : json) (event : Event) (self self1 : Adapter) :
  json_loads data = inr json_data ->
  json_to_event json_data None self = (self1, inr (Some event)) ->
  isinstance_LifecycleMetaEvent event = true ->
  event_sub_type event = "connect" ->
  let identity := pretty (event_self_id event) in
  let bot := {| self_id := identity |} in
  let written := set_connections (fun c => <[identity := ws]> c) self1 in
  _forward_ws_dispatch ws data None self =
  match bots self1 !! identity with
  | Some _ => (Some bot, written, inl (duplicate_bot_connection identity))
  | None =>
      (Some bot,
       set_spawned (fun l => (l ++ [(bot, event)])%list)
         (set_journal (fun j =>
            (j ++ [{| level := "INFO";
                      message := "<y>Bot " ++ escape_tag identity ++ "</y> connected";
                      exception := None |}])%list)
            (set_bots (fun b => <[identity := bot]> b) written)),
       inr tt)
  end.
Proof.
  intros Hloads Hparse Hlife Hsub identity bot written.
  unfold _forward_ws_dispatch.
  unfold bindL at 1. unfold keep at 1. unfold lift. rewrite Hloads.
  unfold bindL at 1. unfold local at 1.
  unfold bindL at 1. unfold keep at 1.
  cbn [fmap option_fmap option_map]. rewrite Hparse.
  rewrite Hlife, Hsub, String.eqb_refl. cbn [negb orb].
  unfold bindL at 1. unfold assign at 1.
  unfold bindL at 1. unfold keep at 1. unfold modify at 1.
  unfold bindL at 1. unfold keep at 1.
  fold identity. fold bot. fold written.
  destruct (bots self1 !! identity) as [known|] eqn:Hbot.
  - rewrite bot_connect_known by (cbn; rewrite Hbot; eauto). reflexivity.
  - rewrite bot_connect_new by exact Hbot. reflexivity.
Qed.

(** C1.  The claim does not hold of the forward link: when [_forward_ws]
    receives the handshake frame of a peer whose identity already has a
    connection, the new socket takes the place of the old one in the
    connection table, for nothing on this path looks the identity up before
    line 320 writes.  If the identity is no bot, the link goes on as the
    connection of the peer.  If it is a bot, [bot_connect] raises after the
    table is written; the exception is caught in the link, which closes
    its own socket and then, the local variable [bot] being assigned
    already, deletes the entries of the identity from both tables: the
    connection that was there first is registered no more, and its bot is
    gone. *)
Theorem _forward_ws_dispatch_replaces_connection (ws old : WebSocket)
  (data : string) (json_data : json) (event : Event) (self : Adapter) :
  let identity := pretty (event_self_id event) in
  let bot := {| self_id := identity |} in
  json_loads data = inr json_data ->
  snd (json_to_event json_data None self) = inr (Some event) ->
  isinstance_LifecycleMetaEvent event = true ->
  event_sub_type event = "connect" ->
  connections self !! identity = Some old ->
  exists self' r,
    _forward_ws_dispatch ws data None self = (Some bot, self', r) /\
    connections self' = <[identity := ws]> (connections self) /\
    connections self' !! identity = Some ws /\
    (bots self !! identity = None ->
     r = inr tt /\ bots self' = <[identity := bot]> (bots self)) /\
    (is_Some (bots self !! identity) ->
     r = inl (duplicate_bot_connection identity) /\
     bots self' = bots self /\
     forall url request left closed c woke,
       steps (forward_link_receiving url request ws None left)
         [Resumed left (websocket_receive ws) self (inr data);
          Resumed (receive_failed url (duplicate_bot_connection identity) self')
            (websocket_close ws 1000 "") closed c;
          Resumed (dropped (Some bot) closed)
            (asyncio_sleep RECONNECT_INTERVAL) woke tt]
         (forward_link url request None woke) /\
       connections (dropped (Some bot) closed) !! identity = None /\
       bots (dropped (Some bot) closed) !! identity = None).
Proof.
  intros identity bot Hloads Hevent Hlife Hsub Hold.
  pose proof (json_to_event_frame json_data None self) as [Hconn Hbots].
  destruct (json_to_event json_data None self) as [self1 parsed] eqn:Hparse.
  cbn [fst snd] in Hconn, Hbots, Hevent. subst parsed.
  pose proof (_forward_ws_dispatch_connect ws data json_data event self self1
                Hloads Hparse Hlife Hsub) as Hdispatch.
  cbv zeta in Hdispatch. fold identity in Hdispatch. fold bot in Hdispatch.
  rewrite Hbots in Hdispatch.
  destruct (bots self !! identity) as [known|] eqn:Hbot.
  - eexists _, _. split; [exact Hdispatch|].
    cbn [connections set_connections bots]. rewrite Hconn, Hbots.
    split; [reflexivity|]. split; [apply lookup_insert_eq|].
    split; [discriminate|]. intros _.
    split; [reflexivity|]. split; [reflexivity|].
    intros url request left closed c woke. split; [|split].
    + eapply steps_await; [apply forward_link_receiving_unfold|]. cbn [fst snd].
      rewrite Hdispatch. apply forward_link_closing_steps.
    + cbn. apply lookup_delete_eq.
    + cbn. apply lookup_delete_eq.
  - eexists _, _. split; [exact Hdispatch|].
    cbn [connections set_connections set_spawned set_journal set_bots bots].
    rewrite Hconn, Hbots.
    split; [reflexivity|]. split; [apply lookup_insert_eq|].
    split; [done|]. by intros [? ?].
Qed.


End ForwardLink.


(** ** The registry of event models *)

Section Registry.
Context `{RT : Runtime}.

Lemma path_of_dotted_name (name : string) :
  _path_from_key ("." ++ name) = "" :: str_split "." name.
Proof. reflexivity. Qed.

(** The first segment of a name is empty only for the empty name and for a
    name that begins with a dot. *)
Lemma str_split_head_empty (name : string) (rest : list string) :
  str_split "." name = "" :: rest ->
  name = "" \/ exists name', name = String "." name'.
Proof.
  destruct name as [|c name]; [by left|]. simpl.
  destruct (Ascii.eqb c ".") eqn:E.
  - apply Ascii.eqb_eq in E as ->. right. by eexists.
  - destruct (str_split "." name); discriminate.
Qed.

Lemma prefixes_walk_snoc {V} (t : StringTrie V) (pos a : list string)
  (x : string) :
  prefixes_walk t pos (a ++ [x]) =
  (prefixes_walk t pos a ++
   match t !! (pos ++ a ++ [x])%list with
   | Some value => [(pos ++ a ++ [x], value)]
   | None => []
   end)%list.
Proof.
  rewrite prefixes_walk_app. simpl. by rewrite app_nil_r.
Qed.

(** The walk only looks at the prefixes of the path it is given. *)
Lemma prefixes_walk_insert_other {V} (t : StringTrie V) (key : list string)
  (value : V) (rest : list string) :
  forall pos,
    (forall ext, ext `prefix_of` rest -> key <> (pos ++ ext)%list) ->
    prefixes_walk (<[key := value]> t) pos rest = prefixes_walk t pos rest.
Proof.
  induction rest as [|step rest IH]; intros pos Hother; simpl.
  - rewrite lookup_insert_ne; [done|].
    rewrite <- (app_nil_r pos) at 1. by apply Hother.
  - rewrite lookup_insert_ne.
    + f_equal. apply IH. intros ext Hext. rewrite <- app_assoc.
      apply Hother. by apply prefix_cons.
    + rewrite <- (app_nil_r pos) at 1. apply Hother. apply prefix_nil.
Qed.

(** The walk yields its steps by strictly growing length of path. *)
Lemma prefixes_walk_increasing {V} (t : StringTrie V) (rest : list string) :
  forall pos l1 a l2 b l3,
    prefixes_walk t pos rest = (l1 ++ a :: l2 ++ b :: l3)%list ->
    (length (fst a) < length (fst b))%nat.
Proof.
  induction rest as [|step rest IH]; intros pos l1 a l2 b l3 Hwalk.
  - simpl in Hwalk. rewrite app_nil_r in Hwalk.
    apply (f_equal length) in Hwalk.
    rewrite length_app in Hwalk. cbn [length] in Hwalk.
    rewrite length_app in Hwalk. cbn [length] in Hwalk.
    destruct (t !! pos); cbn [length] in Hwalk; lia.
  - simpl in Hwalk.
    assert (Hlater : forall l1 a l2 b l3,
               prefixes_walk t (pos ++ [step]) rest = (l1 ++ a :: l2 ++ b :: l3)%list ->
               (length (fst a) < length (fst b))%nat) by apply IH.
    destruct (t !! pos) as [value|]; simpl in Hwalk; [|by eapply Hlater].
    destruct l1 as [|first l1]; simpl in Hwalk.
    + injection Hwalk as <- Hrest. simpl.
      assert (Hin : In b (prefixes_walk t (pos ++ [step]) rest)).
      { rewrite Hrest. apply in_or_app. right. by left. }
      destruct b as [k v]. apply prefixes_walk_sound in Hin as [_ (ext & -> & _)].
      simpl. rewrite !length_app. simpl. lia.
    + injection Hwalk as _ Hrest. by eapply Hlater.
Qed.

Lemma rev_between {A} (l l1 l2 l3 : list A) (a b : A) :
  List.rev l = (l1 ++ a :: l2 ++ b :: l3)%list ->
  l = (List.rev l3 ++ b :: List.rev l2 ++ a :: List.rev l1)%list.
Proof.
  intros H. apply (f_equal (@List.rev A)) in H. rewrite rev_involutive in H.
  rewrite H.
  repeat first [ rewrite rev_app_distr | rewrite <- app_assoc | progress simpl ].
  reflexivity.
Qed.

(** X1.  The candidates of [get_event_model] for a name are the models
    registered at the prefixes of the path of the name and nothing else,
    the longest path first: whenever one candidate stands before another,
    its path is strictly longer. *)
Theorem get_event_model_longest_prefix_first (t : StringTrie Model)
  (name : string) :
  exists found : list (list string * Model),
    get_event_model t name = List.map snd found /\
    (forall k model,
        In (k, model) found <->
        k `prefix_of` _path_from_key ("." ++ name) /\ t !! k = Some model) /\
    (forall before a between b after,
        found = (before ++ a :: between ++ b :: after)%list ->
        (length (fst b) < length (fst a))%nat).
Proof.
  exists (List.rev (prefixes ("." ++ name) t)). split; [|split].
  - unfold get_event_model. by rewrite map_rev.
  - intros k model. rewrite <- in_rev. unfold prefixes. split.
    + intros Hin. apply prefixes_walk_sound in Hin as [Hk (ext & -> & Hp)]. done.
    + intros [Hp Hk]. by apply (prefixes_walk_complete t _ [] k model).
  - intros before a between b after Hfound.
    apply rev_between in Hfound. unfold prefixes in Hfound.
    by eapply prefixes_walk_increasing.
Qed.

Lemma init_event_models_well_keyed : well_keyed init_event_models.
Proof.
  unfold init_event_models.
  assert (H : forall models t, well_keyed t ->
            well_keyed (fold_left
              (fun t model => trie_setitem ("." ++ __event__ model) model t)
              models t)).
  { induction models as [|model models IH]; intros t Ht; simpl; [done|].
    apply IH. intros k m. unfold trie_setitem.
    rewrite lookup_insert_Some. intros [[<- <-]|[_ Hk]]; [done|by apply Ht]. }
  apply H. intros k m. by rewrite lookup_empty.
Qed.

Lemma add_custom_model_well_keyed (model : Model) (self : Adapter) :
  well_keyed (event_models self) ->
  well_keyed (event_models (fst (add_custom_model model self))).
Proof.
  intros Ht. unfold add_custom_model.
  destruct (String.eqb (__event__ model) ""); simpl; [done|].
  intros k m. unfold trie_setitem.
  rewrite lookup_insert_Some. intros [[<- <-]|[_ Hk]]; [done|by apply Ht].
Qed.

(** The path of a name that is not empty is not the path of the empty
    name. *)
Lemma path_of_named (name : string) :
  name <> "" -> _path_from_key ("." ++ name) <> _path_from_key ("." ++ "").
Proof.
  intros Hne. rewrite !path_of_dotted_name. simpl. intros [= H].
  destruct name as [|c name]; [done|]. simpl in H.
  destruct (Ascii.eqb c ".").
  - injection H as H. by apply (str_split_not_nil "." name).
  - destruct (str_split "." name); discriminate.
Qed.

(** X2.  The registry holds every model under the path of its own
    [__event__]: so the class body leaves it, and so [add_custom_model]
    keeps it.  And [add_custom_model] never writes the entry of the empty
    name. *)
Theorem event_models_well_keyed :
  well_keyed init_event_models /\
  (forall (model : Model) (self : Adapter),
      well_keyed (event_models self) ->
      well_keyed (event_models (fst (add_custom_model model self)))) /\
  (forall (model : Model) (self : Adapter),
      event_models (fst (add_custom_model model self)) !! _path_from_key ("." ++ "")
      = event_models self !! _path_from_key ("." ++ "")).
Proof.
  split; [apply init_event_models_well_keyed|].
  split; [apply add_custom_model_well_keyed|].
  intros model self. unfold add_custom_model.
  destruct (String.eqb (__event__ model) "") eqn:E; [reflexivity|].
  apply String.eqb_neq in E. cbn [fst modify event_models set_event_models].
  unfold trie_setitem. apply lookup_insert_ne. by apply path_of_named.
Qed.

(** X3.  In a registry that holds every model under its own name, a base
    class whose [__event__] is empty is no candidate for a name that is not
    empty and does not begin with a dot: [get_event_model] leaves the base
    class to the [else] of the loop in [json_to_event]. *)
Theorem get_event_model_excludes_base (t : StringTrie Model) (name : string) :
  well_keyed t ->
  __event__ EventBase = "" ->
  name <> "" ->
  (forall name', name <> String "." name') ->
  ~ In EventBase (get_event_model t name).
Proof.
  intros Ht Hbase Hne Hdot Hin.
  apply get_event_model_candidates in Hin as (k & Hp & Hk).
  apply Ht in Hk. rewrite Hbase in Hk. subst k.
  rewrite path_of_dotted_name in Hp. simpl in Hp.
  destruct Hp as [ext Hext]. simpl in Hext. injection Hext as Hext.
  destruct (str_split_head_empty name ext Hext) as [->|[name' ->]].
  - by apply Hne.
  - by apply (Hdot name').
Qed.


Lemma path_split_last (name : string) :
  exists shorter last,
    _path_from_key ("." ++ name) = (shorter ++ [last])%list.
Proof.
  destruct (@exists_last _ (_path_from_key ("." ++ name))) as (shorter & last & H).
  - rewrite path_of_dotted_name. done.
  - eauto.
Qed.

Lemma longer_than_prefixes {A} (shorter ext : list A) (last : A) :
  ext `prefix_of` shorter -> (shorter ++ [last])%list <> ([] ++ ext)%list.
Proof.
  intros Hp Heq. apply prefix_length in Hp. apply (f_equal length) in Heq.
  rewrite length_app in Heq. simpl in Heq. lia.
Qed.

(** After [trie_setitem] the model is the first candidate of its own name;
    the candidates after it are those of the shorter paths, as before. *)
Lemma registered_first_candidate (model : Model) (t : StringTrie Model) :
  exists less_specific,
    get_event_model (trie_setitem ("." ++ __event__ model) model t) (__event__ model)
    = model :: less_specific /\
    (get_event_model t (__event__ model) = less_specific \/
     exists old,
       registered t (__event__ model) old /\
       get_event_model t (__event__ model) = old :: less_specific).
Proof.
  destruct (path_split_last (__event__ model)) as (shorter & last & Hpath).
  exists (List.rev (List.map snd (prefixes_walk t [] shorter))).
  unfold get_event_model, prefixes, registered.
  unfold trie_setitem. rewrite Hpath, !prefixes_walk_snoc. cbn [app].
  rewrite lookup_insert_eq.
  rewrite prefixes_walk_insert_other
    by (intros ext Hext; by apply longer_than_prefixes).
  split.
  - rewrite map_app, rev_app_distr. reflexivity.
  - destruct (t !! (shorter ++ [last])%list) as [old|].
    + right. exists old. split; [reflexivity|].
      rewrite map_app, rev_app_distr. reflexivity.
    + left. by rewrite app_nil_r.
Qed.

(** X4.  A model that has a name is, once [add_custom_model] has registered
    it, the first candidate for its own name.  Behind it come the
    candidates of the shorter paths, as before; the model that was
    registered under the name before, if there was one, is gone. *)
Theorem add_custom_model_first_candidate (model : Model) (self : Adapter) :
  __event__ model <> "" ->
  exists self' less_specific,
    add_custom_model model self = (self', inr tt) /\
    get_event_model (event_models self') (__event__ model)
    = model :: less_specific /\
    (get_event_model (event_models self) (__event__ model) = less_specific \/
     exists old,
       registered (event_models self) (__event__ model) old /\
       get_event_model (event_models self) (__event__ model) = old :: less_specific).
Proof.
  intros Hne. unfold add_custom_model.
  replace (String.eqb (__event__ model) "") with false
    by (symmetry; by apply String.eqb_neq).
  destruct (registered_first_candidate model (event_models self))
    as (less_specific & Hfirst & Hrest).
  eexists _, less_specific. split; [reflexivity|]. split; [exact Hfirst|exact Hrest].
Qed.

(** X5.  After [add_custom_model] a payload whose classification path is
    the [__event__] of the model, and that the model validates, is parsed
    as an event of the model. *)
Theorem add_custom_model_takes_effect (model : Model) (d : list (string * json))
  (primary_type : string) (self_id : option string) (event : Event)
  (self : Adapter) :
  __event__ model <> "" ->
  dict_get "post_type" d = Some (JString primary_type) ->
  classification_path primary_type
    (dict_get (primary_type ++ "_type") d) (dict_get "sub_type" d)
  = __event__ model ->
  parse_obj model (JDict d) = inr event ->
  snd (json_to_event (JDict d) self_id (fst (add_custom_model model self)))
  = inr (Some event).
Proof.
  intros Hne Hpt Hpath Hok. unfold add_custom_model.
  replace (String.eqb (__event__ model) "") with false
    by (symmetry; by apply String.eqb_neq).
  cbn [fst modify].
  rewrite (json_to_event_post_type d _ self_id _ Hpt), event_name_of_str, Hpath.
  cbn [event_models set_event_models].
  destruct (registered_first_candidate model (event_models self))
    as (less_specific & -> & _).
  cbn [parse_models]. rewrite Hok. reflexivity.
Qed.

(** X6.  [add_custom_model] does not change the candidates of a name whose
    path does not begin with the path of the model's name, whether the
    model is registered or refused. *)
Theorem add_custom_model_local (model : Model) (self : Adapter) (name : string) :
  ~ _path_from_key ("." ++ __event__ model) `prefix_of` _path_from_key ("." ++ name) ->
  get_event_model (event_models (fst (add_custom_model model self))) name
  = get_event_model (event_models self) name.
Proof.
  intros Hnp. unfold add_custom_model.
  destruct (String.eqb (__event__ model) ""); simpl; [reflexivity|].
  unfold get_event_model, prefixes, trie_setitem.
  rewrite prefixes_walk_insert_other; [reflexivity|].
  intros ext Hext Heq. apply Hnp. rewrite Heq. exact Hext.
Qed.

(** Splitting loses nothing: the name is its path joined again. *)
Lemma str_join_split (sep : ascii) (s : string) :
  str_join sep (str_split sep s) = s.
Proof.
  induction s as [|c s IH]; [reflexivity|]. cbn [str_split].
  pose proof (str_split_not_nil sep s) as Hne.
  destruct (Ascii.eqb c sep) eqn:E.
  - apply Ascii.eqb_eq in E as ->.
    destruct (str_split sep s) as [|w ws]; [done|].
    cbn [str_join]. cbn [str_join] in IH. by rewrite IH.
  - destruct (str_split sep s) as [|w ws]; [done|].
    destruct ws as [|w' ws]; cbn [str_join] in *; by rewrite <- IH.
Qed.

Lemma path_of_name_inj (a b : string) :
  _path_from_key ("." ++ a) = _path_from_key ("." ++ b) -> a = b.
Proof.
  rewrite !path_of_dotted_name. intros [= H].
  by rewrite <- (str_join_split "." a), <- (str_join_split "." b), H.
Qed.

(** X28.  [add_custom_model] leaves the entry of every other name as it is:
    a model is only ever replaced by a model of the same [__event__]. *)
Theorem add_custom_model_keeps_other_names (model : Model) (self : Adapter)
  (name : string) :
  name <> __event__ model ->
  event_models (fst (add_custom_model model self)) !! _path_from_key ("." ++ name)
  = event_models self !! _path_from_key ("." ++ name).
Proof.
  intros Hne. unfold add_custom_model.
  destruct (String.eqb (__event__ model) ""); [reflexivity|].
  cbn [fst modify event_models set_event_models]. unfold trie_setitem.
  apply lookup_insert_ne. intros Heq. apply Hne.
  symmetry. by apply path_of_name_inj.
Qed.

(** X27.  A payload whose classification path has no candidate in the
    registry is parsed by the base class alone: the result is the event
    that the base class makes of it, nothing being logged, or [None] with
    the failure on the log. *)
Theorem json_to_event_unknown_type (d : list (string * json))
  (primary_type : string) (self_id : option string) (self : Adapter) :
  dict_get "post_type" d = Some (JString primary_type) ->
  get_event_model (event_models self)
    (classification_path primary_type
       (dict_get (primary_type ++ "_type") d) (dict_get "sub_type" d)) = [] ->
  json_to_event (JDict d) self_id self =
  match parse_obj EventBase (JDict d) with
  | inr event => (self, inr (Some event))
  | inl e =>
      (set_journal (fun j => (j ++ [parse_failure (JDict d) e])%list) self,
       inr None)
  end.
Proof.
  intros Hpt Hnone.
  rewrite (json_to_event_post_type d _ self_id self Hpt), event_name_of_str, Hnone.
  cbn [parse_models]. unfold lift.
  destruct (parse_obj EventBase (JDict d)); reflexivity.
Qed.

End Registry.


(** ** What a frame can change *)

Section Effects.
Context `{RT : Runtime}.

Lemma logged_refl (self : Adapter) : logged self self.
Proof.
  exists []. destruct self. unfold set_journal. simpl. by rewrite app_nil_r.
Qed.

Lemma logged_trans (a b c : Adapter) : logged a b -> logged b c -> logged a c.
Proof.
  intros [r1 ->] [r2 ->]. exists (r1 ++ r2)%list.
  unfold set_journal. simpl. by rewrite app_assoc.
Qed.

Lemma logged_log (lvl msg : string) (e : option exn) (self : Adapter) :
  logged self (fst (log lvl msg e self)).
Proof. eexists. reflexivity. Qed.

Lemma connections_are_bots_logged (self self' : Adapter) :
  logged self self' -> connections_are_bots self -> connections_are_bots self'.
Proof. intros [records ->] H. exact H. Qed.

Lemma connections_are_bots_dropped (bot : option Bot) (self : Adapter) :
  connections_are_bots self -> connections_are_bots (dropped bot self).
Proof.
  intros H. destruct bot as [b|]; [|exact H].
  intros identity websocket. unfold dropped. simpl.
  destruct (decide (identity = self_id b)) as [->|Hne].
  - by rewrite lookup_delete_eq.
  - rewrite !lookup_delete_ne by done. apply H.
Qed.

Lemma connections_are_bots_registered (identity : string) (websocket : WebSocket)
  (bot : Bot) (self : Adapter) :
  connections_are_bots self ->
  connections_are_bots
    (set_bots (fun b => <[identity := bot]> b)
       (set_connections (fun c => <[identity := websocket]> c) self)).
Proof.
  intros H other ws. simpl.
  destruct (decide (other = identity)) as [->|Hne].
  - intros _. rewrite lookup_insert_eq. eauto.
  - rewrite !lookup_insert_ne by done. apply H.
Qed.

(** Writing the connection of an identity that is a bot. *)
Lemma connections_are_bots_connection_of_bot (identity : string)
  (websocket : WebSocket) (self : Adapter) :
  is_Some (bots self !! identity) ->
  connections_are_bots self ->
  connections_are_bots
    (set_connections (fun c => <[identity := websocket]> c) self).
Proof.
  intros Hbot H other ws. cbn [connections bots set_connections].
  destruct (decide (other = identity)) as [->|Hne].
  - intros _. exact Hbot.
  - rewrite lookup_insert_ne by done. apply H.
Qed.

Lemma connections_are_bots_no_connections (self : Adapter) :
  connections self = ∅ -> connections_are_bots self.
Proof. intros H identity websocket. by rewrite H, lookup_empty. Qed.

Lemma connections_are_bots_same_tables (self self' : Adapter) :
  connections self' = connections self -> bots self' = bots self ->
  connections_are_bots self -> connections_are_bots self'.
Proof. intros Hc Hb H identity websocket. rewrite Hc, Hb. apply H. Qed.

Lemma parse_models_logged (models : list Model) (json_data : json) :
  forall self, logged self (fst (parse_models models json_data self)).
Proof.
  induction models as [|model models IH]; intros self; simpl.
  - apply logged_refl.
  - destruct (parse_obj model json_data) as [e|event]; [|apply logged_refl].
    unfold bind. simpl.
    eapply logged_trans; [|apply IH]. eexists. reflexivity.
Qed.

(** Parsing for a handler that names no identity writes to the log and to
    nothing else, and returns. *)
Lemma json_to_event_logged (json_data : json) (self : Adapter) :
  exists self' result,
    json_to_event json_data None self = (self', inr result) /\ logged self self'.
Proof.
  destruct json_data; try (eexists _, _; split; [reflexivity|apply logged_refl]).
  destruct (dict_get "post_type" d) as [post_type|] eqn:Hpt.
  - rewrite (json_to_event_post_type d post_type None self Hpt).
    destruct (event_name_of d post_type) as [e|name].
    { eexists _, _. split; [reflexivity|]. eexists. reflexivity. }
    pose proof (parse_models_logged (get_event_model (event_models self) name)
                  (JDict d) self) as Hlog.
    destruct (parse_models _ _ _) as [self' [e|event]]; simpl in Hlog.
    + eexists _, _. split; [reflexivity|].
      eapply logged_trans; [exact Hlog|]. eexists. reflexivity.
    + eexists _, _. split; [reflexivity|exact Hlog].
  - unfold json_to_event. rewrite Hpt.
    eexists _, _. split; [reflexivity|apply logged_refl].
Qed.

(** Parsing on a link that knows its identity: a dict without [post_type]
    goes to the result store, which takes it or raises; anything else goes
    to the log at most. *)
Lemma json_to_event_on_link (json_data : json) (identity : string)
  (self : Adapter) :
  exists self' r,
    json_to_event json_data (Some identity) self = (self', r) /\
    ((exists d, json_data = JDict d /\ dict_get "post_type" d = None /\
                let added :=
                  ResultStore_add_result identity json_data (result_store self) in
                self' = set_result_store (fun _ => fst added) self /\
                r = match snd added with
                    | inr _ => inr None
                    | inl e => inl e
                    end) \/
     (exists result, r = inr result /\ logged self self')).
Proof.
  destruct json_data;
    try (eexists _, _; split; [reflexivity|right; eexists; split;
                                            [reflexivity|apply logged_refl]]).
  destruct (dict_get "post_type" d) as [post_type|] eqn:Hpt.
  - rewrite (json_to_event_post_type d post_type (Some identity) self Hpt).
    destruct (event_name_of d post_type) as [e|name].
    { eexists _, _. split; [reflexivity|]. right.
      eexists. split; [reflexivity|]. eexists. reflexivity. }
    pose proof (parse_models_logged (get_event_model (event_models self) name)
                  (JDict d) self) as Hlog.
    destruct (parse_models _ _ _) as [self' [e|event]]; simpl in Hlog.
    + eexists _, _. split; [reflexivity|]. right.
      eexists. split; [reflexivity|].
      eapply logged_trans; [exact Hlog|]. eexists. reflexivity.
    + eexists _, _. split; [reflexivity|]. right. by eexists.
  - unfold json_to_event. rewrite Hpt. unfold bind, add_result.
    destruct (ResultStore_add_result identity (JDict d) (result_store self))
      as [store [e|[]]] eqn:Hadd.
    + eexists _, _. split; [reflexivity|]. left. by exists d.
    + eexists _, _. split; [reflexivity|]. left. by exists d.
Qed.

(** X7.  What [json_to_event] can do.  With one exception it returns, and
    writes to the log and to nothing else.  The exception is a dict without
    [post_type] on a link that names its identity: it goes to the result
    store under that identity, and nothing but the result store is
    changed, the log included.  If [add_result] returns, the result is
    [None]; if it raises, the exception leaves [json_to_event], line 356
    being outside the [try]. *)
Theorem json_to_event_effects (json_data : json) (self_id : option string)
  (self : Adapter) :
  exists self' r,
    json_to_event json_data self_id self = (self', r) /\
    ((exists result, r = inr result /\ logged self self') \/
     exists identity d,
       self_id = Some identity /\ json_data = JDict d /\
       dict_get "post_type" d = None /\
       let added :=
         ResultStore_add_result identity json_data (result_store self) in
       self' = set_result_store (fun _ => fst added) self /\
       r = match snd added with
           | inr _ => inr None
           | inl e => inl e
           end).
Proof.
  destruct self_id as [identity|].
  - destruct (json_to_event_on_link json_data identity self)
      as (self' & r & Hparse & [(d & Hd & Hpt & Hstore)|Hlog]).
    + exists self', r. split; [exact Hparse|]. right. by exists identity, d.
    + exists self', r. split; [exact Hparse|]. by left.
  - destruct (json_to_event_logged json_data self)
      as (self' & result & Hparse & Hlog).
    exists self', (inr result). split; [exact Hparse|]. left. by exists result.
Qed.

(** X8.  What a frame received on a reverse WebSocket can do, lines
    200-203.  If it does not decode, the exception of [json.loads] is
    raised and the adapter is as before.  Otherwise the log may grow and at
    most one task is created, for the bot of the socket.  The result store
    is never written: [json_to_event] is called without identity, so a
    frame without [post_type] is dropped. *)
Theorem _handle_ws_dispatch_effects (bot : Bot) (data : string) (self : Adapter) :
  (forall e, json_loads data = inl e ->
             _handle_ws_dispatch bot data self = (self, inl e)) /\
  (forall json_data,
      json_loads data = inr json_data ->
      exists logged',
        logged self logged' /\
        (_handle_ws_dispatch bot data self = (logged', inr tt) \/
         exists event,
           _handle_ws_dispatch bot data self
           = (set_spawned (fun l => (l ++ [(bot, event)])%list) logged', inr tt))) /\
  result_store (fst (_handle_ws_dispatch bot data self)) = result_store self.
Proof.
  unfold _handle_ws_dispatch. unfold bind at 1. unfold lift.
  destruct (json_loads data) as [e|json_data].
  { split; [|split]; [by intros ? [= <-]|done|done]. }
  destruct (json_to_event_logged json_data self) as (self1 & result & Hparse & Hlog).
  unfold bind. rewrite Hparse.
  split; [done|]. split.
  - intros ? [= <-]. exists self1. split; [exact Hlog|].
    destruct result as [event|]; [right; by exists event|by left].
  - destruct Hlog as [records ->]. by destruct result.
Qed.

(** A frame that decodes, on a forward link that knows its bot. *)
Lemma _forward_ws_dispatch_on_link (ws : WebSocket) (b : Bot)
  (data : string) (json_data : json) (self : Adapter) :
  json_loads data = inr json_data ->
  exists self' r,
    _forward_ws_dispatch ws data (Some b) self = (Some b, self', r) /\
    connections self' = connections self /\
    bots self' = bots self /\
    ((exists d, json_data = JDict d /\ dict_get "post_type" d = None /\
                let added :=
                  ResultStore_add_result (self_id b) json_data
                    (result_store self) in
                self' = set_result_store (fun _ => fst added) self /\
                r = snd added) \/
     (r = inr tt /\
      exists logged',
        logged self logged' /\
        (self' = logged' \/
         exists event,
           self' = set_spawned (fun l => (l ++ [(b, event)])%list) logged'))).
Proof.
  intros Hloads. unfold _forward_ws_dispatch.
  unfold bindL at 1. unfold keep at 1. unfold lift. rewrite Hloads.
  unfold bindL at 1. unfold local at 1.
  unfold bindL at 1. unfold keep at 1. cbn [fmap option_fmap option_map].
  destruct (json_to_event_on_link json_data (self_id b) self)
    as (self1 & r1 & Hparse & Heffect).
  rewrite Hparse.
  destruct Heffect as [(d & -> & Hpt & Hstore)|(result & -> & [records ->])].
  - cbv zeta in Hstore.
    destruct (ResultStore_add_result (self_id b) (JDict d) (result_store self))
      as [store [e|[]]] eqn:Hadd; destruct Hstore as [-> ->].
    + eexists _, _. split; [reflexivity|]. split; [reflexivity|].
      split; [reflexivity|]. left. by exists d.
    + eexists _, _. split; [reflexivity|]. split; [reflexivity|].
      split; [reflexivity|]. left. by exists d.
  - destruct result as [event|].
    + eexists _, _. split; [reflexivity|]. split; [reflexivity|].
      split; [reflexivity|]. right. split; [reflexivity|].
      eexists. split; [by eexists|]. right. by exists event.
    + eexists _, _. split; [reflexivity|]. split; [reflexivity|].
      split; [reflexivity|]. right. split; [reflexivity|].
      eexists. split; [by eexists|]. by left.
Qed.

(** X9.  A frame that decodes, on a forward link that knows its bot, lines
    308-326: the bot stays and the two tables are not written.  A dict
    without [post_type] goes to the result store under the identity of the
    bot, and nothing but the result store is changed; if [add_result]
    raises, the suite is left with that exception.  Any other payload
    writes to the log at most and, when it is an event, creates one task
    for the bot; the suite ends then.  When the suite raises, the link logs
    the exception, closes its socket, drops its bot and, after one sleep of
    [RECONNECT_INTERVAL], connects again. *)
Theorem _forward_ws_dispatch_identified (ws : WebSocket) (b : Bot)
  (data : string) (json_data : json) (self : Adapter) :
  json_loads data = inr json_data ->
  exists self' r,
    _forward_ws_dispatch ws data (Some b) self = (Some b, self', r) /\
    connections self' = connections self /\
    bots self' = bots self /\
    ((exists d, json_data = JDict d /\ dict_get "post_type" d = None /\
                let added :=
                  ResultStore_add_result (self_id b) json_data
                    (result_store self) in
                self' = set_result_store (fun _ => fst added) self /\
                r = snd added) \/
     (r = inr tt /\
      exists logged',
        logged self logged' /\
        (self' = logged' \/
         exists event,
           self' = set_spawned (fun l => (l ++ [(b, event)])%list) logged'))) /\
    (forall e url request left closed c woke,
        r = inl e ->
        steps (forward_link_receiving url request ws (Some b) left)
          [Resumed left (websocket_receive ws) self (inr data);
           Resumed (receive_failed url e self')
             (websocket_close ws 1000 "") closed c;
           Resumed (dropped (Some b) closed)
             (asyncio_sleep RECONNECT_INTERVAL) woke tt]
          (forward_link url request None woke)).
Proof.
  intros Hloads.
  destruct (_forward_ws_dispatch_on_link ws b data json_data self Hloads)
    as (self' & r & Hdispatch & Hc & Hb & Hcases).
  exists self', r. split; [exact Hdispatch|]. split; [exact Hc|].
  split; [exact Hb|]. split; [exact Hcases|].
  intros e url request left closed c woke ->.
  eapply steps_await; [apply forward_link_receiving_unfold|]. cbn [fst snd].
  rewrite Hdispatch. apply forward_link_closing_steps.
Qed.

(** X10.  A frame that decodes, on a forward link that does not know its
    peer yet: unless it is a lifecycle event of sub-type [connect], it is
    dropped.  The link stays without bot and only the log may have grown:
    no task is created, no table and no result store written. *)
Theorem _forward_ws_dispatch_unidentified (ws : WebSocket) (data : string)
  (json_data : json) (self : Adapter) :
  json_loads data = inr json_data ->
  (forall event,
      snd (json_to_event json_data None self) = inr (Some event) ->
      isinstance_LifecycleMetaEvent event = true ->
      event_sub_type event <> "connect") ->
  exists self',
    _forward_ws_dispatch ws data None self = (None, self', inr tt) /\
    logged self self'.
Proof.
  intros Hloads Hnot. unfold _forward_ws_dispatch.
  unfold bindL at 1. unfold keep at 1. unfold lift. rewrite Hloads.
  unfold bindL at 1. unfold local at 1.
  unfold bindL at 1. unfold keep at 1. cbn [fmap option_fmap option_map].
  destruct (json_to_event_logged json_data self) as (self1 & result & Hparse & Hlog).
  rewrite Hparse in Hnot. cbn [snd] in Hnot.
  rewrite Hparse.
  destruct result as [event|]; [|by exists self1].
  destruct (isinstance_LifecycleMetaEvent event) eqn:Hlife; cbn [negb orb].
  - specialize (Hnot event eq_refl Hlife).
    replace (String.eqb (event_sub_type event) "connect") with false
      by (symmetry; by apply String.eqb_neq).
    by exists self1.
  - by exists self1.
Qed.

End Effects.


(** ** What the webhook can change *)

Section WebhookEffects.
Context `{RT : Runtime}.

Lemma _check_signature_logged (request : Request) (self : Adapter) :
  exists self' response,
    _check_signature request self = (self', inr response) /\ logged self self'.
Proof.
  unfold _check_signature, bind, gets, ret, log, modify. simpl.
  destruct (str_truthy (onebot_secret (config self)));
    [|eexists _, _; split; [reflexivity|apply logged_refl]].
  destruct (str_truthy (headers request !! "x-signature")); simpl;
    [|eexists _, _; split; [reflexivity|by eexists]].
  destruct (content request) as [body|];
    [|eexists _, _; split; [reflexivity|apply logged_refl]].
  destruct (opt_str_eqb _ _); simpl.
  - eexists _, _. split; [reflexivity|apply logged_refl].
  - eexists _, _. split; [reflexivity|by eexists].
Qed.

Lemma _check_access_token_logged (request : Request) (self : Adapter) :
  exists self' response,
    _check_access_token request self = (self', inr response) /\ logged self self'.
Proof.
  unfold _check_access_token, bind, gets, ret, log, modify. simpl.
  destruct (str_truthy (onebot_access_token (config self)) && _); simpl.
  - eexists _, _. split; [reflexivity|by eexists].
  - eexists _, _. split; [reflexivity|apply logged_refl].
Qed.

(** The adapter after a webhook request: some records on the log and, when
    the body carried an event, the bot of the identity and one task. *)
Lemma _handle_http_shape (request : Request) (self : Adapter) :
  let identity := default "" (headers request !! "x-self-id") in
  exists records,
    let logged' := set_journal (fun j => (j ++ records)%list) self in
    (exists outcome, _handle_http request self = (logged', outcome)) \/
    (exists event,
        _handle_http request self =
        (match bots self !! identity with
         | Some bot => set_spawned (fun l => (l ++ [(bot, event)])%list) logged'
         | None =>
             set_spawned (fun l => (l ++ [({| self_id := identity |}, event)])%list)
               (set_journal (fun j =>
                  (j ++ [{| level := "INFO";
                            message := "<y>Bot " ++ escape_tag identity
                                         ++ "</y> connected";
                            exception := None |}])%list)
                  (set_bots (fun b => <[identity := {| self_id := identity |}]> b)
                     logged'))
         end,
         inr {| status_code := 204; response_content := None |})).
Proof.
  intros identity.
  remember (_handle_http request self) as outcome eqn:Hres.
  unfold _handle_http in Hres. fold identity in Hres.
  destruct (negb (str_truthy (headers request !! "x-self-id"))).
  { subst outcome. eexists. left. eexists. reflexivity. }
  destruct (_check_signature_logged request self)
    as (self1 & response1 & Hsig & Hlog1).
  unfold bind at 1 in Hres. rewrite Hsig in Hres.
  destruct response1 as [response1|].
  { subst outcome. destruct Hlog1 as [records ->]. exists records.
    left. eexists. reflexivity. }
  destruct (_check_access_token_logged request self1)
    as (self2 & response2 & Htok & Hlog2).
  unfold bind at 1 in Hres. rewrite Htok in Hres.
  pose proof (logged_trans _ _ _ Hlog1 Hlog2) as Hlog12.
  destruct response2 as [response2|].
  { subst outcome. destruct Hlog12 as [records ->]. exists records.
    left. eexists. reflexivity. }
  destruct (content request) as [data|].
  2:{ subst outcome. destruct Hlog12 as [records ->]. exists records.
      left. eexists. reflexivity. }
  unfold bind at 1 in Hres. unfold bind at 1 in Hres. unfold lift in Hres.
  destruct (json_loads data) as [e|json_data].
  { subst outcome. destruct Hlog12 as [records ->]. exists records.
    left. eexists. reflexivity. }
  destruct (json_to_event_logged json_data self2)
    as (self3 & result & Hparse & Hlog3).
  unfold bind at 1 in Hres. rewrite Hparse in Hres.
  destruct (logged_trans _ _ _ Hlog12 Hlog3) as [records ->].
  exists records. subst outcome.
  destruct result as [event|]; [|left; eexists; reflexivity].
  right. exists event.
  unfold bind at 1. unfold bind at 1. unfold bind at 1. unfold gets at 1.
  cbn [bots set_journal].
  destruct (bots self !! identity) as [bot|] eqn:Hbot.
  - reflexivity.
  - unfold bind at 1. rewrite bot_connect_new by exact Hbot. reflexivity.
Qed.

(** X11.  What a webhook request can change, whatever its outcome.  The
    connection table and the result store: never.  The bot table: only at
    the identity of the request, and a bot that is there stays.  And either
    no task is created and the bot table is as before, or the answer is
    204 and one task is created, for the bot of the identity, which is a new
    one when there was none.  So the webhook keeps
    [connections_are_bots]. *)
Theorem _handle_http_effects (request : Request) (self : Adapter) :
  let self' := fst (_handle_http request self) in
  let identity := default "" (headers request !! "x-self-id") in
  connections self' = connections self /\
  result_store self' = result_store self /\
  (forall other, other <> identity -> bots self' !! other = bots self !! other) /\
  (forall bot, bots self !! identity = Some bot ->
               bots self' !! identity = Some bot) /\
  (spawned self' = spawned self /\ bots self' = bots self \/
   exists bot event,
     snd (_handle_http request self)
     = inr {| status_code := 204; response_content := None |} /\
     spawned self' = (spawned self ++ [(bot, event)])%list /\
     bots self' !! identity = Some bot /\
     (bots self !! identity = None -> bot = {| self_id := identity |})) /\
  (connections_are_bots self -> connections_are_bots self').
Proof.
  intros self' identity. subst self'.
  destruct (_handle_http_shape request self) as [records [[outcome ->]|[event ->]]].
  { simpl. repeat split; try done. by left. }
  fold identity.
  destruct (bots self !! identity) as [bot|] eqn:Hbot; simpl.
  - rewrite ?Hbot. repeat split; try done.
    right. by exists bot, event.
  - split; [done|]. split; [done|]. split.
    { intros other Hother. by apply lookup_insert_ne. }
    split; [done|]. split.
    { right. exists {| self_id := identity |}, event.
      by rewrite lookup_insert_eq. }
    intros H other websocket Hc. simpl in *.
    destruct (decide (other = identity)) as [->|Hother].
    + rewrite lookup_insert_eq. eauto.
    + rewrite lookup_insert_ne by done. by eapply H.
Qed.

Lemma opt_str_eqb_true (a b : option string) : opt_str_eqb a b = true -> a = b.
Proof.
  destruct a as [x|], b as [y|]; simpl; try done.
  intros H. apply String.eqb_eq in H. by subst.
Qed.

(** X12.  A webhook request for which a task is created carried an
    identity; with a secret configured, it had a body, and its header
    [x-signature] was [sha1=] followed by the HMAC of that body under the
    secret; with a token configured, its bearer token was the configured
    one. *)
Theorem _handle_http_dispatches_only_authenticated (request : Request)
  (self : Adapter) :
  spawned (fst (_handle_http request self)) <> spawned self ->
  str_truthy (headers request !! "x-self-id") = true /\
  (str_truthy (onebot_secret (config self)) = true ->
   exists body,
     content request = Some body /\
     headers request !! "x-signature"
     = Some ("sha1=" ++ hmac_sha1_hexdigest
                          (default "" (onebot_secret (config self))) body)) /\
  (str_truthy (onebot_access_token (config self)) = true ->
   get_auth_bearer (headers request !! "authorization")
   = onebot_access_token (config self)).
Proof.
  unfold _handle_http, _check_signature, _check_access_token.
  unfold bind, gets, ret, log, modify. simpl.
  destruct (str_truthy (headers request !! "x-self-id")); simpl; [|done].
  destruct (str_truthy (onebot_secret (config self))) eqn:Hsecret; simpl.
  - destruct (str_truthy (headers request !! "x-signature")); simpl; [|done].
    destruct (content request) as [body|]; simpl; [|done].
    destruct (opt_str_eqb (headers request !! "x-signature") _) eqn:Hsig;
      simpl; [|done].
    apply opt_str_eqb_true in Hsig.
    destruct (str_truthy (onebot_access_token (config self))) eqn:Htoken; simpl.
    + destruct (opt_str_eqb (onebot_access_token (config self)) _) eqn:Htok;
        simpl; [|done].
      apply opt_str_eqb_true in Htok. intros _.
      split; [done|]. split; [by exists body|done].
    + intros _. split; [done|]. split; [by exists body|done].
  - destruct (str_truthy (onebot_access_token (config self))) eqn:Htoken; simpl.
    + destruct (opt_str_eqb (onebot_access_token (config self)) _) eqn:Htok;
        simpl; [|done].
      apply opt_str_eqb_true in Htok. intros _. done.
    + intros _. done.
Qed.

End WebhookEffects.


(** ** API calls: the two channels *)

Section ApiChannels.
Context `{RT : Runtime}.

Lemma substring_last (s : string) (c : ascii) :
  substring (String.length s) 1 (s ++ String c "") = String c "".
Proof. induction s as [|x s IH]; [reflexivity|exact IH]. Qed.

Lemma length_snoc (s : string) (c : ascii) :
  String.length (s ++ String c "") = S (String.length s).
Proof. induction s as [|x s IH]; [reflexivity|]. simpl. by rewrite <- IH. Qed.

Lemma endswith_snoc (s : string) : endswith (s ++ "/") "/" = true.
Proof.
  unfold endswith. rewrite length_snoc. cbn [String.length].
  replace (S (String.length s) - 1)%nat with (String.length s) by lia.
  rewrite substring_last. reflexivity.
Qed.

(** X13.  A call for a bot that has a connection goes over that
    connection, whatever HTTP root is configured.  The call is logged, a
    sequence number is taken, and the frame with [action], [params] and
    [echo.seq] is sent.  When the send has returned, the result is fetched
    for the same identity and sequence number, with the timeout as
    configured then, and the outcome is what [_handle_api_result] makes of
    it.  An exception of the send or of the fetch leaves the call as it is:
    nothing is turned into a [NetworkError] on this path. *)
Theorem _call_api_over_connection (bot : Bot) (api : string) (data : json)
  (self : Adapter) (websocket : WebSocket) :
  connections self !! self_id bot = Some websocket ->
  let seq := fst (ResultStore_get_seq (result_store self)) in
  let store := snd (ResultStore_get_seq (result_store self)) in
  _call_api bot api data self ≅
  Vis (Await (set_result_store (fun _ => store) (calling_api api self))
         (websocket_send websocket
            (json_dumps (JDict [("action", JString api); ("params", data);
                                ("echo", JDict [("seq", JInt seq)])]))))
    (fun sent =>
       match snd sent with
       | inl e => Ret (fst sent, inl e)
       | inr _ =>
           Vis (Await (fst sent)
                  (ResultStore_fetch (self_id bot) seq
                     (api_timeout (config (fst sent)))))
             (fun fetched =>
                Ret (fst fetched,
                     match snd fetched with
                     | inl e => inl e
                     | inr result => _handle_api_result result
                     end))
       end).
Proof.
  intros Hc seq store. subst seq store. unfold _call_api.
  rewrite bindT_sync. cbn [gets]. rewrite Hc.
  rewrite bindT_sync. cbn [log modify].
  rewrite bindT_sync. unfold get_seq. cbn [result_store set_journal].
  destruct (ResultStore_get_seq (result_store self)) as [seq store].
  cbn [fst snd]. rewrite bindT_await.
  apply eqit_Vis. intros [sent [e|[]]]; cbn [fst snd]; [reflexivity|].
  rewrite bindT_sync. cbn [gets]. rewrite bindT_await.
  apply eqit_Vis. intros [fetched [e|result]]; cbn [fst snd]; reflexivity.
Qed.

(** X14.  The request of the HTTP fallback.  Its address is the configured
    root, with a slash added when the root does not end in one, followed by
    the name of the API.  If that is no URL, the constructor of the request
    raises [ValueError], which leaves the call, and nothing is sent.
    Otherwise one request is sent: a POST to that URL.  The header
    [Content-Type] is [application/json]; the header [Authorization] is
    there exactly when a token is configured, and is [Bearer ] followed by
    the token; there is no other header.  The body is the dump of the
    arguments and the timeout is the configured one. *)
Theorem _call_api_http_request (bot : Bot) (api root : string) (data : json)
  (self : Adapter) :
  connections self !! self_id bot = None ->
  is_ForwardDriver (driver self) = true ->
  api_root (config self) !! self_id bot = Some root ->
  root <> "" ->
  exists root',
    endswith root' "/" = true /\
    (root' = root \/ endswith root "/" = false /\ root' = root ++ "/") /\
    match Request_url (root' ++ api) with
    | inl msg =>
        _call_api bot api data self ≅
        Ret (calling_api api self, inl (ValueError msg))
    | inr address =>
        exists request k,
          _call_api bot api data self ≅
          Vis (Await (calling_api api self) (driver_request request)) k /\
          method request = "POST" /\
          url request = address /\
          headers request !! "Content-Type" = Some "application/json" /\
          headers request !! "Authorization"
          = (fun token => "Bearer " ++ token) <$> onebot_access_token (config self) /\
          (forall name, name <> "Content-Type" -> name <> "Authorization" ->
                        headers request !! name = None) /\
          content request = Some (json_dumps data) /\
          timeout request = api_timeout (config self)
    end.
Proof.
  intros Hc Hf Hroot Hne.
  assert (Htruthy : str_truthy (api_root (config self) !! self_id bot) = true).
  { rewrite Hroot. cbn [str_truthy].
    replace (String.eqb root "") with false
      by (symmetry; by apply String.eqb_neq).
    reflexivity. }
  exists (if negb (endswith root "/") then root ++ "/" else root).
  split; [|split].
  { destruct (endswith root "/") eqn:Hend; cbn [negb];
      [exact Hend|apply endswith_snoc]. }
  { destruct (endswith root "/") eqn:Hend; cbn [negb]; [by left|by right]. }
  assert (Haddress : http_api_url self bot api
                     = (if negb (endswith root "/") then root ++ "/" else root)
                         ++ api).
  { unfold http_api_url. by rewrite Hroot. }
  rewrite <- Haddress.
  destruct (Request_url (http_api_url self bot api)) as [msg|address] eqn:Hurl.
  { by apply _call_api_bad_url. }
  eexists _, _. split; [by apply (_call_api_http bot api data self address)|].
  unfold http_api_request. cbn [method url headers content timeout].
  split; [reflexivity|]. split; [reflexivity|].
  destruct (onebot_access_token (config self)) as [token|]; cbn [fmap option_fmap option_map].
  - split; [by rewrite lookup_insert_ne, lookup_singleton_eq|].
    split; [by rewrite lookup_insert_eq|].
    split; [|done].
    intros name H1 H2. rewrite lookup_insert_ne by done.
    by rewrite lookup_singleton_ne.
  - split; [by rewrite lookup_singleton_eq|].
    split; [by rewrite lookup_singleton_ne|].
    split; [|done].
    intros name H1 H2. by rewrite lookup_singleton_ne.
Qed.

End ApiChannels.


(** ** Resumptions *)

Section Resumptions.
Context `{RT : Runtime}.

(** Two suspended coroutines that are the same up to silent steps have
    left the same adapter, await the same thing, and go on in the same
    way. *)
Lemma vis_eutt_resumption {A X1 X2} (e1 : asyncE X1) (e2 : asyncE X2)
  (k1 : X1 -> itree asyncE A) (k2 : X2 -> itree asyncE A) :
  Vis e1 k1 ≈ Vis e2 k2 ->
  forall x1, exists x2, k1 x1 ≈ k2 x2 /\ resumption e1 x1 = resumption e2 x2.
Proof.
  intros H x1. apply eqit_inv_Vis_weak in H. destruct H as (p & He & Hk).
  revert e2 k2 He Hk. destruct p. intros e2 k2 He Hk.
  simpl in He. subst e2. exists x1. split; [apply Hk|reflexivity].
Qed.

(** What a trace tells of the coroutine that went through it. *)
Lemma steps_inv {A} (t t' : itree asyncE A) (trace : list interaction) :
  steps t trace t' ->
  match trace with
  | [] => t ≈ t'
  | i :: rest =>
      exists X (e : asyncE X) k x,
        t ≈ Vis e k /\ resumption e x = i /\ steps (k x) rest t'
  end.
Proof.
  intros H.
  destruct H as [t t' Heq|R t self a k found answer rest t' Heq Hrest];
    [exact Heq|].
  exists _, (Await self a), k, (found, answer).
  split; [exact Heq|]. split; [reflexivity|exact Hrest].
Qed.

End Resumptions.


(** ** The forward link: what it keeps *)

Section LinkInvariants.
Context `{RT : Runtime}.

Lemma steps_app_inv {A} (trace1 trace2 : list interaction) :
  forall (t t' : itree asyncE A),
    steps t (trace1 ++ trace2) t' ->
    exists u, steps t trace1 u /\ steps u trace2 t'.
Proof.
  induction trace1 as [|i trace1 IH]; intros t t' H; simpl in H.
  - exists t. split; [apply steps_here; reflexivity|exact H].
  - apply steps_inv in H. destruct H as (X & e & k & x & Ht & Hi & Hrest).
    destruct (IH _ _ Hrest) as (u & H1 & H2). exists u. split; [|exact H2].
    subst i. destruct e as [R self a]. destruct x as [found answer].
    eapply steps_await; [exact Ht|exact H1].
Qed.

(** The suite of lines 308-326 keeps [connections_are_bots], whichever way
    it is left: when [bot_connect] raises, the connection that line 320 has
    written is the connection of a bot, the one that made it raise. *)
Lemma _forward_ws_dispatch_connections_are_bots (ws : WebSocket)
  (bot : option Bot) (data : string) (self : Adapter) :
  connections_are_bots self ->
  connections_are_bots (snd (fst (_forward_ws_dispatch ws data bot self))).
Proof.
  intros H. unfold _forward_ws_dispatch.
  unfold bindL at 1. unfold keep at 1. unfold lift.
  destruct (json_loads data) as [e|json_data]; [exact H|].
  unfold bindL at 1. unfold local at 1.
  unfold bindL at 1. unfold keep at 1.
  destruct (json_to_event_frame json_data (self_id <$> bot) self) as [Hc Hb].
  destruct (json_to_event json_data (self_id <$> bot) self)
    as [self1 [e|result]] eqn:Hparse; cbn [fst] in Hc, Hb.
  { by eapply connections_are_bots_same_tables. }
  assert (H1 : connections_are_bots self1)
    by (by eapply connections_are_bots_same_tables).
  destruct result as [event|]; [|exact H1].
  destruct bot as [b|]; [exact H1|].
  destruct (negb (isinstance_LifecycleMetaEvent event)
            || negb (String.eqb (event_sub_type event) "connect")); [exact H1|].
  unfold bindL at 1. unfold assign at 1.
  unfold bindL at 1. unfold keep at 1. unfold modify at 1.
  unfold bindL at 1. unfold keep at 1.
  destruct (bots self1 !! pretty (event_self_id event)) as [known|] eqn:Hbot.
  - rewrite bot_connect_known by (cbn; rewrite Hbot; eauto). cbn [fst snd].
    apply connections_are_bots_connection_of_bot; [rewrite Hbot; eauto|exact H1].
  - rewrite bot_connect_new by exact Hbot. cbn [fst snd].
    exact (connections_are_bots_registered _ ws _ self1 H1).
Qed.

Section Points.
Variables (idle : option Bot -> Prop) (state : Adapter -> Prop).
Hypothesis idle_None : idle None.
Hypothesis state_logged : forall self self', logged self self' -> state self -> state self'.
Hypothesis state_dropped : forall bot self, state self -> state (dropped bot self).
Hypothesis state_dispatch :
  forall ws bot data self,
    state self -> state (snd (fst (_forward_ws_dispatch ws data bot self))).

Lemma link_point_where_eutt (url : string) (request : Request)
  (t u : itree asyncE (Adapter * (exn + Empty_set))) :
  t ≈ u ->
  link_point_where idle state url request u ->
  link_point_where idle state url request t.
Proof.
  intros Htu [bot self Hi Hs H|bot self Hi Hs H|ws bot self Hs H|ws bot self Hs H].
  - eapply where_connect; [exact Hi|exact Hs|]. rewrite Htu. exact H.
  - eapply where_sleep; [exact Hi|exact Hs|]. rewrite Htu. exact H.
  - eapply where_receive; [exact Hs|]. rewrite Htu. exact H.
  - eapply where_close; [exact Hs|]. rewrite Htu. exact H.
Qed.

(** A link that is resumed had left the adapter in a good state; found in
    a good state, it goes to one of its points. *)
Lemma link_point_where_resumed (url : string) (request : Request)
  (t : itree asyncE (Adapter * (exn + Empty_set))) {X} (e : asyncE X)
  (k : X -> itree asyncE (Adapter * (exn + Empty_set))) (x : X) :
  link_point_where idle state url request t ->
  t ≈ Vis e k ->
  state (left_by (resumption e x)) /\
  (state (found_by (resumption e x)) ->
   link_point_where idle state url request (k x)).
Proof.
  intros [bot self Hi Hs H|bot self Hi Hs H|ws bot self Hs H|ws bot self Hs H] Ht.
  - rewrite forward_link_unfold in H. rewrite Ht in H.
    destruct (vis_eutt_resumption _ _ _ _ H x) as ([found answer] & Hx & ->).
    cbn [resumption left_by found_by fst snd]. split; [exact Hs|]. intros Hfound.
    eapply link_point_where_eutt; [exact Hx|]. cbn [fst snd].
    destruct answer as [e0|ws].
    + eapply where_sleep; [exact Hi| |reflexivity].
      eapply state_logged; [|exact Hfound]. by eexists.
    + eapply where_receive; [|reflexivity].
      eapply state_logged; [|exact Hfound]. by eexists.
  - rewrite Ht in H.
    destruct (vis_eutt_resumption _ _ _ _ H x) as ([found []] & Hx & ->).
    cbn [resumption left_by found_by fst snd]. split; [exact Hs|]. intros Hfound.
    eapply link_point_where_eutt; [exact Hx|]. cbn [fst].
    eapply where_connect; [exact Hi|exact Hfound|reflexivity].
  - rewrite forward_link_receiving_unfold in H. rewrite Ht in H.
    destruct (vis_eutt_resumption _ _ _ _ H x) as ([found answer] & Hx & ->).
    cbn [resumption left_by found_by fst snd]. split; [exact Hs|]. intros Hfound.
    eapply link_point_where_eutt; [exact Hx|]. cbn [fst snd].
    destruct answer as [e0|data].
    + eapply where_close; [|reflexivity].
      eapply state_logged; [|exact Hfound]. by eexists.
    + pose proof (state_dispatch ws bot data found Hfound) as Hhandled.
      destruct (_forward_ws_dispatch ws data bot found)
        as [[bot' handled] [e0|[]]]; cbn [fst snd] in Hhandled.
      * eapply where_close; [|reflexivity].
        eapply state_logged; [|exact Hhandled]. by eexists.
      * eapply where_receive; [exact Hhandled|reflexivity].
  - rewrite forward_link_closing_unfold in H. rewrite Ht in H.
    destruct (vis_eutt_resumption _ _ _ _ H x) as ([found answer] & Hx & ->).
    cbn [resumption left_by found_by fst snd]. split; [exact Hs|]. intros Hfound.
    eapply link_point_where_eutt; [exact Hx|]. cbn [fst].
    eapply where_sleep; [exact idle_None| |reflexivity].
    by apply state_dropped.
Qed.

Lemma link_point_where_steps (url : string) (request : Request)
  (t t' : itree asyncE (Adapter * (exn + Empty_set)))
  (trace : list interaction) :
  steps t trace t' ->
  link_point_where idle state url request t ->
  Forall (fun i => state (found_by i)) trace ->
  Forall (fun i => state (left_by i)) trace /\
  link_point_where idle state url request t'.
Proof.
  induction 1 as [t t' Heq|R t self a k found answer rest t' Heq Hrest IH];
    intros Hpoint Hfound.
  - split; [constructor|].
    eapply link_point_where_eutt; [symmetry; exact Heq|exact Hpoint].
  - apply Forall_cons in Hfound as [Hfound Hrest_found].
    destruct (link_point_where_resumed url request t (Await self a) k
                (found, answer) Hpoint Heq) as [Hleft Hnext].
    destruct (IH (Hnext Hfound) Hrest_found) as [Hlefts Hpoint'].
    split; [|exact Hpoint']. constructor; [exact Hleft|exact Hlefts].
Qed.

End Points.

(** X15.  A forward link keeps [connections_are_bots].  If it starts on an
    adapter where every connection belongs to a bot, and finds such an
    adapter whenever it is resumed, then it has left such an adapter
    whenever it suspended, whatever it was resumed with: also when its
    peer announces an identity that is a bot already, where [bot_connect]
    raises after the connection is written. *)
Theorem _forward_ws_keeps_connections_are_bots (url : string) (self : Adapter)
  (trace : list interaction)
  (t' : itree asyncE (Adapter * (exn + Empty_set))) :
  connections_are_bots self ->
  steps (_forward_ws url self) trace t' ->
  Forall (fun i => connections_are_bots (found_by i)) trace ->
  Forall (fun i => connections_are_bots (left_by i)) trace.
Proof.
  intros Hself Hsteps Hfound.
  eapply (link_point_where_steps (fun _ => True) connections_are_bots).
  - done.
  - apply connections_are_bots_logged.
  - apply connections_are_bots_dropped.
  - apply _forward_ws_dispatch_connections_are_bots.
  - exact Hsteps.
  - eapply where_connect; [done|exact Hself|].
    rewrite _forward_ws_is_forward_link. reflexivity.
  - exact Hfound.
Qed.

(** X16.  Whatever a forward link has gone through, a connect that
    succeeds takes it into its receive loop without bot: the bot of an
    earlier connection is forgotten, and the peer has to announce itself
    again. *)
Theorem _forward_ws_identifies_per_connection (url : string) (self : Adapter)
  (trace : list interaction) (before found : Adapter) (ws : WebSocket)
  (t' : itree asyncE (Adapter * (exn + Empty_set))) :
  let request := forward_request url self in
  steps (_forward_ws url self)
    (trace ++ [Resumed before (websocket_connect request) found (inr ws)]) t' ->
  t' ≈ forward_link_receiving url request ws None (established url found).
Proof.
  intros request Hsteps.
  apply steps_app_inv in Hsteps as (u & Htrace & Hlast).
  assert (Hpoint : link_point_where (fun bot => bot = None) (fun _ => True)
                     url request u).
  { eapply (link_point_where_steps (fun bot => bot = None) (fun _ => True)).
    - reflexivity.
    - done.
    - done.
    - done.
    - exact Htrace.
    - eapply where_connect; [reflexivity|done|].
      rewrite _forward_ws_is_forward_link. reflexivity.
    - apply Forall_forall. done. }
  apply steps_inv in Hlast. destruct Hlast as (X & e & k & x & Hu & Hi & Hend).
  apply steps_inv in Hend. rewrite <- Hend. clear Hend t'.
  destruct Hpoint as [bot s Hbot _ H|bot s _ _ H|ws0 bot s _ H|ws0 bot s _ H].
  - subst bot. rewrite forward_link_unfold in H. rewrite Hu in H.
    destruct (vis_eutt_resumption _ _ _ _ H x) as ([found0 answer0] & Hx & Hsame).
    rewrite Hi in Hsame. cbn [resumption fst snd] in Hsame.
    pose proof (f_equal found_by Hsame) as Hf. cbn [found_by] in Hf. subst found0.
    pose proof (f_equal outcome_of Hsame) as Ho. cbn [outcome_of] in Ho.
    injection Ho as <-. exact Hx.
  - rewrite Hu in H.
    destruct (vis_eutt_resumption _ _ _ _ H x) as ([found0 answer0] & _ & Hsame).
    rewrite Hi in Hsame. apply (f_equal outcome_of) in Hsame. discriminate Hsame.
  - rewrite forward_link_receiving_unfold in H. rewrite Hu in H.
    destruct (vis_eutt_resumption _ _ _ _ H x) as ([found0 answer0] & _ & Hsame).
    rewrite Hi in Hsame. apply (f_equal outcome_of) in Hsame. discriminate Hsame.
  - rewrite forward_link_closing_unfold in H. rewrite Hu in H.
    destruct (vis_eutt_resumption _ _ _ _ H x) as ([found0 answer0] & _ & Hsame).
    rewrite Hi in Hsame. apply (f_equal outcome_of) in Hsame. discriminate Hsame.
Qed.

End LinkInvariants.


(** ** The reverse WebSocket handler *)

Section ReverseSession.
Context `{RT : Runtime}.

Lemma opt_str_eqb_false (a b : option string) : a <> b -> opt_str_eqb a b = false.
Proof.
  destruct a as [x|], b as [y|]; simpl; try done.
  intros Hne. apply String.eqb_neq. congruence.
Qed.

(** X17.  A handshake without the header [X-Self-ID], or with an empty
    one, is closed with code 1008 and the reason [Missing X-Self-ID
    Header].  A warning is logged, nothing else is done, and the socket is
    not accepted. *)
Theorem _handle_ws_missing_identity (websocket : WebSocket) (self : Adapter) :
  str_truthy (headers (request websocket) !! "x-self-id") = false ->
  _handle_ws websocket self ≅
  await (websocket_close websocket 1008 "Missing X-Self-ID Header")
    (fst (log "WARNING" "Missing X-Self-ID Header" None self)).
Proof.
  intros Hid. unfold _handle_ws. rewrite Hid. cbn [negb].
  rewrite bindT_sync. reflexivity.
Qed.

(** X18.  A handshake of an identity that is no bot, at an adapter that has
    a token configured, with a bearer token that is not the configured one,
    is closed with code 1008.  The reason tells a wrong token from a
    missing one and is the text of the warning that is logged.  The socket
    is not accepted. *)
Theorem _handle_ws_bad_token (websocket : WebSocket) (self : Adapter)
  (identity : string) :
  headers (request websocket) !! "x-self-id" = Some identity ->
  identity <> "" ->
  bots self !! identity = None ->
  str_truthy (onebot_access_token (config self)) = true ->
  onebot_access_token (config self)
  <> get_auth_bearer (headers (request websocket) !! "authorization") ->
  let reason :=
    if str_truthy (get_auth_bearer (headers (request websocket) !! "authorization"))
    then "Authorization Header is invalid"
    else "Missing Authorization Header" in
  _handle_ws websocket self ≅
  await (websocket_close websocket 1008 reason)
    (fst (log "WARNING" reason None self)).
Proof.
  intros Hid Hne Hbot Hset Hdiff reason. unfold _handle_ws. rewrite Hid.
  cbn [str_truthy from_option id].
  replace (String.eqb identity "") with false
    by (symmetry; by apply String.eqb_neq).
  cbn [negb].
  rewrite bindT_sync. cbn [gets]. rewrite Hbot.
  rewrite bool_decide_eq_false_2 by (by intros [? ?]).
  rewrite bindT_sync. unfold _check_access_token.
  unfold bind at 1. cbn [gets]. rewrite Hset, (opt_str_eqb_false _ _ Hdiff).
  cbn [andb negb]. fold reason. unfold bind, log, modify, ret.
  cbn [response_content from_option id fst]. reflexivity.
Qed.

Lemma bind_to_unit {E} (m : itree E (Adapter * (exn + unit))) :
  ITree.bind m (fun c =>
    match c with
    | (self'', inr _) => Ret (self'', inr tt)
    | (self'', inl e) => Ret (self'', inl e)
    end) ≅ m.
Proof.
  transitivity (ITree.bind m (fun c => Ret c)).
  - apply eqit_bind; [reflexivity|]. intros [self'' [e|[]]]; reflexivity.
  - apply bind_ret_r.
Qed.

Lemma reverse_session_closing_unfold (websocket : WebSocket)
  (identity : string) (self : Adapter) :
  reverse_session_closing websocket identity self ≅
  Vis (Await self (websocket_close websocket 1000 "")) (fun r =>
    Ret (dropped (Some {| self_id := identity |}) (fst r), inr tt)).
Proof.
  unfold reverse_session_closing.
  rewrite bindT_attempt_await. apply eqit_Vis. intros [closed c]. cbn [fst snd].
  rewrite bindT_sync. cbn [modify].
  unfold sync, bot_disconnect, modify, dropped. cbn [self_id]. reflexivity.
Qed.

(** The session is its receive loop followed, when the loop raises, by the
    record of the failure and the [finally] suite. *)
Lemma reverse_session_loop (websocket : WebSocket) (identity : string)
  (self : Adapter) :
  reverse_session websocket identity self ≅
  ITree.bind
    (while_True (fun _ : unit =>
       _handle_ws_receive websocket {| self_id := identity |}) tt self)
    (fun r =>
       match r with
       | (self', inl e) =>
           reverse_session_closing websocket identity
             (session_failed identity e self')
       | (self', inr never) => match never : Empty_set with end
       end).
Proof.
  unfold reverse_session, try_finallyT, try_exceptT.
  unfold bindT at 1. rewrite !bind_bind.
  apply eqit_bind; [reflexivity|]. intros [self' [e|[]]].
  rewrite bind_ret_l. unfold sync at 1. rewrite bind_ret_l.
  cbn [fst snd log modify]. fold (session_failed identity e self').
  fold (reverse_session_closing websocket identity).
  apply bind_to_unit.
Qed.

Lemma reverse_session_unfold (websocket : WebSocket) (identity : string)
  (self : Adapter) :
  reverse_session websocket identity self ≈
  Vis (Await self (websocket_receive websocket)) (fun r =>
    match snd r with
    | inl e =>
        reverse_session_closing websocket identity
          (session_failed identity e (fst r))
    | inr data =>
        match _handle_ws_dispatch {| self_id := identity |} data (fst r) with
        | (self', inr _) => reverse_session websocket identity self'
        | (self', inl e) =>
            reverse_session_closing websocket identity
              (session_failed identity e self')
        end
    end).
Proof.
  rewrite reverse_session_loop, while_True_unfold, bind_bind.
  unfold _handle_ws_receive. rewrite bindT_await, bind_vis.
  apply eqit_Vis. intros [self1 [e|data]]; cbn [fst snd].
  - rewrite !bind_ret_l. reflexivity.
  - rewrite bindT_sync.
    destruct (_handle_ws_dispatch {| self_id := identity |} data self1)
      as [self2 [e|[]]].
    + rewrite !bind_ret_l. reflexivity.
    + unfold sync at 1, ret. rewrite !bind_ret_l, bind_tau, tau_eutt.
      rewrite reverse_session_loop. reflexivity.
Qed.

(** A handshake that passes the checks is accepted, and goes on as
    [reverse_accepted] tells. *)
Lemma _handle_ws_accepted (websocket : WebSocket) (self : Adapter)
  (identity : string) :
  headers (request websocket) !! "x-self-id" = Some identity ->
  identity <> "" ->
  bots self !! identity = None ->
  _check_access_token (request websocket) self = (self, inr None) ->
  _handle_ws websocket self ≅
  Vis (Await self (websocket_accept websocket))
    (reverse_accepted websocket identity).
Proof.
  intros Hid Hne Hbot Htok. unfold _handle_ws. rewrite Hid.
  cbn [str_truthy from_option id].
  replace (String.eqb identity "") with false
    by (symmetry; by apply String.eqb_neq).
  cbn [negb].
  rewrite bindT_sync. cbn [gets]. rewrite Hbot.
  rewrite bool_decide_eq_false_2 by (by intros [? ?]).
  rewrite bindT_sync, Htok.
  rewrite bindT_await. apply eqit_Vis.
  intros [found [e|[]]]; unfold reverse_accepted; cbn [fst snd].
  - reflexivity.
  - rewrite bindT_sync. cbn [modify].
    destruct (bots found !! identity) as [known|] eqn:Hfound.
    + rewrite bindT_sync, bot_connect_known by (cbn; rewrite Hfound; eauto).
      reflexivity.
    + rewrite bindT_sync, bot_connect_new by exact Hfound.
      rewrite bindT_sync. cbn [log modify]. reflexivity.
Qed.

Lemma reverse_accepted_session (websocket : WebSocket) (identity : string)
  (found : Adapter) :
  bots found !! identity = None ->
  reverse_accepted websocket identity (found, inr tt)
  = reverse_session websocket identity
      (reverse_connected identity websocket found).
Proof. intros Hnew. unfold reverse_accepted. cbn [fst snd]. by rewrite Hnew. Qed.

Lemma reverse_accepted_refused (websocket : WebSocket) (identity : string)
  (found : Adapter) :
  is_Some (bots found !! identity) ->
  reverse_accepted websocket identity (found, inr tt)
  = Ret (set_connections (fun c => <[identity := websocket]> c) found,
         inl (duplicate_bot_connection identity)).
Proof.
  intros [known Hknown]. unfold reverse_accepted. cbn [fst snd].
  by rewrite Hknown.
Qed.

(** A coroutine that has returned is resumed no more. *)
Lemma steps_of_ret {A} (r : A) (trace : list interaction) (t' : itree asyncE A) :
  steps (Ret r) trace t' -> trace = [] /\ t' ≈ Ret r.
Proof.
  intros H. apply steps_inv in H. destruct trace as [|i rest].
  - split; [reflexivity|by symmetry].
  - destruct H as (X & e & k & x & Hvis & _). symmetry in Hvis.
    destruct (vis_not_ret _ _ _ Hvis).
Qed.





(** X19.  The session of an accepted reverse WebSocket.  If [accept]
    raises, the exception leaves the handler and nothing is registered.
    Otherwise the connection table is written, on the adapter as it is
    found after [accept].  If the identity has become a bot while [accept]
    was awaited, [bot_connect] raises and the exception leaves the handler
    with the connection written and the socket open, lines 192 and 193
    being outside the [try].  If not, the bot is registered and frames are
    received.  A frame that is handled leads to the next receive.  An
    exception, of the receive or of the handling, is logged; the socket is
    closed; whatever [close] answers, the identity leaves both tables, and
    the handler returns. *)
Theorem _handle_ws_session (websocket : WebSocket) (self : Adapter)
  (identity : string) :
  headers (request websocket) !! "x-self-id" = Some identity ->
  identity <> "" ->
  bots self !! identity = None ->
  _check_access_token (request websocket) self = (self, inr None) ->
  let bot := {| self_id := identity |} in
  (exists k,
      _handle_ws websocket self ≅ Vis (Await self (websocket_accept websocket)) k /\
      (forall found e, k (found, inl e) ≅ Ret (found, inl e)) /\
      (forall found,
          is_Some (bots found !! identity) ->
          k (found, inr tt) ≅
          Ret (set_connections (fun c => <[identity := websocket]> c) found,
               inl (duplicate_bot_connection identity))) /\
      (forall found,
          bots found !! identity = None ->
          k (found, inr tt) ≈
          reverse_session websocket identity
            (reverse_connected identity websocket found))) /\
  (forall left data received handled,
      _handle_ws_dispatch bot data received = (handled, inr tt) ->
      steps (reverse_session websocket identity left)
        [Resumed left (websocket_receive websocket) received (inr data)]
        (reverse_session websocket identity handled)) /\
  (forall left received e closed c,
      steps (reverse_session websocket identity left)
        [Resumed left (websocket_receive websocket) received (inl e);
         Resumed (session_failed identity e received)
           (websocket_close websocket 1000 "") closed c]
        (Ret (dropped (Some bot) closed, inr tt))) /\
  (forall left data received handled e closed c,
      _handle_ws_dispatch bot data received = (handled, inl e) ->
      steps (reverse_session websocket identity left)
        [Resumed left (websocket_receive websocket) received (inr data);
         Resumed (session_failed identity e handled)
           (websocket_close websocket 1000 "") closed c]
        (Ret (dropped (Some bot) closed, inr tt))) /\
  (forall closed,
      connections (dropped (Some bot) closed) !! identity = None /\
      bots (dropped (Some bot) closed) !! identity = None).
Proof.
  intros Hid Hne Hbot Htok bot. split; [|split; [|split; [|split]]].
  - eexists. split; [by apply _handle_ws_accepted|].
    split; [intros found e; reflexivity|]. split.
    + intros found Hknown. by rewrite reverse_accepted_refused.
    + intros found Hnew. by rewrite reverse_accepted_session.
  - intros left data received handled Hok.
    eapply steps_await; [apply reverse_session_unfold|]. cbn [fst snd].
    fold bot. rewrite Hok. apply steps_here. reflexivity.
  - intros left received e closed c.
    eapply steps_await; [apply reverse_session_unfold|]. cbn [fst snd].
    eapply steps_await; [rewrite reverse_session_closing_unfold; reflexivity|].
    cbn [fst]. apply steps_here. reflexivity.
  - intros left data received handled e closed c Hraise.
    eapply steps_await; [apply reverse_session_unfold|]. cbn [fst snd].
    fold bot. rewrite Hraise.
    eapply steps_await; [rewrite reverse_session_closing_unfold; reflexivity|].
    cbn [fst]. apply steps_here. reflexivity.
  - intros closed. unfold dropped. cbn [self_id bot connections bots set_bots
      set_connections]. split; apply lookup_delete_eq.
Qed.


End ReverseSession.


(** ** The reverse WebSocket handler: what it keeps *)

Section HandlerInvariants.
Context `{RT : Runtime}.

Lemma _check_access_token_passes (request : Request) (self self' : Adapter) :
  _check_access_token request self = (self', inr None) -> self' = self.
Proof.
  unfold _check_access_token, bind, gets, ret, log, modify. simpl.
  destruct (str_truthy (onebot_access_token (config self)) && _); simpl;
    [discriminate|]. by intros [= <-].
Qed.

Lemma str_truthy_Some (o : option string) :
  str_truthy o = true -> exists s, o = Some s /\ s <> "".
Proof.
  destruct o as [s|]; [|discriminate]. simpl. intros H. exists s. split; [done|].
  intros ->. discriminate H.
Qed.

(** Every handshake is either refused with code 1008, nothing but the log
    written, or accepted. *)
Lemma _handle_ws_cases (websocket : WebSocket) (self : Adapter) :
  (exists reason self1,
      logged self self1 /\
      _handle_ws websocket self ≅
      await (websocket_close websocket 1008 reason) self1) \/
  (exists identity,
      headers (request websocket) !! "x-self-id" = Some identity /\
      identity <> "" /\
      bots self !! identity = None /\
      _check_access_token (request websocket) self = (self, inr None) /\
      _handle_ws websocket self ≅
      Vis (Await self (websocket_accept websocket))
        (reverse_accepted websocket identity)).
Proof.
  destruct (str_truthy (headers (request websocket) !! "x-self-id")) eqn:Hid.
  2:{ left.
      exists "Missing X-Self-ID Header",
        (fst (log "WARNING" "Missing X-Self-ID Header" None self)).
      split; [apply logged_log|].
      unfold _handle_ws. rewrite Hid. cbn [negb].
      rewrite bindT_sync. reflexivity. }
  destruct (str_truthy_Some _ Hid) as (identity & Hheader & Hne).
  destruct (bots self !! identity) as [bot|] eqn:Hbot.
  { left.
    exists "Duplicate X-Self-ID",
      (fst (log "WARNING" ("There's already a bot " ++ identity ++ ", ignored")
              None self)).
    split; [apply logged_log|].
    unfold _handle_ws. rewrite Hid. cbn [negb]. rewrite Hheader.
    cbn [from_option id].
    rewrite bindT_sync. cbn [gets]. rewrite Hbot.
    rewrite bool_decide_eq_true_2 by eauto.
    rewrite bindT_sync. reflexivity. }
  destruct (_check_access_token_logged (request websocket) self)
    as (self1 & response & Htok & Hlog).
  destruct response as [response|].
  - left. exists (default "" (response_content response)), self1.
    split; [exact Hlog|].
    unfold _handle_ws. rewrite Hid. cbn [negb]. rewrite Hheader.
    cbn [from_option id].
    rewrite bindT_sync. cbn [gets]. rewrite Hbot.
    rewrite bool_decide_eq_false_2 by (by intros [? ?]).
    rewrite bindT_sync, Htok. reflexivity.
  - right. exists identity.
    pose proof (_check_access_token_passes _ _ _ Htok) as ->.
    split; [exact Hheader|]. split; [exact Hne|]. split; [exact Hbot|].
    split; [exact Htok|]. by apply _handle_ws_accepted.
Qed.

Lemma opt_str_eqb_eq (a b : option string) : opt_str_eqb a b = true <-> a = b.
Proof.
  destruct a as [x|], b as [y|]; simpl; split; try done.
  - intros H. apply String.eqb_eq in H. by subst.
  - intros [= ->]. apply String.eqb_refl.
Qed.

(** The token check lets a request pass when no token is configured, or an
    empty one, and when the bearer token of the request is the configured
    one. *)
Lemma _check_access_token_passes_iff (request : Request) (self : Adapter) :
  _check_access_token request self = (self, inr None) <->
  str_truthy (onebot_access_token (config self)) = false \/
  onebot_access_token (config self)
  = get_auth_bearer (headers request !! "authorization").
Proof.
  unfold _check_access_token, bind, gets, ret, log, modify. cbn beta iota.
  destruct (str_truthy (onebot_access_token (config self))) eqn:Hset;
    cbn [andb]; [|split; [by left|done]].
  destruct (opt_str_eqb (onebot_access_token (config self))
              (get_auth_bearer (headers request !! "authorization"))) eqn:Htok;
    cbn [negb].
  - apply opt_str_eqb_eq in Htok. split; [by right|done].
  - split; [discriminate|]. intros [|Hsame]; [done|].
    apply opt_str_eqb_eq in Hsame. congruence.
Qed.

(** X21.  The handler of a reverse WebSocket accepts the handshake exactly
    when the header [X-Self-ID] is there and not empty, the identity is no
    bot, and either no token is configured (or an empty one) or the bearer
    token of the request is the configured one. *)
Theorem _handle_ws_accepts_iff (websocket : WebSocket) (self : Adapter) :
  (exists k,
      _handle_ws websocket self ≅ Vis (Await self (websocket_accept websocket)) k)
  <->
  (exists identity,
      headers (request websocket) !! "x-self-id" = Some identity /\
      identity <> "" /\
      bots self !! identity = None /\
      (str_truthy (onebot_access_token (config self)) = false \/
       onebot_access_token (config self)
       = get_auth_bearer (headers (request websocket) !! "authorization"))).
Proof.
  split.
  - intros [k Hk].
    destruct (_handle_ws_cases websocket self)
      as [(reason & self1 & _ & H)|(identity & Hheader & Hne & Hbot & Htok & _)].
    + exfalso. rewrite Hk in H. unfold await in H. apply eq_sub_eutt in H.
      destruct (vis_eutt_resumption _ _ _ _ H (self, inr tt))
        as ([found c] & _ & Hsame).
      apply (f_equal outcome_of) in Hsame. discriminate Hsame.
    + exists identity. split; [exact Hheader|]. split; [exact Hne|].
      split; [exact Hbot|]. by apply _check_access_token_passes_iff.
  - intros (identity & Hheader & Hne & Hbot & Htok). eexists.
    apply (_handle_ws_accepted websocket self identity Hheader Hne Hbot).
    by apply _check_access_token_passes_iff.
Qed.

Lemma _handle_ws_dispatch_connections_are_bots (bot : Bot) (data : string)
  (self : Adapter) :
  connections_are_bots self ->
  connections_are_bots (fst (_handle_ws_dispatch bot data self)).
Proof.
  intros H. unfold _handle_ws_dispatch. unfold bind at 1. unfold lift.
  destruct (json_loads data) as [e|json_data]; [exact H|].
  destruct (json_to_event_logged json_data self)
    as (self1 & result & Hparse & Hlog).
  unfold bind. rewrite Hparse.
  apply (connections_are_bots_logged _ _ Hlog) in H.
  destruct result as [event|]; exact H.
Qed.

Section Points.
Variable state : Adapter -> Prop.
Hypothesis state_logged : forall self self', logged self self' -> state self -> state self'.
Hypothesis state_dropped : forall bot self, state self -> state (dropped bot self).
Hypothesis state_connected :
  forall identity websocket self,
    state self -> state (reverse_connected identity websocket self).
Hypothesis state_written :
  forall identity websocket self,
    is_Some (bots self !! identity) -> state self ->
    state (set_connections (fun c => <[identity := websocket]> c) self).
Hypothesis state_dispatch :
  forall bot data self,
    state self -> state (fst (_handle_ws_dispatch bot data self)).

Lemma handler_point_where_eutt (websocket : WebSocket)
  (t u : itree asyncE (Adapter * (exn + unit))) :
  t ≈ u ->
  handler_point_where state websocket u ->
  handler_point_where state websocket t.
Proof.
  intros Htu [reason self Hs H|identity self Hs H|identity self Hs H
             |identity self Hs H|self r Hs H].
  - eapply where_refusing; [exact Hs|]. rewrite Htu. exact H.
  - eapply where_accepting; [exact Hs|]. rewrite Htu. exact H.
  - eapply where_session; [exact Hs|]. rewrite Htu. exact H.
  - eapply where_closing; [exact Hs|]. rewrite Htu. exact H.
  - eapply where_returned; [exact Hs|]. rewrite Htu. exact H.
Qed.

Lemma handler_point_where_resumed (websocket : WebSocket)
  (t : itree asyncE (Adapter * (exn + unit))) {X} (e : asyncE X)
  (k : X -> itree asyncE (Adapter * (exn + unit))) (x : X) :
  handler_point_where state websocket t ->
  t ≈ Vis e k ->
  state (left_by (resumption e x)) /\
  (state (found_by (resumption e x)) ->
   handler_point_where state websocket (k x)).
Proof.
  intros [reason self Hs H|identity self Hs H|identity self Hs H
         |identity self Hs H|self r Hs H] Ht.
  - unfold await in H. rewrite Ht in H.
    destruct (vis_eutt_resumption _ _ _ _ H x) as ([found answer] & Hx & ->).
    cbn [resumption left_by found_by fst snd]. split; [exact Hs|]. intros Hfound.
    eapply where_returned; [exact Hfound|exact Hx].
  - rewrite Ht in H.
    destruct (vis_eutt_resumption _ _ _ _ H x) as ([found answer] & Hx & ->).
    cbn [resumption left_by found_by fst snd]. split; [exact Hs|]. intros Hfound.
    eapply handler_point_where_eutt; [exact Hx|].
    unfold reverse_accepted. cbn [fst snd].
    destruct answer as [e0|accepted].
    + eapply where_returned; [exact Hfound|reflexivity].
    + destruct (bots found !! identity) as [known|] eqn:Hknown.
      * eapply where_returned; [|reflexivity].
        apply state_written; [rewrite Hknown; eauto|exact Hfound].
      * eapply where_session; [|reflexivity]. by apply state_connected.
  - rewrite reverse_session_unfold in H. rewrite Ht in H.
    destruct (vis_eutt_resumption _ _ _ _ H x) as ([found answer] & Hx & ->).
    cbn [resumption left_by found_by fst snd]. split; [exact Hs|]. intros Hfound.
    eapply handler_point_where_eutt; [exact Hx|]. cbn [fst snd].
    destruct answer as [e0|data].
    + eapply where_closing; [|reflexivity].
      eapply state_logged; [|exact Hfound]. by eexists.
    + pose proof (state_dispatch {| self_id := identity |} data found Hfound)
        as Hhandled.
      destruct (_handle_ws_dispatch {| self_id := identity |} data found)
        as [handled [e0|[]]]; cbn [fst] in Hhandled.
      * eapply where_closing; [|reflexivity].
        eapply state_logged; [|exact Hhandled]. by eexists.
      * eapply where_session; [exact Hhandled|reflexivity].
  - rewrite reverse_session_closing_unfold in H. rewrite Ht in H.
    destruct (vis_eutt_resumption _ _ _ _ H x) as ([found answer] & Hx & ->).
    cbn [resumption left_by found_by fst snd]. split; [exact Hs|]. intros Hfound.
    eapply where_returned; [|exact Hx]. cbn [fst]. by apply state_dropped.
  - rewrite Ht in H. exfalso. exact (vis_not_ret _ _ _ H).
Qed.

Lemma handler_point_where_steps (websocket : WebSocket)
  (t t' : itree asyncE (Adapter * (exn + unit))) (trace : list interaction) :
  steps t trace t' ->
  handler_point_where state websocket t ->
  Forall (fun i => state (found_by i)) trace ->
  Forall (fun i => state (left_by i)) trace /\
  handler_point_where state websocket t'.
Proof.
  induction 1 as [t t' Heq|R t self a k found answer rest t' Heq Hrest IH];
    intros Hpoint Hfound.
  - split; [constructor|].
    eapply handler_point_where_eutt; [symmetry; exact Heq|exact Hpoint].
  - apply Forall_cons in Hfound as [Hfound Hrest_found].
    destruct (handler_point_where_resumed websocket t (Await self a) k
                (found, answer) Hpoint Heq) as [Hleft Hnext].
    destruct (IH (Hnext Hfound) Hrest_found) as [Hlefts Hpoint'].
    split; [|exact Hpoint']. constructor; [exact Hleft|exact Hlefts].
Qed.

Lemma handler_point_where_returned (websocket : WebSocket)
  (t : itree asyncE (Adapter * (exn + unit))) (self : Adapter)
  (r : exn + unit) :
  handler_point_where state websocket t ->
  t ≈ Ret (self, r) -> state self.
Proof.
  intros [reason s Hs H|identity s Hs H|identity s Hs H
         |identity s Hs H|s r0 Hs H] Hret; rewrite Hret in H.
  - unfold await in H. symmetry in H. destruct (vis_not_ret _ _ _ H).
  - symmetry in H. destruct (vis_not_ret _ _ _ H).
  - rewrite reverse_session_unfold in H. symmetry in H.
    destruct (vis_not_ret _ _ _ H).
  - rewrite reverse_session_closing_unfold in H. symmetry in H.
    destruct (vis_not_ret _ _ _ H).
  - apply eqit_inv_Ret in H. injection H as <- _. exact Hs.
Qed.

End Points.

(** X22.  The handler of a reverse WebSocket keeps [connections_are_bots],
    for every handshake.  If it starts on an adapter where every connection
    belongs to a bot, and finds such an adapter whenever it is resumed,
    then it has left such an adapter whenever it suspended, and it leaves
    one when it returns or raises: also when [bot_connect] raises after
    the connection is written, for the identity is a bot then. *)
Theorem _handle_ws_keeps_connections_are_bots (websocket : WebSocket)
  (self : Adapter) (trace : list interaction)
  (t' : itree asyncE (Adapter * (exn + unit))) :
  connections_are_bots self ->
  steps (_handle_ws websocket self) trace t' ->
  Forall (fun i => connections_are_bots (found_by i)) trace ->
  Forall (fun i => connections_are_bots (left_by i)) trace /\
  forall self' r, t' ≈ Ret (self', r) -> connections_are_bots self'.
Proof.
  intros Hself Hsteps Hfound.
  assert (Hstart : handler_point_where connections_are_bots websocket
                     (_handle_ws websocket self)).
  { destruct (_handle_ws_cases websocket self)
      as [(reason & self1 & Hlog & H)|(identity & _ & _ & _ & _ & H)].
    - eapply where_refusing; [|rewrite H; reflexivity].
      by eapply connections_are_bots_logged.
    - eapply where_accepting; [exact Hself|rewrite H; reflexivity]. }
  destruct (handler_point_where_steps connections_are_bots
              connections_are_bots_logged connections_are_bots_dropped)
    with (websocket := websocket) (t := _handle_ws websocket self)
         (t' := t') (trace := trace) as [Hlefts Hpoint]; try done.
  - intros identity ws s Hs. unfold reverse_connected.
    eapply connections_are_bots_logged; [by eexists|].
    by apply connections_are_bots_registered.
  - apply connections_are_bots_connection_of_bot.
  - apply _handle_ws_dispatch_connections_are_bots.
  - split; [exact Hlefts|]. intros self' r.
    by apply (handler_point_where_returned connections_are_bots websocket).
Qed.

End HandlerInvariants.


(** ** Sockets are closed *)

Section SocketsAreClosed.
Context `{RT : Runtime}.

(** A link that holds a socket and goes through a trace has closed the
    socket on the way, or holds it still. *)
Lemma forward_link_holds_socket (url : string) (request : Request)
  (ws : WebSocket) (t t' : itree asyncE (Adapter * (exn + Empty_set)))
  (trace : list interaction) :
  steps t trace t' ->
  (exists bot self, t ≈ forward_link_receiving url request ws bot self) \/
  (exists bot self, t ≈ forward_link_closing url request ws bot self) ->
  Exists (closes ws) trace \/
  (exists bot self, t' ≈ forward_link_receiving url request ws bot self) \/
  (exists bot self, t' ≈ forward_link_closing url request ws bot self).
Proof.
  induction 1 as [t t' Heq|R t self a k found answer rest t' Heq Hrest IH];
    intros Hholds.
  - right. destruct Hholds as [(bot & s & H)|(bot & s & H)].
    + left. exists bot, s. by rewrite <- Heq.
    + right. exists bot, s. by rewrite <- Heq.
  - destruct Hholds as [(bot & s & H)|(bot & s & H)].
    + rewrite forward_link_receiving_unfold in H. rewrite Heq in H.
      destruct (vis_eutt_resumption _ _ _ _ H (found, answer))
        as ([found0 answer0] & Hx & _).
      cbn [fst snd] in Hx.
      destruct IH as [Hclosed|Hstill].
      * destruct answer0 as [e|data].
        -- right. by exists bot, (receive_failed url e found0).
        -- destruct (_forward_ws_dispatch ws data bot found0)
             as [[bot' handled] [e|[]]].
           ++ right. by exists bot', (receive_failed url e handled).
           ++ left. by exists bot', handled.
      * left. by apply Exists_cons_tl.
      * by right.
    + rewrite forward_link_closing_unfold in H. rewrite Heq in H.
      destruct (vis_eutt_resumption _ _ _ _ H (found, answer))
        as ([found0 answer0] & _ & Hsame).
      left. apply Exists_cons_hd. cbn [resumption fst snd] in Hsame.
      by exists s, 1000, "", found0, answer0.
Qed.

(** X25.  A forward link that holds a socket does not get to a connect
    without having closed that socket: in whatever it goes through from
    its receive loop up to a connect, the closing of the socket is
    there. *)
Theorem _forward_ws_closes_before_reconnect (url : string)
  (request request' : Request) (ws : WebSocket) (bot : option Bot)
  (self before found : Adapter) (answer : exn + WebSocket)
  (trace : list interaction)
  (t' : itree asyncE (Adapter * (exn + Empty_set))) :
  steps (forward_link_receiving url request ws bot self)
    (trace ++ [Resumed before (websocket_connect request') found answer]) t' ->
  Exists (closes ws) trace.
Proof.
  intros Hsteps. apply steps_app_inv in Hsteps as (u & Htrace & Hlast).
  destruct (forward_link_holds_socket url request ws _ _ _ Htrace)
    as [Hclosed|Hstill].
  { left. by exists bot, self. }
  { exact Hclosed. }
  exfalso. apply steps_inv in Hlast.
  destruct Hlast as (X & e & k & x & Hu & Hi & _).
  destruct Hstill as [(bot' & s & H)|(bot' & s & H)].
  - rewrite forward_link_receiving_unfold in H. rewrite Hu in H.
    destruct (vis_eutt_resumption _ _ _ _ H x) as ([found0 answer0] & _ & Hsame).
    rewrite Hi in Hsame. apply (f_equal outcome_of) in Hsame. discriminate Hsame.
  - rewrite forward_link_closing_unfold in H. rewrite Hu in H.
    destruct (vis_eutt_resumption _ _ _ _ H x) as ([found0 answer0] & _ & Hsame).
    rewrite Hi in Hsame. apply (f_equal outcome_of) in Hsame. discriminate Hsame.
Qed.

(** A session that goes through a trace has closed its socket on the way,
    or is still about to receive or to close. *)
Lemma reverse_session_holds_socket (websocket : WebSocket) (identity : string)
  (t t' : itree asyncE (Adapter * (exn + unit))) (trace : list interaction) :
  steps t trace t' ->
  (exists self, t ≈ reverse_session websocket identity self) \/
  (exists self, t ≈ reverse_session_closing websocket identity self) ->
  Exists (closes websocket) trace \/
  (exists self, t' ≈ reverse_session websocket identity self) \/
  (exists self, t' ≈ reverse_session_closing websocket identity self).
Proof.
  induction 1 as [t t' Heq|R t self a k found answer rest t' Heq Hrest IH];
    intros Hholds.
  - right. destruct Hholds as [(s & H)|(s & H)].
    + left. exists s. by rewrite <- Heq.
    + right. exists s. by rewrite <- Heq.
  - destruct Hholds as [(s & H)|(s & H)].
    + rewrite reverse_session_unfold in H. rewrite Heq in H.
      destruct (vis_eutt_resumption _ _ _ _ H (found, answer))
        as ([found0 answer0] & Hx & _).
      cbn [fst snd] in Hx.
      destruct IH as [Hclosed|Hstill].
      * destruct answer0 as [e|data].
        -- right. by exists (session_failed identity e found0).
        -- destruct (_handle_ws_dispatch {| self_id := identity |} data found0)
             as [handled [e|[]]].
           ++ right. by exists (session_failed identity e handled).
           ++ left. by exists handled.
      * left. by apply Exists_cons_tl.
      * by right.
    + rewrite reverse_session_closing_unfold in H. rewrite Heq in H.
      destruct (vis_eutt_resumption _ _ _ _ H (found, answer))
        as ([found0 answer0] & _ & Hsame).
      left. apply Exists_cons_hd. cbn [resumption fst snd] in Hsame.
      by exists s, 1000, "", found0, answer0.
Qed.

(** X26.  The handler of a reverse WebSocket that has accepted the
    handshake and registered its bot does not return without having
    closed the socket.  The one way out of the handler with the socket
    open is the exception of [bot_connect], when the identity has become a
    bot while [accept] was awaited: nothing is awaited any more, and the
    socket stays in the connection table. *)
Theorem _handle_ws_closes_before_return (websocket : WebSocket)
  (self : Adapter) (identity : string) :
  headers (request websocket) !! "x-self-id" = Some identity ->
  identity <> "" ->
  bots self !! identity = None ->
  _check_access_token (request websocket) self = (self, inr None) ->
  exists k,
    _handle_ws websocket self ≅ Vis (Await self (websocket_accept websocket)) k /\
    forall found trace t' self' r,
      steps (k (found, inr tt)) trace t' ->
      t' ≈ Ret (self', r) ->
      match bots found !! identity with
      | None => Exists (closes websocket) trace
      | Some _ =>
          trace = [] /\
          r = inl (duplicate_bot_connection identity) /\
          self' = set_connections (fun c => <[identity := websocket]> c) found /\
          connections self' !! identity = Some websocket
      end.
Proof.
  intros Hid Hne Hbot Htok. eexists. split.
  { by apply _handle_ws_accepted. }
  intros found trace t' self' r Hsteps Hret.
  destruct (bots found !! identity) as [known|] eqn:Hfound.
  - rewrite reverse_accepted_refused in Hsteps by (rewrite Hfound; eauto).
    apply steps_of_ret in Hsteps as [-> Hsame].
    rewrite Hret in Hsame. apply eqit_inv_Ret in Hsame.
    injection Hsame as -> ->.
    split; [reflexivity|]. split; [reflexivity|]. split; [reflexivity|].
    apply lookup_insert_eq.
  - rewrite reverse_accepted_session in Hsteps by exact Hfound.
    destruct (reverse_session_holds_socket websocket identity _ _ _ Hsteps)
      as [Hclosed|[(s & H)|(s & H)]].
    + left. by eexists.
    + exact Hclosed.
    + exfalso. rewrite Hret in H. rewrite reverse_session_unfold in H.
      symmetry in H. exact (vis_not_ret _ _ _ H).
    + exfalso. rewrite Hret in H. rewrite reverse_session_closing_unfold in H.
      symmetry in H. exact (vis_not_ret _ _ _ H).
Qed.

End SocketsAreClosed.


(** ** API calls: what they keep *)

Section CallInvariants.
Context `{RT : Runtime}.

Section Points.
Variable state : Adapter -> Prop.
Hypothesis state_kept :
  forall self self', same_but_log_and_results self self' -> state self -> state self'.

Lemma call_point_where_eutt (t u : itree asyncE (Adapter * (exn + json))) :
  t ≈ u -> call_point_where state u -> call_point_where state t.
Proof.
  intros Htu [self websocket data identity seq Hs H|R self a outcome Hs H|self r Hs H].
  - eapply where_sending; [exact Hs|]. rewrite Htu. exact H.
  - eapply where_last_await; [exact Hs|]. rewrite Htu. exact H.
  - eapply where_call_returned; [exact Hs|]. rewrite Htu. exact H.
Qed.

Lemma call_point_where_resumed (t : itree asyncE (Adapter * (exn + json)))
  {X} (e : asyncE X) (k : X -> itree asyncE (Adapter * (exn + json))) (x : X) :
  call_point_where state t ->
  t ≈ Vis e k ->
  state (left_by (resumption e x)) /\
  (state (found_by (resumption e x)) -> call_point_where state (k x)).
Proof.
  intros [self websocket data identity seq Hs H|R self a outcome Hs H|self r Hs H] Ht.
  - rewrite Ht in H.
    destruct (vis_eutt_resumption _ _ _ _ H x) as ([found answer] & Hx & ->).
    cbn [resumption left_by found_by fst snd]. split; [exact Hs|]. intros Hfound.
    eapply call_point_where_eutt; [exact Hx|]. cbn [fst snd].
    destruct answer as [e0|sent].
    + eapply where_call_returned; [exact Hfound|reflexivity].
    + eapply (where_last_await state _ found
                (ResultStore_fetch identity seq (api_timeout (config found)))
                (fun r => match r with
                          | inl e => inl e
                          | inr result => _handle_api_result result
                          end)); [exact Hfound|reflexivity].
  - rewrite Ht in H.
    destruct (vis_eutt_resumption _ _ _ _ H x) as ([found answer] & Hx & ->).
    cbn [resumption left_by found_by fst snd]. split; [exact Hs|]. intros Hfound.
    eapply where_call_returned; [exact Hfound|exact Hx].
  - rewrite Ht in H. exfalso. exact (vis_not_ret _ _ _ H).
Qed.

Lemma call_point_where_steps (t t' : itree asyncE (Adapter * (exn + json)))
  (trace : list interaction) :
  steps t trace t' ->
  call_point_where state t ->
  Forall (fun i => state (found_by i)) trace ->
  Forall (fun i => state (left_by i)) trace /\ call_point_where state t'.
Proof.
  induction 1 as [t t' Heq|R t self a k found answer rest t' Heq Hrest IH];
    intros Hpoint Hfound.
  - split; [constructor|].
    eapply call_point_where_eutt; [symmetry; exact Heq|exact Hpoint].
  - apply Forall_cons in Hfound as [Hfound Hrest_found].
    destruct (call_point_where_resumed t (Await self a) k (found, answer)
                Hpoint Heq) as [Hleft Hnext].
    destruct (IH (Hnext Hfound) Hrest_found) as [Hlefts Hpoint'].
    split; [|exact Hpoint']. constructor; [exact Hleft|exact Hlefts].
Qed.

Lemma call_point_where_returned (t : itree asyncE (Adapter * (exn + json)))
  (self : Adapter) (r : exn + json) :
  call_point_where state t -> t ≈ Ret (self, r) -> state self.
Proof.
  intros [s websocket data identity seq Hs H|R s a outcome Hs H|s r0 Hs H] Hret;
    rewrite Hret in H.
  - symmetry in H. destruct (vis_not_ret _ _ _ H).
  - symmetry in H. destruct (vis_not_ret _ _ _ H).
  - apply eqit_inv_Ret in H. injection H as <- _. exact Hs.
Qed.

(** The call starts at one of its points. *)
Lemma _call_api_point (bot : Bot) (api : string) (data : json)
  (self : Adapter) :
  state self -> call_point_where state (_call_api bot api data self).
Proof.
  intros Hself.
  assert (Hlog : state (calling_api api self)).
  { eapply state_kept; [|exact Hself]. by repeat split. }
  destruct (connections self !! self_id bot) as [websocket|] eqn:Hc.
  - destruct (ResultStore_get_seq (result_store self)) as [seq store] eqn:Hseq.
    eapply (where_sending state _
              (set_result_store (fun _ => store) (calling_api api self))
              websocket _ (self_id bot) seq).
    + eapply state_kept; [|exact Hself]. by repeat split.
    + unfold _call_api.
      rewrite bindT_sync. cbn [gets]. rewrite Hc.
      rewrite bindT_sync. cbn [log modify].
      rewrite bindT_sync. unfold get_seq. cbn [result_store set_journal].
      rewrite Hseq. rewrite bindT_await.
      apply eqit_Vis. intros [sent [e|[]]]; cbn [fst snd]; [reflexivity|].
      rewrite bindT_sync. cbn [gets]. rewrite bindT_await.
      apply eqit_Vis. intros [fetched [e|result]]; cbn [fst snd]; reflexivity.
  - destruct (is_ForwardDriver (driver self)) eqn:Hf.
    + destruct (str_truthy (api_root (config self) !! self_id bot)) eqn:Hroot.
      * destruct (Request_url (http_api_url self bot api)) as [msg|address]
          eqn:Hurl.
        -- eapply where_call_returned; [exact Hlog|].
           rewrite (_call_api_bad_url bot api data self msg Hc Hf Hroot Hurl).
           reflexivity.
        -- eapply (where_last_await state _ (calling_api api self));
             [exact Hlog|].
           rewrite (_call_api_http bot api data self address Hc Hf Hroot Hurl).
           reflexivity.
      * eapply where_call_returned; [exact Hlog|].
        rewrite (_call_api_unavailable bot api data self Hc); [reflexivity|].
        by right.
    + eapply where_call_returned; [exact Hlog|].
      rewrite (_call_api_unavailable bot api data self Hc); [reflexivity|].
      by left.
Qed.

End Points.

(** X29.  An API call writes nothing but the log and the result store.
    Whatever holds of an adapter regardless of those two, if it holds when
    the call starts and whenever the call is resumed, holds whenever the
    call suspends and when it returns; so it is with
    [connections_are_bots]. *)
Theorem _call_api_writes_log_and_results_only (state : Adapter -> Prop)
  (bot : Bot) (api : string) (data : json) (self : Adapter)
  (trace : list interaction) (t' : itree asyncE (Adapter * (exn + json))) :
  (forall self self', same_but_log_and_results self self' ->
                      state self -> state self') ->
  state self ->
  steps (_call_api bot api data self) trace t' ->
  Forall (fun i => state (found_by i)) trace ->
  Forall (fun i => state (left_by i)) trace /\
  forall self' r, t' ≈ Ret (self', r) -> state self'.
Proof.
  intros Hkept Hself Hsteps Hfound.
  destruct (call_point_where_steps state _ _ _ Hsteps
              (_call_api_point state Hkept bot api data self Hself) Hfound)
    as [Hlefts Hpoint].
  split; [exact Hlefts|]. intros self' r.
  by apply (call_point_where_returned state).
Qed.

End CallInvariants.


(** ** Starting the forward links *)

Section Startup.
Context `{RT : Runtime}.
Variable URL : string -> exn + string.

Lemma start_forward_loop_outcome (urls : list string) :
  forall (tasks : list string) (self : Adapter),
    start_forward_loop URL urls tasks self =
    (set_journal (fun j =>
       (j ++ omap (fun url => match URL url with
                              | inl e => Some (bad_url url e)
                              | inr _ => None
                              end) urls)%list) self,
     inr (tasks ++ omap (fun url => match URL url with
                                    | inl _ => None
                                    | inr ws_url => Some ws_url
                                    end) urls)%list).
Proof.
  induction urls as [|url urls IH]; intros tasks self.
  - simpl. rewrite app_nil_r. destruct self. unfold ret, set_journal. simpl.
    by rewrite app_nil_r.
  - cbn [start_forward_loop omap list_omap].
    unfold bind at 1. unfold try_except, bind, lift.
    destruct (URL url) as [e|ws_url].
    + unfold log, modify, ret. rewrite IH. unfold set_journal, bad_url. simpl.
      by rewrite <- app_assoc.
    + unfold ret. rewrite IH. by rewrite <- app_assoc.
Qed.

(** X23.  [start_forward] does not raise.  It creates one task for every
    configured URL that [URL] takes, in the order of the configuration and
    behind the tasks that are there; every URL that [URL] refuses is
    written to the log with the exception, and the loop goes on. *)
Theorem start_forward_skips_bad_urls (tasks : list string) (self : Adapter) :
  let urls := onebot_ws_urls (config self) in
  start_forward URL tasks self =
  (set_journal (fun j =>
     (j ++ omap (fun url => match URL url with
                            | inl e => Some (bad_url url e)
                            | inr _ => None
                            end) urls)%list) self,
   inr (tasks ++ omap (fun url => match URL url with
                                  | inl _ => None
                                  | inr ws_url => Some ws_url
                                  end) urls)%list).
Proof.
  intros urls. unfold start_forward, bind, gets.
  apply start_forward_loop_outcome.
Qed.

End Startup.

(** ** An access token that is the empty string *)

Section EmptyToken.
Context `{RT : Runtime}.

(** X24.  An access token that is the empty string.  Every inbound request
    passes the token check and nothing is logged; the forward link connects
    without [Authorization] header; and the HTTP fallback, when its address
    is a URL, sends the header [Authorization] with [Bearer ] and nothing
    behind it: line 106 tests [is not None] where lines 245 and 282 test
    truth. *)
Theorem empty_access_token (self : Adapter) :
  onebot_access_token (config self) = Some "" ->
  (forall request, _check_access_token request self = (self, inr None)) /\
  (forall url,
      headers (forward_request url self) = ∅ /\
      _forward_ws url self ≅ forward_link url (forward_request url self) None self) /\
  (forall bot api data address,
      connections self !! self_id bot = None ->
      is_ForwardDriver (driver self) = true ->
      str_truthy (api_root (config self) !! self_id bot) = true ->
      Request_url (http_api_url self bot api) = inr address ->
      exists request k,
        _call_api bot api data self ≅
        Vis (Await (calling_api api self) (driver_request request)) k /\
        headers request !! "Authorization" = Some "Bearer ").
Proof.
  intros Hempty. split; [|split].
  - intros request. unfold _check_access_token, bind, gets. rewrite Hempty.
    reflexivity.
  - intros url. split.
    + unfold forward_request. rewrite Hempty. reflexivity.
    + apply _forward_ws_is_forward_link.
  - intros bot api data address Hc Hf Hroot Hurl. eexists _, _.
    split; [by apply (_call_api_http bot api data self address)|].
    unfold http_api_request. cbn [headers]. rewrite Hempty.
    by rewrite lookup_insert_eq.
Qed.

End EmptyToken.


(** ** The properties on the scenarios *)

Import Scenario.

(** Scenario A of the specification: a private message from a friend comes
    in over the webhook of an adapter without secret or token.  The answer
    is 204, the peer becomes a bot, and the event handed to it is of the
    class registered for [message.private], the most specific one there
    is. *)
Example webhook_private_message :
  let result :=
    @_handle_http runtime (post "123" (Some "private message")) started in
  snd result = inr {| status_code := 204; response_content := None |} /\
  spawned (fst result)
  = [({| self_id := "123" |}, ("message.private", private_message))] /\
  bots (fst result) !! "123" = Some {| self_id := "123" |} /\
  connections (fst result) !! "123" = None.
Proof. vm_compute. repeat split. Qed.

(** C3 at the registry of the scenario, for a private message of a friend. *)
Lemma most_specific_first_for_private_message :
  registered (RT := runtime) (event_models started) "message" "message" /\
  registered (RT := runtime) (event_models started) "message.private" "message.private" /\
  exists before between after,
    get_event_model (RT := runtime) (event_models started) "message.private.friend"
    = (before ++ "message.private" :: between ++ "message" :: after)%list.
Proof.
  split; [vm_compute; reflexivity|]. split; [vm_compute; reflexivity|].
  destruct (get_event_model_most_specific_first (RT := runtime)
              (event_models started) "message" "message.private"
              "message.private.friend" "message" "message.private")
    as (before & between & after & H & _).
  - vm_compute. reflexivity.
  - vm_compute. reflexivity.
  - exists ["private"]. vm_compute. reflexivity.
  - vm_compute. discriminate.
  - exists ["friend"]. vm_compute. reflexivity.
  - exists before, between, after. exact H.
Defined.

(** C4 on the private message. *)
Lemma classification_path_of_private_message :
  event_name_of (RT := runtime)
    [("post_type", JString "message"); ("message_type", JString "private");
     ("sub_type", JString "friend"); ("self_id", JInt 123)]
    (JString "message")
  = inr "message.private.friend".
Proof.
  destruct (event_name_is_classification_path (RT := runtime)
              [("post_type", JString "message"); ("message_type", JString "private");
               ("sub_type", JString "friend"); ("self_id", JInt 123)]
              (JString "message") None started) as (_ & H & _).
  - reflexivity.
  - destruct (H "message" eq_refl) as [Hname _]. exact Hname.
Defined.

(** A payload whose primary type is the number 5: line 365 raises and no
    name is computed.  So the computed path is not the primary type with
    its qualifiers for every payload with a primary-type field. *)
Lemma no_path_for_primary_type_5 :
  ~ (forall (RT : Runtime) (d : list (string * json)) (post_type : json),
        dict_get "post_type" d = Some post_type ->
        event_name_of d post_type
        = inr (classification_path (text_of post_type)
                 (dict_get (text_of post_type ++ "_type") d)
                 (dict_get "sub_type" d))).
Proof.
  intros H.
  specialize (H runtime [("post_type", JInt 5); ("self_id", JInt 123)] (JInt 5)
                eq_refl).
  discriminate H.
Qed.

(** A sub-type that is the number 0 is there and is left out of the name
    all the same: the test of line 364 is one of truth. *)
Example sub_type_zero_is_left_out :
  event_name_of (RT := runtime)
    [("post_type", JString "message"); ("message_type", JString "private");
     ("sub_type", JInt 0); ("self_id", JInt 123)]
    (JString "message")
  = inr "message.private".
Proof. reflexivity. Qed.

(** C5 on the private message. *)
Lemma json_to_event_of_private_message :
  exists self' result,
    json_to_event (RT := runtime) private_message None started
    = (self', inr result).
Proof.
  destruct (json_to_event_first_valid_else_base (RT := runtime)
              [("post_type", JString "message"); ("message_type", JString "private");
               ("sub_type", JString "friend"); ("self_id", JInt 123)]
              (JString "message") None started) as (self' & result & H & _).
  - reflexivity.
  - exists self', result. exact H.
Defined.

(** A payload whose primary type is the number 5: only the base class
    validates it, and yet [json_to_event] gives no event, for the name of
    line 365 cannot be built and the base class is never asked.  So "if
    every candidate fails, the base Event is constructed" does not hold for
    every payload with a primary-type field. *)
Lemma base_class_not_asked_without_path :
  ~ (forall (RT : Runtime) (d : list (string * json)) (post_type : json)
            (self_id : option string) (self : Adapter) (event : Event),
        dict_get "post_type" d = Some post_type ->
        (forall model ev, parse_obj model (JDict d) = inr ev -> model = EventBase) ->
        parse_obj EventBase (JDict d) = inr event ->
        snd (json_to_event (JDict d) self_id self) = inr (Some event)).
Proof.
  intros H.
  specialize (H runtime [("post_type", JInt 5); ("self_id", JInt 123)]
                (JInt 5) None started
                ("", JDict [("post_type", JInt 5); ("self_id", JInt 123)])
                eq_refl).
  assert (Hnone : snd (json_to_event (RT := runtime)
                         (JDict [("post_type", JInt 5); ("self_id", JInt 123)])
                         None started) = inr None)
    by (vm_compute; reflexivity).
  rewrite Hnone in H. discriminate H.
  - intros model ev. cbn. destruct (String.eqb model "") eqn:E.
    + intros _. by apply String.eqb_eq.
    + discriminate.
  - reflexivity.
Qed.

(** A body that is not JSON, with nothing to authenticate: the exception of
    the decoder comes out of the handler, and no answer does. *)
Lemma webhook_body_not_json :
  @_handle_http runtime (post "123" (Some "not json")) started
  = (started, inl (Raised "JSONDecodeError" "Expecting value")).
Proof.
  apply (_handle_http_undecodable_body_raises (RT := runtime) started
           (post "123" (Some "not json")) "not json").
  - vm_compute. reflexivity.
  - reflexivity.
  - reflexivity.
Defined.

(** The status of the cascade for the private message. *)
Lemma webhook_status_of_private_message :
  exists self' response,
    @_handle_http runtime (post "123" (Some "private message")) started
    = (self', inr response) /\
    status_code response = 204.
Proof.
  destruct (_handle_http_status (RT := runtime) started
              (post "123" (Some "private message")))
    as (self' & response & H & Hstatus).
  - intros _ data [= <-]. eexists. vm_compute. reflexivity.
  - exists self', response. split; [exact H|]. rewrite Hstatus.
    vm_compute. reflexivity.
Defined.

(** A secret is configured, the request carries neither signature nor
    body: the answer is 401, the signature header being looked at first.
    So "400 when a signature is required and the body is missing" does not
    hold for every request. *)
Lemma missing_body_without_signature_is_not_400 :
  ~ (forall (RT : Runtime) (self : Adapter) (request : Request),
        str_truthy (headers request !! "x-self-id") = true ->
        str_truthy (onebot_secret (config self)) = true ->
        content request = None ->
        exists self' response,
          _handle_http request self = (self', inr response) /\
          status_code response = 400).
Proof.
  intros H.
  destruct (H runtime (adapter reverse_driver secret_config) (post "123" None))
    as (self' & response & Heq & Hstatus); [reflexivity..|].
  assert (H401 : snd (_handle_http (RT := runtime) (post "123" None)
                        (adapter reverse_driver secret_config))
                 = inr {| status_code := 401;
                          response_content := Some "Missing Signature" |})
    by (vm_compute; reflexivity).
  rewrite Heq in H401. cbn [snd] in H401. injection H401 as ->.
  discriminate Hstatus.
Qed.

(** An HTTP root is configured for the peer and the driver is reverse-only:
    the call raises [ApiNotAvailable] all the same.  So [ApiNotAvailable]
    is not raised only when there is neither connection nor HTTP root. *)
Lemma ApiNotAvailable_despite_http_root :
  ~ (forall (RT : Runtime) (bot : Bot) (api : string) (data : json)
            (self : Adapter),
        (exists self',
            _call_api bot api data self ≅ Ret (self', inl ApiNotAvailable))
        <->
        connections self !! self_id bot = None /\
        str_truthy (api_root (config self) !! self_id bot) = false).
Proof.
  intros H.
  destruct (H runtime {| self_id := "123" |} "send_msg" (JDict [])
              (adapter reverse_driver http_config)) as [Himp _].
  destruct Himp as [_ Hroot].
  - eexists. apply _call_api_unavailable; [reflexivity|left; reflexivity].
  - vm_compute in Hroot. discriminate Hroot.
Qed.

(** C7 with an HTTP root for the peer 123 and a driver that can send: the
    peer answers the request with status 200 and reports that the action
    has failed.  [_handle_api_result] raises [ActionFailed] for that
    answer, and the call raises [NetworkError]. *)
Lemma failed_action_over_http_is_NetworkError :
  let self := adapter full_driver http_config in
  let response :=
    {| status_code := 200; response_content := Some "result failed" |} in
  _handle_api_result (Runtime := runtime) result_failed
  = inl (Raised "ActionFailed" "retcode") /\
  exists k,
    _call_api (RT := runtime) {| self_id := "123" |} "send_msg" (JDict []) self
    ≅ Vis (Await (calling_api "send_msg" self)
             (driver_request
                (http_api_request (RT := runtime) self (JDict [])
                   "http://127.0.0.1:5700/send_msg"))) k /\
    forall self',
      k (self', inr response)
      ≅ Ret (self', inl (NetworkError "HTTP request failed")).
Proof.
  intros self response. split; [reflexivity|].
  destruct (_call_api_http_fallback (RT := runtime) {| self_id := "123" |}
              "send_msg" (JDict []) self) as [_ Hsent].
  - reflexivity.
  - reflexivity.
  - reflexivity.
  - destruct (Hsent "http://127.0.0.1:5700/send_msg") as (k & Hk & Hanswer).
    + vm_compute. reflexivity.
    + exists k. split; [exact Hk|]. intros self'.
      destruct (Hanswer self' response) as (_ & _ & Hbody & _).
      destruct (Hbody ltac:(cbn; lia) "result failed" result_failed)
        as [_ Hfailed].
      * reflexivity.
      * discriminate.
      * reflexivity.
      * apply (Hfailed (Raised "ActionFailed" "retcode")); reflexivity.
Defined.

(** The root configured for the peer 123 is no URL: the call raises the
    [ValueError] of the constructor, and no request is made. *)
Example call_with_bad_root_raises_ValueError :
  _call_api (RT := runtime) {| self_id := "123" |} "send_msg" (JDict [])
    (adapter full_driver bad_root_config)
  ≅ Ret (calling_api "send_msg" (adapter full_driver bad_root_config),
         inl (ValueError "Invalid IPv6 URL")).
Proof.
  apply (_call_api_bad_url (RT := runtime)); reflexivity.
Qed.

(** C10 after the webhook has made the peer 123 a bot: no connection is
    stored for it, and its reverse WebSocket is turned away. *)
Lemma reverse_websocket_after_webhook :
  connections after_webhook !! "123" = None /\
  _handle_ws (RT := runtime) (socket 1 "123") after_webhook ≅
  await (websocket_close (socket 1 "123") 1008 "Duplicate X-Self-ID")
    (set_journal (fun j => (j ++ [duplicate_bot_warning "123"])%list)
       after_webhook).
Proof.
  split; [vm_compute; reflexivity|].
  destruct (_handle_ws_rejects_known_bot (RT := runtime) (socket 1 "123")
              after_webhook "123") as [Hknown _].
  - reflexivity.
  - discriminate.
  - apply (Hknown {| self_id := "123" |}). vm_compute. reflexivity.
Defined.

(** The peer 123 is connected over a reverse WebSocket when a forward link
    receives the lifecycle frame of a peer 123.  The link takes the entry
    of the connection table, [bot_connect] raises, and when the link has
    closed its own socket neither the connection nor the bot of the peer
    is registered any more. *)
Lemma forward_link_takes_over_peer_123 :
  let url := "ws://127.0.0.1:6700" in
  let request := forward_request (RT := runtime) url connected in
  let bot := {| self_id := "123" |} in
  connections connected !! "123" = Some (socket 1 "123") /\
  bots connected !! "123" = Some bot /\
  exists self',
    _forward_ws_dispatch (RT := runtime) link "lifecycle connect" None connected
    = (Some bot, self', inl (duplicate_bot_connection "123")) /\
    connections self' !! "123" = Some link /\
    forall closed woke,
      steps (forward_link_receiving (RT := runtime) url request link None connected)
        [Resumed connected (websocket_receive link) connected
           (inr "lifecycle connect");
         Resumed (receive_failed url (duplicate_bot_connection "123") self')
           (websocket_close link 1000 "") closed (inr tt);
         Resumed (dropped (Some bot) closed)
           (asyncio_sleep RECONNECT_INTERVAL) woke tt]
        (forward_link url request None woke) /\
      connections (dropped (Some bot) closed) !! "123" = None /\
      bots (dropped (Some bot) closed) !! "123" = None.
Proof.
  intros url request bot.
  split; [vm_compute; reflexivity|]. split; [vm_compute; reflexivity|].
  destruct (_forward_ws_dispatch_replaces_connection (RT := runtime)
              link (socket 1 "123") "lifecycle connect" lifecycle_connect
              ("meta_event.lifecycle", lifecycle_connect) connected)
    as (self' & r & H & _ & Hws & _ & Hknown).
  - vm_compute. reflexivity.
  - vm_compute. reflexivity.
  - vm_compute. reflexivity.
  - vm_compute. reflexivity.
  - vm_compute. reflexivity.
  - destruct Hknown as (-> & _ & Hdown).
    + vm_compute. eauto.
    + exists self'. split; [exact H|]. split; [exact Hws|].
      intros closed woke.
      exact (Hdown url request connected closed (inr tt) woke).
Defined.

(** Scenario B of the specification: the connect of a forward link fails
    three times and then succeeds, and the peer announces itself as 123.
    The link has slept [RECONNECT_INTERVAL] three times, is in its receive
    loop with the bot 123, and the connection table holds its socket. *)
Example forward_link_after_three_failures :
  let url := "ws://127.0.0.1:6700" in
  let s0 := adapter full_driver no_config in
  let request := forward_request (RT := runtime) url s0 in
  let refused := Raised "ConnectionRefusedError" "" in
  let s1 := connect_failed (RT := runtime) url refused s0 in
  let s2 := connect_failed (RT := runtime) url refused s1 in
  let s3 := connect_failed (RT := runtime) url refused s2 in
  exists s5,
    steps (_forward_ws (RT := runtime) url s0)
      (failed_connects url request s0
         [(refused, s0, s1); (refused, s1, s2); (refused, s2, s3)]
       ++ [Resumed s3 (websocket_connect request) s3 (inr link);
           Resumed (established url s3) (websocket_receive link)
             (established url s3) (inr "lifecycle connect")])%list
      (forward_link_receiving url request link (Some {| self_id := "123" |}) s5) /\
    connections s5 !! "123" = Some link /\
    bots s5 !! "123" = Some {| self_id := "123" |} /\
    spawned s5 = [({| self_id := "123" |}, ("meta_event.lifecycle", lifecycle_connect))].
Proof.
  intros url s0 request refused s1 s2 s3.
  destruct (_forward_ws_dispatch (RT := runtime) link "lifecycle connect" None
              (established url s3)) as [[bot s5] r] eqn:Hdispatch.
  assert (Hr : r = inr tt)
    by (apply (f_equal snd) in Hdispatch; vm_compute in Hdispatch; congruence).
  assert (Hbot : bot = Some {| self_id := "123" |})
    by (apply (f_equal (fun x => fst (fst x))) in Hdispatch;
        vm_compute in Hdispatch; congruence).
  assert (Hs : connections s5 !! "123" = Some link /\
               bots s5 !! "123" = Some {| self_id := "123" |} /\
               spawned s5
               = [({| self_id := "123" |}, ("meta_event.lifecycle", lifecycle_connect))]).
  { apply (f_equal (fun x => snd (fst x))) in Hdispatch. simpl in Hdispatch.
    subst s5. vm_compute. repeat split; reflexivity. }
  subst r bot. exists s5. split; [|exact Hs].
  eapply steps_app.
  - eapply steps_eutt.
    + rewrite _forward_ws_is_forward_link. reflexivity.
    + apply (forward_link_failed_connects (RT := runtime) url request None
               [(refused, s0, s1); (refused, s1, s2); (refused, s2, s3)] s0).
  - cbn [after_failures].
    eapply steps_await; [apply forward_link_unfold|]. cbn [fst snd].
    eapply steps_await; [apply forward_link_receiving_unfold|]. cbn [fst snd].
    rewrite Hdispatch. apply steps_here. reflexivity.
Qed.


(** ** Further properties on the scenarios *)

(** X3 at the registry of the scenario: the base class is no candidate for
    a private message of a friend. *)
Lemma base_class_no_candidate_for_private_message :
  ~ In (EventBase (Runtime := runtime))
       (get_event_model (RT := runtime) (event_models started)
          "message.private.friend").
Proof.
  apply (get_event_model_excludes_base (RT := runtime)).
  - apply (init_event_models_well_keyed (RT := runtime)).
  - reflexivity.
  - discriminate.
  - intros name'. discriminate.
Defined.

(** X4 for a custom class of private messages of friends. *)
Lemma custom_model_is_first_candidate :
  exists self' less_specific,
    add_custom_model (RT := runtime) "message.private.friend" started
    = (self', inr tt) /\
    get_event_model (RT := runtime) (event_models self') "message.private.friend"
    = "message.private.friend" :: less_specific.
Proof.
  destruct (add_custom_model_first_candidate (RT := runtime)
              "message.private.friend" started)
    as (self' & less_specific & Hadd & Hfirst & _).
  - discriminate.
  - exists self', less_specific. split; [exact Hadd|exact Hfirst].
Defined.

(** X5: with that class registered, the private message of a friend is an
    event of the class. *)
Lemma custom_model_parses_private_message :
  snd (json_to_event (RT := runtime) private_message None
         (fst (add_custom_model (RT := runtime) "message.private.friend" started)))
  = inr (Some ("message.private.friend", private_message)).
Proof.
  apply (add_custom_model_takes_effect (RT := runtime) "message.private.friend"
           [("post_type", JString "message"); ("message_type", JString "private");
            ("sub_type", JString "friend"); ("self_id", JInt 123)]
           "message").
  - discriminate.
  - reflexivity.
  - vm_compute. reflexivity.
  - vm_compute. reflexivity.
Defined.

(** X6: a custom class of notices leaves the candidates of a private
    message alone. *)
Lemma custom_notice_leaves_messages_alone :
  get_event_model (RT := runtime)
    (event_models (fst (add_custom_model (RT := runtime) "notice.custom" started)))
    "message.private"
  = get_event_model (RT := runtime) (event_models started) "message.private".
Proof.
  apply (add_custom_model_local (RT := runtime) "notice.custom" started
           "message.private").
  intros [ext Hext]. vm_compute in Hext. discriminate Hext.
Defined.

(** X9: the link of the peer 123 receives the answer to the call number 1
    a second time.  [add_result] raises, and so does the suite; the link
    closes its socket and drops its bot. *)
Lemma identified_link_refuses_second_answer :
  let url := "ws://127.0.0.1:6700" in
  let request := forward_request (RT := runtime) url linked_answered in
  let bot := {| self_id := "123" |} in
  let done := Raised "InvalidStateError" "invalid state" in
  _forward_ws_dispatch (RT := runtime) link "result ok" (Some bot) linked_answered
  = (Some bot, linked_answered, inl done) /\
  forall closed woke,
    steps (forward_link_receiving (RT := runtime) url request link (Some bot)
             linked_answered)
      [Resumed linked_answered (websocket_receive link) linked_answered
         (inr "result ok");
       Resumed (receive_failed url done linked_answered)
         (websocket_close link 1000 "") closed (inr tt);
       Resumed (dropped (Some bot) closed)
         (asyncio_sleep RECONNECT_INTERVAL) woke tt]
      (forward_link url request None woke).
Proof.
  intros url request bot done.
  destruct (_forward_ws_dispatch_identified (RT := runtime) link bot
              "result ok" result_ok linked_answered)
    as (self' & r & H & _ & _ & [(d & _ & _ & Hstore)|(Hr & _)] & Hdown).
  - reflexivity.
  - destruct Hstore as [-> ->]. split; [exact H|].
    intros closed woke.
    exact (Hdown done url request linked_answered closed (inr tt) woke eq_refl).
  - subst r. apply (f_equal snd) in H. vm_compute in H. discriminate H.
Defined.

(** X10: a link that does not know its peer yet drops a private message. *)
Lemma unidentified_link_drops_private_message :
  exists self',
    _forward_ws_dispatch (RT := runtime) link "private message" None
      (adapter full_driver no_config)
    = (None, self', inr tt) /\
    logged (RT := runtime) (adapter full_driver no_config) self'.
Proof.
  apply (_forward_ws_dispatch_unidentified (RT := runtime) link
           "private message" private_message (adapter full_driver no_config)).
  - reflexivity.
  - intros event Hevent Hlife. vm_compute in Hevent.
    injection Hevent as <-. vm_compute in Hlife. discriminate Hlife.
Defined.

(** X12: a webhook request at an adapter with a secret, for which a task
    is created, carried the signature of its body. *)
Lemma dispatched_webhook_was_signed :
  let request :=
    {| method := "POST"; url := "/onebot/v11/http";
       headers := <["x-signature" := "sha1=s3cret/private message"]>
                    {["x-self-id" := "123"]};
       content := Some "private message"; timeout := None |} in
  exists body,
    content request = Some body /\
    headers request !! "x-signature"
    = Some ("sha1=" ++ hmac_sha1_hexdigest (Runtime := runtime) "s3cret" body).
Proof.
  intros request.
  destruct (_handle_http_dispatches_only_authenticated (RT := runtime) request
              (adapter reverse_driver secret_config)) as (_ & Hsigned & _).
  - vm_compute. discriminate.
  - apply Hsigned. reflexivity.
Defined.

(** X13: a call for the peer 123, which is connected. *)
Lemma call_over_connection_of_peer_123 :
  exists self1 json_data k,
    _call_api (RT := runtime) {| self_id := "123" |} "send_msg" (JDict []) connected
    ≅ Vis (Await self1 (websocket_send (socket 1 "123") json_data)) k.
Proof.
  eexists _, _, _.
  apply (_call_api_over_connection (RT := runtime) {| self_id := "123" |}
           "send_msg" (JDict []) connected (socket 1 "123")).
  reflexivity.
Defined.

(** X14: the request of the HTTP fallback for the peer 123. *)
Lemma http_request_for_peer_123 :
  exists request k,
    _call_api (RT := runtime) {| self_id := "123" |} "send_msg" (JDict [])
      (adapter full_driver http_config)
    ≅ Vis (Await (calling_api "send_msg" (adapter full_driver http_config))
             (driver_request request)) k /\
    method request = "POST" /\
    url request = "http://127.0.0.1:5700/send_msg".
Proof.
  destruct (_call_api_http_request (RT := runtime) {| self_id := "123" |}
              "send_msg" "http://127.0.0.1:5700" (JDict [])
              (adapter full_driver http_config))
    as (root' & Hend & [->|[_ ->]] & Hcall).
  - reflexivity.
  - reflexivity.
  - reflexivity.
  - discriminate.
  - vm_compute in Hend. discriminate Hend.
  - destruct (Request_url _) as [msg|address] eqn:Hurl in Hcall;
      vm_compute in Hurl; [discriminate Hurl|].
    injection Hurl as <-.
    destruct Hcall as (request & k & H & Hmethod & Haddress & _).
    exists request, k. split; [exact H|]. split; [exact Hmethod|exact Haddress].
Defined.

(** X15: the link of the scenario connects, takes the peer 123 as its bot,
    holds the connection of the peer while it receives, and loses its
    socket. *)
Lemma link_keeps_connections_are_bots :
  let url := "ws://127.0.0.1:6700" in
  let s0 := adapter full_driver no_config in
  let request := forward_request (RT := runtime) url s0 in
  let s1 := established (RT := runtime) url s0 in
  let s2 :=
    snd (fst (_forward_ws_dispatch (RT := runtime) link "lifecycle connect"
                None s1)) in
  let reset := Raised "ConnectionResetError" "" in
  let s3 := receive_failed (RT := runtime) url reset s2 in
  let s4 := dropped (RT := runtime) (Some {| self_id := "123" |}) s3 in
  connections s2 !! "123" = Some link /\
  Forall (fun i => connections_are_bots (RT := runtime) (left_by i))
    [Resumed s0 (websocket_connect request) s0 (inr link);
     Resumed s1 (websocket_receive link) s1 (inr "lifecycle connect");
     Resumed s2 (websocket_receive link) s2 (inl reset);
     Resumed s3 (websocket_close link 1000 "") s3 (inr tt);
     Resumed s4 (asyncio_sleep RECONNECT_INTERVAL) s4 tt].
Proof.
  intros url s0 request s1 s2 reset s3 s4.
  split; [vm_compute; reflexivity|].
  assert (H0 : connections_are_bots (RT := runtime) s0)
    by (by apply connections_are_bots_no_connections).
  assert (H1 : connections_are_bots (RT := runtime) s1)
    by (by apply connections_are_bots_no_connections).
  assert (H2 : connections_are_bots (RT := runtime) s2)
    by (by apply _forward_ws_dispatch_connections_are_bots).
  assert (H3 : connections_are_bots (RT := runtime) s3)
    by (eapply connections_are_bots_logged; [by eexists|exact H2]).
  assert (H4 : connections_are_bots (RT := runtime) s4)
    by (by apply connections_are_bots_dropped).
  assert (Hdispatch :
    _forward_ws_dispatch (RT := runtime) link "lifecycle connect" None s1
    = (Some {| self_id := "123" |}, s2, inr tt)).
  { unfold s2.
    destruct (_forward_ws_dispatch (RT := runtime) link "lifecycle connect"
                None s1) as [[bot handled] r] eqn:Hd.
    assert (Hbot : bot = Some {| self_id := "123" |})
      by (apply (f_equal (fun x => fst (fst x))) in Hd;
          vm_compute in Hd; congruence).
    assert (Hr : r = inr tt)
      by (apply (f_equal snd) in Hd; vm_compute in Hd; congruence).
    by subst bot r. }
  apply (_forward_ws_keeps_connections_are_bots (RT := runtime) url s0 _
           (forward_link url request None s4)).
  - exact H0.
  - eapply steps_eutt; [rewrite _forward_ws_is_forward_link; reflexivity|].
    eapply steps_await; [apply forward_link_unfold|]. cbn [fst snd].
    eapply steps_await; [apply forward_link_receiving_unfold|]. cbn [fst snd].
    fold s1. rewrite Hdispatch.
    eapply steps_await; [apply forward_link_receiving_unfold|]. cbn [fst snd].
    apply forward_link_closing_steps.
  - repeat constructor; assumption.
Defined.

(** X16: the link of the scenario connects after one failed connect. *)
Lemma link_connects_without_bot :
  let url := "ws://127.0.0.1:6700" in
  let s0 := adapter full_driver no_config in
  let request := forward_request (RT := runtime) url s0 in
  let refused := Raised "ConnectionRefusedError" "" in
  let s1 := connect_failed (RT := runtime) url refused s0 in
  exists t',
    steps (_forward_ws (RT := runtime) url s0)
      (failed_connects url request s0 [(refused, s0, s1)]
       ++ [Resumed s1 (websocket_connect request) s1 (inr link)])%list t' /\
    t' ≈ forward_link_receiving url request link None (established url s1).
Proof.
  intros url s0 request refused s1.
  assert (Hsteps :
    steps (_forward_ws (RT := runtime) url s0)
      (failed_connects url request s0 [(refused, s0, s1)]
       ++ [Resumed s1 (websocket_connect request) s1 (inr link)])%list
      (forward_link_receiving url request link None (established url s1))).
  { eapply steps_app.
    - eapply steps_eutt.
      + rewrite _forward_ws_is_forward_link. reflexivity.
      + apply (forward_link_failed_connects (RT := runtime) url request None
                 [(refused, s0, s1)] s0).
    - cbn [after_failures].
      eapply steps_await; [apply forward_link_unfold|]. cbn [fst snd].
      apply steps_here. reflexivity. }
  eexists. split; [exact Hsteps|].
  exact (_forward_ws_identifies_per_connection (RT := runtime) url s0
           (failed_connects url request s0 [(refused, s0, s1)]) s1 s1 link _ Hsteps).
Defined.

(** X17: a handshake without identity. *)
Lemma handshake_without_identity :
  _handle_ws (RT := runtime) link started ≅
  await (websocket_close link 1008 "Missing X-Self-ID Header")
    (fst (log (RT := runtime) "WARNING" "Missing X-Self-ID Header" None started)).
Proof.
  apply (_handle_ws_missing_identity (RT := runtime) link started).
  reflexivity.
Defined.

(** X18: a handshake without token at an adapter that wants one. *)
Lemma handshake_without_token :
  let self :=
    adapter reverse_driver
      {| api_root := ∅; api_timeout := Some 30%Q;
         onebot_access_token := Some "t0ken"; onebot_secret := None;
         onebot_ws_urls := [] |} in
  _handle_ws (RT := runtime) (socket 1 "123") self ≅
  await (websocket_close (socket 1 "123") 1008 "Missing Authorization Header")
    (fst (log (RT := runtime) "WARNING" "Missing Authorization Header" None self)).
Proof.
  intros self.
  apply (_handle_ws_bad_token (RT := runtime) (socket 1 "123") self "123").
  - reflexivity.
  - discriminate.
  - reflexivity.
  - reflexivity.
  - vm_compute. discriminate.
Defined.

(** X19: the handshake of the peer 123 at the adapter of the scenario.
    If the webhook has made the peer a bot by the time [accept] answers,
    the handler raises with the socket in the connection table. *)
Lemma session_of_peer_123 :
  exists k,
    _handle_ws (RT := runtime) (socket 1 "123") started
    ≅ Vis (Await started (websocket_accept (socket 1 "123"))) k /\
    (forall found e, k (found, inl e) ≅ Ret (found, inl e)) /\
    k (after_webhook, inr tt)
    ≅ Ret (set_connections (RT := runtime)
             (fun c => <["123" := socket 1 "123"]> c) after_webhook,
           inl (duplicate_bot_connection "123")).
Proof.
  destruct (_handle_ws_session (RT := runtime) (socket 1 "123") started "123")
    as [(k & H & Hraise & Hknown & _) _].
  - reflexivity.
  - discriminate.
  - reflexivity.
  - reflexivity.
  - exists k. split; [exact H|]. split; [exact Hraise|].
    apply Hknown. vm_compute. eauto.
Defined.


(** X22: the handler of the peer 123 accepts, holds the connection of the
    peer while it receives, loses its socket and returns. *)
Lemma handler_keeps_connections_are_bots :
  let ws := socket 1 "123" in
  let c1 := reverse_connected (RT := runtime) "123" ws started in
  let reset := Raised "ConnectionResetError" "" in
  let c2 := session_failed (RT := runtime) "123" reset c1 in
  let c3 := dropped (RT := runtime) (Some {| self_id := "123" |}) c2 in
  connections c1 !! "123" = Some ws /\
  Forall (fun i => connections_are_bots (RT := runtime) (left_by i))
    [Resumed started (websocket_accept ws) started (inr tt);
     Resumed c1 (websocket_receive ws) c1 (inl reset);
     Resumed c2 (websocket_close ws 1000 "") c2 (inr tt)] /\
  connections_are_bots (RT := runtime) c3.
Proof.
  intros ws c1 reset c2 c3.
  split; [vm_compute; reflexivity|].
  assert (H0 : connections_are_bots (RT := runtime) started)
    by (by apply connections_are_bots_no_connections).
  assert (H1 : connections_are_bots (RT := runtime) c1).
  { eapply connections_are_bots_logged; [by eexists|].
    by apply connections_are_bots_registered. }
  assert (H2 : connections_are_bots (RT := runtime) c2)
    by (eapply connections_are_bots_logged; [by eexists|exact H1]).
  destruct (_handle_ws_keeps_connections_are_bots (RT := runtime) ws started
              [Resumed started (websocket_accept ws) started (inr tt);
               Resumed c1 (websocket_receive ws) c1 (inl reset);
               Resumed c2 (websocket_close ws 1000 "") c2 (inr tt)]
              (Ret (c3, inr tt))) as [Hlefts Hreturned].
  - exact H0.
  - eapply steps_await.
    + rewrite (_handle_ws_accepted (RT := runtime) ws started "123");
        [reflexivity|reflexivity|discriminate|reflexivity|reflexivity].
    + rewrite reverse_accepted_session by reflexivity.
      eapply steps_await; [apply reverse_session_unfold|]. cbn [fst snd].
      eapply steps_await; [rewrite reverse_session_closing_unfold; reflexivity|].
      cbn [fst]. apply steps_here. reflexivity.
  - repeat constructor; assumption.
  - split; [exact Hlefts|]. by apply (Hreturned c3 (inr tt)).
Defined.

(** X24: an adapter whose token is the empty string lets a request
    without token pass. *)
Lemma empty_token_lets_pass :
  let self :=
    adapter full_driver
      {| api_root := ∅; api_timeout := Some 30%Q;
         onebot_access_token := Some ""; onebot_secret := None;
         onebot_ws_urls := [] |} in
  _check_access_token (RT := runtime) (post "123" None) self = (self, inr None).
Proof.
  intros self.
  destruct (empty_access_token (RT := runtime) self) as [Hpass _].
  - reflexivity.
  - apply Hpass.
Defined.

(** X25: the link of the scenario loses its connection and connects
    again. *)
Lemma link_closes_before_it_reconnects :
  let url := "ws://127.0.0.1:6700" in
  let s0 := adapter full_driver no_config in
  let request := forward_request (RT := runtime) url s0 in
  let reset := Raised "ConnectionResetError" "" in
  let s1 := receive_failed (RT := runtime) url reset s0 in
  Exists (closes (RT := runtime) link)
    [Resumed s0 (websocket_receive link) s0 (inl reset);
     Resumed s1 (websocket_close link 1000 "") s1 (inr tt);
     Resumed s1 (asyncio_sleep RECONNECT_INTERVAL) s1 tt].
Proof.
  intros url s0 request reset s1.
  apply (_forward_ws_closes_before_reconnect (RT := runtime) url request request
           link None s0 s1 s1 (inr link)
           [Resumed s0 (websocket_receive link) s0 (inl reset);
            Resumed s1 (websocket_close link 1000 "") s1 (inr tt);
            Resumed s1 (asyncio_sleep RECONNECT_INTERVAL) s1 tt]
           (forward_link_receiving url request link None (established url s1))).
  cbn [app].
  eapply steps_await; [apply forward_link_receiving_unfold|]. cbn [fst snd].
  eapply steps_await; [apply forward_link_closing_unfold|]. cbn [fst snd].
  eapply steps_await; [reflexivity|]. cbn [fst snd].
  eapply steps_await; [apply forward_link_unfold|]. cbn [fst snd].
  apply steps_here. reflexivity.
Defined.

(** X26: the handler of the peer 123. *)
Lemma handler_of_peer_123_closes_its_socket :
  exists k,
    _handle_ws (RT := runtime) (socket 1 "123") started
    ≅ Vis (Await started (websocket_accept (socket 1 "123"))) k /\
    forall found trace t' self' r,
      bots found !! "123" = None ->
      steps (k (found, inr tt)) trace t' ->
      t' ≈ Ret (self', r) ->
      Exists (closes (RT := runtime) (socket 1 "123")) trace.
Proof.
  destruct (_handle_ws_closes_before_return (RT := runtime) (socket 1 "123")
              started "123") as (k & H & Hcloses).
  - reflexivity.
  - discriminate.
  - reflexivity.
  - reflexivity.
  - exists k. split; [exact H|].
    intros found trace t' self' r Hnew Hsteps Hret.
    pose proof (Hcloses found trace t' self' r Hsteps Hret) as Hcase.
    rewrite Hnew in Hcase. exact Hcase.
Defined.

(** X27: a request event, for which the registry of the scenario has no
    class. *)
Lemma request_event_falls_back_to_base_class :
  json_to_event (RT := runtime)
    (JDict [("post_type", JString "request"); ("self_id", JInt 123)]) None started
  = (started,
     inr (Some ("", JDict [("post_type", JString "request"); ("self_id", JInt 123)]))).
Proof.
  apply (json_to_event_unknown_type (RT := runtime)
           [("post_type", JString "request"); ("self_id", JInt 123)]
           "request" None started).
  - reflexivity.
  - vm_compute. reflexivity.
Defined.

(** X28: a custom class of private messages of friends leaves the class of
    messages where it is. *)
Lemma custom_model_keeps_message_class :
  event_models
    (fst (add_custom_model (RT := runtime) "message.private.friend" started))
    !! _path_from_key ".message"
  = event_models started !! _path_from_key ".message".
Proof.
  apply (add_custom_model_keeps_other_names (RT := runtime)
           "message.private.friend" started "message").
  discriminate.
Defined.

(** X29: a call at the adapter of the scenario, which has no channel. *)
Lemma call_keeps_connections_are_bots :
  Forall (fun i => connections_are_bots (RT := runtime) (left_by i)) [] /\
  forall self' r,
    _call_api (RT := runtime) {| self_id := "123" |} "send_msg" (JDict []) started
    ≈ Ret (self', r) ->
    connections_are_bots self'.
Proof.
  apply (_call_api_writes_log_and_results_only (RT := runtime)
           (connections_are_bots (RT := runtime)) {| self_id := "123" |}
           "send_msg" (JDict []) started []).
  - intros self self' (_ & _ & _ & Hc & Hb & _).
    by apply connections_are_bots_same_tables.
  - by apply connections_are_bots_no_connections.
  - apply steps_here. reflexivity.
  - constructor.
Defined.

